(** * LocalLifeAssistant public API: rate limiter and chat-turn pipeline

    A shallow embedding of [backend/app/api/public/rate_limiter.py],
    [backend/app/api/public/router.py],
    [backend/app/api/public/dependencies.py] and the client of
    [backend/app/api/examples/python_example.py].

    Conventions.
    - A Python [float] (a clock reading of [time.time()], a cache age) is
      the rational [Q] it stands for, and floats are compared by value.
      The float operations that round are written out: [float_of_int] and
      [float_add] give the nearest binary64 value, ties to even
      ([round64]); values of magnitude [2 ^ 1024] and more, where Python has
      [inf] and [OverflowError], are outside the development.  The cutoff
      [current_time - window_seconds] of the purge is taken exactly: for a
      float clock reading [t] with [0 <= window_seconds <= t < 2 ^ 53] the
      binary64 subtraction is exact and the purge with it is the purge
      modelled ([cutoff_exact], [cleanup_binary64_exact]).  [int(x)] is
      truncation towards zero.
    - Python [int] is [Z]; [str] is [string] (its UTF-8 bytes).  The case
      mappings [str.lower] and [str.title] of the handler follow the Unicode
      tables of the interpreter: they are functions of the runtime the
      handler is given ([str_lower], [str_title]), and the handler is
      modelled for any such functions.
    - [defaultdict(list)] is a [gmap string (list _)] read with default [[]].
    - Exceptions are an explicit error value threaded through a small monad. *)

From Stdlib Require Import ZArith QArith Qround Qabs Qpower Lia Lqa.
From Stdlib Require Import SpecFloat.
From Stdlib Require Import String Ascii List.
From stdpp Require Import base option gmap strings list pretty.

Set Warnings "-register-all".

Local Open Scope Z_scope.

(* ===================================================================== *)
(** ** Python numerics used by the sources *)
(* ===================================================================== *)

(** [int(x)] on a float: the integer part, rounding towards zero. *)
Definition py_int (x : Q) : Z := Z.quot (Qnum x) (Zpos (Qden x)).

(** [a > b] on floats. *)
Definition Qgtb (a b : Q) : bool := negb (Qle_bool a b).

(** The integer nearest to [x], the even one of two equally near. *)
Definition round_half_even (x : Q) : Z :=
  let f := Qfloor x in
  match (x - inject_Z f ?= 1 # 2)%Q with
  | Lt => f
  | Eq => if Z.even f then f else f + 1
  | Gt => f + 1
  end.

(** The binary exponent of [x <> 0]: [2 ^ ilog2 x <= |x| < 2 ^ (ilog2 x + 1)]. *)
Definition ilog2 (x : Q) : Z :=
  let k := Z.log2 (Z.abs (Qnum x)) - Z.log2 (Zpos (Qden x)) in
  if Qle_bool (2 ^ k) (Qabs x) then k else k - 1.

(** The binary64 value nearest to [x] (round to nearest, ties to even): 53
    significant bits, the last of weight [2 ^ e] with [e >= -1074]. *)
Definition round64 (x : Q) : Q :=
  if Qeq_bool x 0 then 0%Q
  else
    let e := Z.max (ilog2 x - 52) (-1074) in
    (inject_Z (round_half_even (x / 2 ^ e)) * 2 ^ e)%Q.

(** [float(n)], the conversion Python applies to the [int] operand of a
    mixed [float]/[int] operation. *)
Definition float_of_int (n : Z) : Q := round64 (inject_Z n).

(** [x + y] on floats. *)
Definition float_add (x y : Q) : Q := round64 (x + y).

(** [x - y] on floats. *)
Definition float_sub (x y : Q) : Q := round64 (x - y).

(** [x] is a binary64 value. *)
Definition is_float (x : Q) : Prop := (round64 x == x)%Q.

(** The value of a float of the Standard Library's IEEE 754 model. *)
Definition SF2Q (f : spec_float) : Q :=
  match f with
  | S754_finite s m e =>
      ((if s then -1 else 1) * inject_Z (Zpos m) * 2 ^ e)%Q
  | _ => 0%Q
  end.

(** Binary64 operands of a sum that rounds: [1 - 2 ^ -53] and [60]; the
    integer [2 ^ 53 + 1], halfway between two floats; a clock reading with
    a fraction. *)
Definition sample_floats : list (spec_float * spec_float) :=
  [(S754_finite false (2 ^ 53 - 1) (-53), S754_finite false (15 * 2 ^ 49) (-47));
   (S754_finite false (2 ^ 52) 1, S754_finite false (2 ^ 52) (-52));
   (S754_finite false (3400000001 * 2 ^ 21) (-22),
    S754_finite false (15 * 2 ^ 49) (-47))].

#[global] Instance Qlt_decision (a b : Q) : Decision (a < b)%Q.
Proof.
  destruct (Qlt_le_dec a b) as [H | H].
  - left; exact H.
  - right; intros H'. exact (Qlt_not_le _ _ H' H).
Defined.

(* ===================================================================== *)
(** ** rate_limiter.py *)
(* ===================================================================== *)

Module RateLimiter.

(** [RateLimiter.__init__]: the two configuration attributes. *)
Record config := mkConfig {
  max_requests : Z;
  window_seconds : Z;
}.

(** One stored entry [(timestamp, count)]. *)
Definition entry : Type := Q * Z.

(** [self._requests]: [{user_id: [(timestamp, count), ...]}]. *)
Abbreviation store := (gmap string (list entry)).

(** [self._requests[user_id]] on a [defaultdict(list)]. *)
Definition requests_of (st : store) (user_id : string) : list entry :=
  default [] (st !! user_id).

(** The dict returned next to the verdict. *)
Record rate_limit_info := mkInfo {
  limit : Z;
  remaining : Z;
  reset : Z;
}.

(** [_cleanup_old_requests]: keep the entries with [ts > cutoff_time]. *)
Definition cleanup_old_requests (cfg : config) (st : store)
    (user_id : string) (current_time : Q) : store :=
  let cutoff_time := (current_time - inject_Z (window_seconds cfg))%Q in
  <[user_id :=
      List.filter (fun e : entry => Qgtb (fst e) cutoff_time)
                  (requests_of st user_id)]> st.

(** The purge with the cutoff as the interpreter computes it, by a float
    subtraction. *)
Definition cleanup_old_requests_binary64 (cfg : config) (st : store)
    (user_id : string) (current_time : Q) : store :=
  let cutoff_time :=
    float_sub current_time (float_of_int (window_seconds cfg)) in
  <[user_id :=
      List.filter (fun e : entry => Qgtb (fst e) cutoff_time)
                  (requests_of st user_id)]> st.

(** [sum(count for _, count in l)]. *)
Definition sum_counts (l : list entry) : Z :=
  fold_left (fun acc e => acc + snd e) l 0.

(** [min(ts for ts, _ in l)] on a non-empty list: the running minimum,
    replaced only by a strictly smaller item. *)
Definition min_ts (first : Q) (rest : list entry) : Q :=
  fold_left (fun m e => if Qgtb m (fst e) then fst e else m) rest first.

(** [check_rate_limit], with the clock reading [current_time] made an
    argument.  Returns the new store, the verdict and the info dict. *)
Definition check_rate_limit (cfg : config) (st : store)
    (user_id : string) (current_time : Q)
    : store * (bool * rate_limit_info) :=
  let st1 := cleanup_old_requests cfg st user_id current_time in
  let current_count := sum_counts (requests_of st1 user_id) in
  let reset_time :=
    match requests_of st1 user_id with
    | e :: rest =>
        let oldest_request_time := min_ts (fst e) rest in
        py_int (float_add oldest_request_time
                  (float_of_int (window_seconds cfg)))
    | [] => py_int (float_add current_time
                      (float_of_int (window_seconds cfg)))
    end in
  let is_allowed := current_count <? max_requests cfg in
  let remaining := Z.max 0 (max_requests cfg - current_count) in
  let rate_limit_info :=
    {| limit := max_requests cfg; remaining := remaining;
       reset := reset_time |} in
  let st2 :=
    if is_allowed
    then <[user_id := requests_of st1 user_id ++ [(current_time, 1)]]> st1
    else st1 in
  (st2, (is_allowed, rate_limit_info)).

(** A schedule of calls [(user_id, clock reading)] run in order; the
    results are collected next to the identity that made the call. *)
Fixpoint run (cfg : config) (calls : list (string * Q)) (st : store)
    : store * list (string * (bool * rate_limit_info)) :=
  match calls with
  | [] => (st, [])
  | (u, t) :: calls' =>
      let '(st1, r) := check_rate_limit cfg st u t in
      let '(st2, rs) := run cfg calls' st1 in
      (st2, (u, r) :: rs)
  end.

(** The results of one identity in a collected result list. *)
Definition results_of (u : string)
    (rs : list (string * (bool * rate_limit_info)))
    : list (bool * rate_limit_info) :=
  map snd (List.filter (fun r => bool_decide (fst r = u)) rs).

(** *** The behaviour in the words of the specification *)

(** The surviving entries: those not at or before [now - window]. *)
Definition survivors (cfg : config) (now : Q) (l : list entry) : list entry :=
  filter (fun e : entry => (now - inject_Z (window_seconds cfg) < fst e)%Q) l.

(** [t] is the timestamp of an oldest entry of [l]. *)
Definition oldest (t : Q) (l : list entry) : Prop :=
  (exists c, (t, c) ∈ l) /\ forall e, e ∈ l -> (t <= fst e)%Q.

(** The store after a call: the identity's list becomes the survivors,
    plus the admitted event; nothing else changes. *)
Definition store_after (cfg : config) (st : store) (user_id : string)
    (now : Q) (allowed : bool) : store :=
  <[user_id := survivors cfg now (requests_of st user_id)
               ++ (if allowed then [(now, 1)] else [])]> st.

(** The sum of the counts of a list of entries. *)
Definition total (l : list entry) : Z := foldr Z.add 0 (map snd l).

(** The reset value as the specification words it: the oldest surviving
    timestamp plus the window, or the clock plus the window. *)
Definition reset_exact (cfg : config) (now : Q) (surv : list entry)
    (r : Z) : Prop :=
  match surv with
  | [] => (inject_Z r == now + inject_Z (window_seconds cfg))%Q
  | _ => exists t, oldest t surv /\
                   (inject_Z r == t + inject_Z (window_seconds cfg))%Q
  end.

(** The reset value as the code computes it: the sum is a float sum,
    rounded to the nearest binary64 value, and [int] drops its fractional
    part. *)
Definition reset_truncated (cfg : config) (now : Q) (surv : list entry)
    (r : Z) : Prop :=
  match surv with
  | [] => r = py_int (float_add now (float_of_int (window_seconds cfg)))
  | _ => exists t, oldest t surv /\
                   r = py_int (float_add t
                                 (float_of_int (window_seconds cfg)))
  end.

(** The reset value as the integer part of the exact sum. *)
Definition reset_floor_of_sum (cfg : config) (now : Q) (surv : list entry)
    (r : Z) : Prop :=
  match surv with
  | [] => r = py_int (now + inject_Z (window_seconds cfg))
  | _ => exists t, oldest t surv /\
                   r = py_int (t + inject_Z (window_seconds cfg))
  end.

(** One call described by the specification, up to the reset value, which
    is constrained by [reset_ok]. *)
Definition call_described
    (reset_ok : config -> Q -> list entry -> Z -> Prop)
    (cfg : config) (st : store) (user_id : string) (now : Q) : Prop :=
  let surv := survivors cfg now (requests_of st user_id) in
  let s := total surv in
  let '(st', (allowed, info)) := check_rate_limit cfg st user_id now in
  allowed = bool_decide (s < max_requests cfg)
  /\ limit info = max_requests cfg
  /\ remaining info = Z.max 0 (max_requests cfg - s)
  /\ reset_ok cfg now surv (reset info)
  /\ st' = store_after cfg st user_id now allowed.

(** Every stored entry of [user_id] was stamped at or before [t]: true
    of every store the limiter builds while its clock moves forward. *)
Definition stamped_by (st : store) (user_id : string) (t : Q) : Prop :=
  Forall (fun e : entry => (fst e <= t)%Q) (requests_of st user_id).

(** An identity is refused at [t0]; the next call comes at [now], a full
    window later.  That call is admitted and reports [expected]. *)
Definition recovers_reporting (expected : Z) (cfg : config) (st : store)
    (user_id : string) (t0 now : Q) : Prop :=
  stamped_by st user_id t0 ->
  fst (snd (check_rate_limit cfg st user_id t0)) = false ->
  (t0 + inject_Z (window_seconds cfg) <= now)%Q ->
  let st1 := fst (check_rate_limit cfg st user_id t0) in
  let '(allowed, info) := snd (check_rate_limit cfg st1 user_id now) in
  allowed = true /\ remaining info = expected.

(** Two stored requests fill a limiter of two per minute. *)
Definition full_store : store :=
  {[ "alice"%string := [((0 # 1)%Q, 1); ((1 # 1)%Q, 1)] ]}.

(** *** Schedules of calls *)

(** The calls of a schedule that were admitted, in order. *)
Fixpoint admitted_calls (cfg : config) (calls : list (string * Q))
    (st : store) : list (string * Q) :=
  match calls with
  | [] => []
  | (u, t) :: calls' =>
      let '(st1, r) := check_rate_limit cfg st u t in
      (if fst r then [(u, t)] else []) ++ admitted_calls cfg calls' st1
  end.

(** The clock readings of a schedule never go back, starting at [now]. *)
Fixpoint monotone_from (now : Q) (calls : list (string * Q)) : Prop :=
  match calls with
  | [] => True
  | (_, t) :: calls' => (now <= t)%Q /\ monotone_from t calls'
  end.

Definition clock_monotone (calls : list (string * Q)) : Prop :=
  match calls with
  | [] => True
  | (_, t) :: _ => monotone_from t calls
  end.

(** How many calls of [u] in [past] were made after the instant [c]. *)
Definition calls_after (u : string) (c : Q) (past : list (string * Q)) : nat :=
  length (filter (fun x : string * Q => fst x = u /\ (c < snd x)%Q) past).

(** The answers given to [u] when it makes the calls [times] in a row. *)
Definition burst_results (cfg : config) (u : string) (times : list Q)
    (st : store) : list (bool * rate_limit_info) :=
  map snd (snd (run cfg (map (fun t => (u, t)) times) st)).

(** Any two calls of a burst are less than a window apart. *)
Definition within_one_window (cfg : config) (times : list Q) : Prop :=
  forall t t', t ∈ times -> t' ∈ times ->
               (t - inject_Z (window_seconds cfg) < t')%Q.

(** Every entry of the list counts one request. *)
Definition ones (l : list entry) : Prop :=
  Forall (fun e : entry => snd e = 1) l.

(** Every identity holds entries of count one, and no more of them than
    the limit allows. *)
Definition bounded (cfg : config) (st : store) : Prop :=
  forall v, ones (requests_of st v)
            /\ Z.of_nat (length (requests_of st v))
               <= Z.max 0 (max_requests cfg).

(** The store keeps, for every identity, as many entries after any instant
    [c] not earlier than [now - window] as there are admitted calls of that
    identity after [c]. *)
Definition tracks (cfg : config) (st : store) (past : list (string * Q))
    (now : Q) : Prop :=
  forall u c,
    (now - inject_Z (window_seconds cfg) <= c)%Q ->
    calls_after u c past
    = length (filter (fun e : entry => (c < fst e)%Q) (requests_of st u)).

(** *** Clock readings in range *)

(** A clock reading in seconds since the epoch, below [2 ^ 52]: in that
    range the float sum with a window below [2 ^ 52] is off by less than
    one second. *)
Definition epoch_seconds (t : Q) : Prop :=
  (0 <= t)%Q /\ (t < inject_Z (2 ^ 52))%Q.

(** Every stored timestamp is such a reading. *)
Definition stamps_in_range (st : store) : Prop :=
  forall v, Forall (fun e : entry => epoch_seconds (fst e)) (requests_of st v).

End RateLimiter.

(* ===================================================================== *)
(** ** Python strings and values used by router.py *)
(* ===================================================================== *)

Module Py.

Definition is_upper (c : ascii) : bool :=
  (65 <=? nat_of_ascii c)%nat && (nat_of_ascii c <=? 90)%nat.

Definition is_lower (c : ascii) : bool :=
  (97 <=? nat_of_ascii c)%nat && (nat_of_ascii c <=? 122)%nat.

Definition to_lower (c : ascii) : ascii :=
  if is_upper c then ascii_of_nat (nat_of_ascii c + 32) else c.

Definition to_upper (c : ascii) : ascii :=
  if is_lower c then ascii_of_nat (nat_of_ascii c - 32) else c.

(** The ASCII case mapping: [s.lower()] for a string [s] of ASCII
    characters.  It also decides [s.lower() == w] for any [s] and an ASCII
    word [w] without ["k"] or ["i"]: the only characters outside ASCII that
    [str.lower] maps to ASCII letters are U+212A (to ["k"]) and, followed
    by U+0307, U+0130 (to ["i"]). *)
Fixpoint lower (s : string) : string :=
  match s with
  | EmptyString => EmptyString
  | String c s' => String (to_lower c) (lower s')
  end.

(** [s.title()] for a string [s] of ASCII characters: a letter that
    follows a letter is lowercased, any other letter is uppercased. *)
Fixpoint title_from (prev_cased : bool) (s : string) : string :=
  match s with
  | EmptyString => EmptyString
  | String c s' =>
      if is_upper c || is_lower c
      then String (if prev_cased then to_lower c else to_upper c)
                  (title_from true s')
      else String c (title_from false s')
  end.

Definition title (s : string) : string := title_from false s.

(** [s.replace(a, b)] for one-character [a] and [b]. *)
Fixpoint replace (a b : ascii) (s : string) : string :=
  match s with
  | EmptyString => EmptyString
  | String c s' => String (if Ascii.eqb c a then b else c) (replace a b s')
  end.

(** [sep.join(l)]. *)
Fixpoint join (sep : string) (l : list string) : string :=
  match l with
  | [] => EmptyString
  | [x] => x
  | x :: l' => x ++ sep ++ join sep l'
  end.

(** Truth value of a [str]. *)
Definition str_truthy (s : string) : bool := negb (String.eqb s "").

(** Truth value of an [Optional[str]]. *)
Definition opt_truthy (o : option string) : bool :=
  match o with
  | Some s => str_truthy s
  | None => false
  end.

(** The values found in stored documents and event payloads. *)
Inductive pyval :=
| PyNone
| PyBool (b : bool)
| PyInt (z : Z)
| PyFloat (q : Q)
| PyStr (s : string)
| PyList (l : list pyval).

(** [bool(v)]. *)
Definition truthy (v : pyval) : bool :=
  match v with
  | PyNone => false
  | PyBool b => b
  | PyInt z => negb (z =? 0)
  | PyFloat q => negb (Qeq_bool q 0)
  | PyStr s => str_truthy s
  | PyList l => match l with [] => false | _ => true end
  end.

(** [v != s] for a [str] s: only an equal string is not different. *)
Definition ne_str (v : pyval) (s : string) : bool :=
  match v with
  | PyStr s' => negb (String.eqb s' s)
  | _ => true
  end.

(** A [dict] with string keys. *)
Abbreviation dict := (gmap string pyval).

(** [d.get(k)]: [None] when the key is missing. *)
Definition dict_get (d : dict) (k : string) : pyval :=
  default PyNone (d !! k).

(** [d.get(k, v)]. *)
Definition dict_get_default (d : dict) (k : string) (v : pyval) : pyval :=
  default v (d !! k).

(** [not d] for a dict. *)
Definition dict_truthy (d : dict) : bool := negb (bool_decide (d = ∅)).

(** The exceptions the handler distinguishes. *)
Inductive exn :=
| HTTPException (status_code : Z) (detail : string)
| Exception (text : string).

(** The outcome of a call that may raise. *)
Inductive result (A : Type) :=
| Ok (a : A)
| Raise (e : exn).
Arguments Ok {A} a.
Arguments Raise {A} e.

End Py.

(* ===================================================================== *)
(** ** router.py *)
(* ===================================================================== *)

Module Router.
Import Py.

(** [UserPreferences] of the extraction service: four optional strings,
    the string ["none"] standing for "not given". *)
Record UserPreferences := mkPrefs {
  location : option string;
  date : option string;
  time : option string;
  event_type : option string;
}.

(** [ChatRequest]. *)
Record ChatRequest := mkRequest {
  message : string;
  conversation_history : list dict;
  llm_provider : string;
  user_preferences : option UserPreferences;
  is_initial_response : bool;
  conversation_id : option string;
}.

(** A key of the JSON body as the validation of the model class meets
    it: absent; present with a value of the declared type (null, for an
    [Optional] type, is [Given None]); or present with a value that does
    not fit the type. *)
Inductive field (A : Type) :=
| Absent
| Given (a : A)
| Mistyped.
Arguments Absent {A}.
Arguments Given {A} a.
Arguments Mistyped {A}.

(** A JSON body as it arrives. *)
Record request_body := mkBody {
  body_message : field string;
  body_conversation_history : field (list dict);
  body_llm_provider : field string;
  body_user_preferences : field (option UserPreferences);
  body_is_initial_response : field bool;
  body_conversation_id : field (option string);
}.

(** A field declared without a default. *)
Definition required {A} (f : field A) : option A :=
  match f with
  | Given a => Some a
  | Absent | Mistyped => None
  end.

(** A field declared with the default [d]. *)
Definition defaulted {A} (d : A) (f : field A) : option A :=
  match f with
  | Absent => Some d
  | Given a => Some a
  | Mistyped => None
  end.

(** Validation of a body against [ChatRequest]: [message] has no default
    and is required; every other field falls back to its default when the
    key is absent; a value that does not fit its type fails the whole
    body.  The only constraint on [message] is its type. *)
Definition validate (b : request_body) : option ChatRequest :=
  m ← required (body_message b);
  h ← defaulted [] (body_conversation_history b);
  p ← defaulted "openai"%string (body_llm_provider b);
  u ← defaulted None (body_user_preferences b);
  i ← defaulted false (body_is_initial_response b);
  c ← defaulted None (body_conversation_id b);
  Some {| message := m; conversation_history := h; llm_provider := p;
          user_preferences := u; is_initial_response := i;
          conversation_id := c |}.

(** One formatted recommendation. *)
Record recommendation := mkRec {
  rec_type : string;
  rec_data : dict;
  relevance_score : pyval;
  explanation : string;
}.

(** [ChatResponse]. *)
Record ChatResponse := mkResponse {
  resp_message : string;
  recommendations : list recommendation;
  llm_provider_used : string;
  cache_used : bool;
  cache_age_hours : option Q;
  extracted_preferences : option UserPreferences;
  extraction_summary : option string;
  usage_stats : option dict;
  trial_exceeded : bool;
  resp_conversation_id : string;
}.

(** The dict handed to [save_message]; the last four fields are only
    present on an assistant message. *)
Record saved_message := mkMessage {
  role : string;
  content : string;
  timestamp : string;
  msg_recommendations : option (list recommendation);
  msg_extracted_preferences : option (option UserPreferences);
  msg_cache_used : option bool;
  msg_cache_age_hours : option (option Q);
}.

(** Everything the handler does to the outside world, in order. *)
Inductive call :=
| SetHeader (name value : string)
| GetConversation (user_id conversation_id : string)
| CheckTrialLimit (user_id : string)
| GetUsage (user_id : string)
| IncrementUsage (user_id : string)
| CreateConversation (user_id : string) (llm_provider : string)
| SaveMessage (user_id conversation_id : string) (m : saved_message)
| UpdateMetadata (user_id conversation_id : string) (last_message_at : string)
| ExtractUserPreferences (text : string)
| ExtractLocationFromQuery (text : string)
| GetSupportedCities
| GetCachedEvents (city : string)
| GetCacheAge (city : string)
| IntelligentEventSearch (query : string) (events : list dict)
    (user_preferences : option UserPreferences).

(** The services the module instantiates and the runtime it relies on.
    Their code is outside this module; each answer is a function of the
    call.  Within one turn no call is made twice with the same arguments,
    so fixing the answer per call loses no behaviour of a turn.
    [datetime_now_isoformat n] is the clock string read after [n] calls.
    [str_lower] and [str_title] are [str.lower] and [str.title], whose
    case mappings are those of the Unicode tables of the interpreter. *)
Record collaborators := mkCollaborators {
  get_conversation : string -> string -> result (option dict);
  check_trial_limit : string -> result bool;
  trial_limit : Z;
  get_usage : string -> result dict;
  increment_usage : string -> result dict;
  create_conversation : string -> string -> result string;
  save_message : string -> string -> saved_message -> result unit;
  update_metadata : string -> string -> string -> result unit;
  extract_user_preferences : string -> result UserPreferences;
  extract_location_from_query : string -> result (option string);
  get_supported_cities : result (list string);
  get_cached_events : string -> result (list dict);
  get_cache_age : string -> result (option Q);
  intelligent_event_search :
    string -> list dict -> option UserPreferences -> result (list dict);
  datetime_now_isoformat : nat -> string;
  py_str : pyval -> string;
  str_lower : string -> string;
  str_title : string -> string;
}.

(** *** The handler monad: a log of calls and a possibly raised exception *)

Definition M (A : Type) : Type := list call -> list call * result A.

Definition ret {A} (a : A) : M A := fun log => (log, Ok a).

Definition raise {A} (e : exn) : M A := fun log => (log, Raise e).

Definition bind {A B} (m : M A) (k : A -> M B) : M B :=
  fun log =>
    match m log with
    | (log', Ok a) => k a log'
    | (log', Raise e) => (log', Raise e)
    end.

(** Make the call [c], whose answer is [r]. *)
Definition perform {A} (c : call) (r : result A) : M A :=
  fun log => (log ++ [c], r).

(** [try: m except e: h e]. *)
Definition try_except {A} (m : M A) (h : exn -> M A) : M A :=
  fun log =>
    match m log with
    | (log', Raise e) => h e log'
    | done => done
    end.

(** [datetime.now().isoformat()]. *)
Definition now_isoformat (env : collaborators) : M string :=
  fun log => (log, Ok (datetime_now_isoformat env (length log))).

Notation "'let!' x ':=' m 'in' k" := (bind m (fun x => k))
  (at level 10, x name, m at level 200, k at level 200).
Notation "'run!' m 'in' k" := (bind m (fun _ => k))
  (at level 10, m at level 200, k at level 200).

(** [user_id.startswith("user_")]: the anonymous (trial) identities. *)
Definition is_anonymous (user_id : string) : bool :=
  String.prefix "user_" user_id.

(** [rate_limiter.add_rate_limit_headers]. *)
Definition add_rate_limit_headers (info : RateLimiter.rate_limit_info)
    : M unit :=
  run! perform (SetHeader "X-RateLimit-Limit"
                  (pretty (RateLimiter.limit info))) (Ok tt) in
  run! perform (SetHeader "X-RateLimit-Remaining"
                  (pretty (RateLimiter.remaining info))) (Ok tt) in
  perform (SetHeader "X-RateLimit-Reset"
             (pretty (RateLimiter.reset info))) (Ok tt).

Definition not_found : exn := HTTPException 404 "Conversation not found".

Definition forbidden : exn :=
  HTTPException 403 "You do not have permission to access this conversation".

(** The permission check (lines 80-107). *)
Definition verify_ownership (env : collaborators) (request : ChatRequest)
    (user_id : string) : M unit :=
  match conversation_id request with
  | Some cid =>
      if str_truthy cid then
        try_except
          (let! conversation :=
             perform (GetConversation user_id cid)
                     (get_conversation env user_id cid) in
           match conversation with
           | None => raise not_found
           | Some conversation =>
               if negb (dict_truthy conversation) then raise not_found
               else
                 let conv_user_id := dict_get conversation "user_id" in
                 if truthy conv_user_id && ne_str conv_user_id user_id
                 then raise forbidden
                 else ret tt
           end)
          (fun e =>
             match e with
             | HTTPException _ _ => raise e
             | Exception _ => raise not_found
             end)
      else ret tt
  | None => ret tt
  end.

(** The terminal response of the trial gate (lines 113-124). *)
Definition trial_exceeded_response (env : collaborators)
    (request : ChatRequest) (usage : dict) : ChatResponse :=
  {| resp_message :=
       "🔒 You've reached your free trial limit of "
       +:+ pretty (trial_limit env)
       +:+ " interactions! "
       +:+ "Please register to continue using our service and keep your conversation history.";
     recommendations := [];
     llm_provider_used := llm_provider request;
     cache_used := false;
     cache_age_hours := None;
     extracted_preferences := None;
     extraction_summary := None;
     usage_stats := Some usage;
     trial_exceeded := true;
     resp_conversation_id := "temp" |}.

(** Step 2 (lines 153-169): the city and whether a location was given. *)
Definition determine_city (env : collaborators) (request : ChatRequest)
    (extracted : option UserPreferences) : M (option string * bool) :=
  let '(city, location_provided) :=
    match extracted with
    | Some p =>
        match location p with
        | Some loc =>
            if str_truthy loc && negb (String.eqb loc "none")
            then (Some (str_lower env loc), true)
            else (None, false)
        | None => (None, false)
        end
    | None => (None, false)
    end in
  if negb (opt_truthy city) then
    let! query_city :=
      perform (ExtractLocationFromQuery (message request))
              (extract_location_from_query env (message request)) in
    match query_city with
    | Some q =>
        if str_truthy q then ret (Some (str_lower env q), true)
        else ret (city, location_provided)
    | None => ret (city, location_provided)
    end
  else ret (city, location_provided).

(** Step 3 (lines 172-192): the question asked when an initial turn
    gives no location. *)
Definition location_question (env : collaborators) (request : ChatRequest)
    (extracted : option UserPreferences) (conversation_id : string)
    : M ChatResponse :=
  let! supported_cities :=
    perform GetSupportedCities (get_supported_cities env) in
  let formatted_cities :=
    map (fun c => str_title env (replace "_" " " c)) supported_cities in
  let cities_list := join ", " formatted_cities in
  ret {| resp_message :=
           "I'd be happy to help you find events! "
           +:+ "To give you the best recommendations, could you please tell me "
           +:+ "which city or area you're interested in? "
           +:+ "(e.g., " +:+ cities_list +:+ ", or a zipcode)";
         recommendations := [];
         llm_provider_used := llm_provider request;
         cache_used := false;
         cache_age_hours := None;
         extracted_preferences := extracted;
         extraction_summary := None;
         usage_stats := None;
         trial_exceeded := false;
         resp_conversation_id := conversation_id |}.

(** [f"{x:.1f}"] in the log line of the cached branch: formatting [None]
    with a float format raises [TypeError]. *)
Definition format_1f (x : option Q) : M unit :=
  match x with
  | Some _ => ret tt
  | None =>
      raise (Exception "unsupported format string passed to NoneType.__format__")
  end.

(** Step 5 (lines 204-215): events, [cache_used] and the reported age. *)
Definition acquire_events (env : collaborators) (city : string)
    : M (list dict * bool * option Q) :=
  let! cached_events :=
    perform (GetCachedEvents city) (get_cached_events env city) in
  let! cache_age_hours :=
    perform (GetCacheAge city) (get_cache_age env city) in
  match cached_events with
  | _ :: _ =>
      run! format_1f cache_age_hours in
      let cache_used :=
        match cache_age_hours with
        | Some age => Qgtb age 0
        | None => false
        end in
      ret (cached_events, cache_used, cache_age_hours)
  | [] => ret ([], false, None)
  end.

(** A value inside an f-string. *)
Definition format_value (env : collaborators) (v : pyval) : string :=
  match v with
  | PyStr s => s
  | _ => py_str env v
  end.

(** Step 7 (lines 238-248). *)
Definition format_recommendation (env : collaborators) (city : string)
    (cache_used : bool) (event : dict) : recommendation :=
  {| rec_type := "event";
     rec_data :=
       <["source"%string :=
           PyStr (if cache_used then "cached" else "realtime")]> event;
     relevance_score :=
       dict_get_default event "relevance_score" (PyFloat (1 # 2));
     explanation :=
       "Event in " +:+ str_title env city +:+ ": "
       +:+ format_value env
             (dict_get_default event "title" (PyStr "Unknown Event")) |}.

Definition default_note : string :=
  " (I couldn't determine your location, so I'm defaulting to New York)".

(** Step 8 (lines 251-265). *)
Definition response_text (env : collaborators) (city : string)
    (location_provided : bool)
    (top_events : list dict) : string :=
  let location_note :=
    if negb location_provided && String.eqb city "new york"
    then default_note else ""%string in
  match top_events with
  | _ :: _ =>
      "🎉 Found " +:+ pretty (length top_events) +:+ " events in "
      +:+ str_title env city +:+ " that match your search!"
      +:+ location_note +:+ " Check out the recommendations below ↓"
  | [] =>
      "😔 I couldn't find any events in " +:+ str_title env city
      +:+ " matching your query."
      +:+ location_note +:+ " Try asking about 'fashion events', 'music concerts', "
      +:+ "'halloween parties', or 'free events'."
  end.

(** One line of the summary: kept when the field is set and not ["none"]. *)
Definition summary_part (icon : string) (field : option string)
    : list string :=
  match field with
  | Some v =>
      if str_truthy v && negb (String.eqb v "none")
      then [icon +:+ " " +:+ v] else []
  | None => []
  end.

(** Step 9 (lines 268-281). *)
Definition make_extraction_summary (extracted : option UserPreferences)
    : option string :=
  match extracted with
  | Some p =>
      let summary_parts :=
        summary_part "📍" (location p) ++ summary_part "📅" (date p)
        ++ summary_part "🕐" (time p) ++ summary_part "🎭" (event_type p) in
      match summary_parts with
      | [] => None
      | _ => Some (join " • " summary_parts)
      end
  | None => None
  end.

(** Steps 5 to the end (lines 203-310), once the city is decided. *)
Definition search_and_reply (env : collaborators) (request : ChatRequest)
    (user_id conversation_id : string) (usage_stats : option dict)
    (extracted : option UserPreferences) (city : string)
    (location_provided : bool) : M ChatResponse :=
  let! acquired := acquire_events env city in
  let '(events, cache_used, cache_age_hours) := acquired in
  let! top_events :=
    perform (IntelligentEventSearch (message request) events extracted)
            (intelligent_event_search env (message request) events extracted) in
  let formatted_recommendations :=
    map (format_recommendation env city cache_used) top_events in
  let response_message := response_text env city location_provided top_events in
  let extraction_summary := make_extraction_summary extracted in
  let! stamp := now_isoformat env in
  let assistant_message :=
    {| role := "assistant"; content := response_message;
       timestamp := stamp;
       msg_recommendations := Some formatted_recommendations;
       msg_extracted_preferences := Some extracted;
       msg_cache_used := Some cache_used;
       msg_cache_age_hours := Some cache_age_hours |} in
  run! perform (SaveMessage user_id conversation_id assistant_message)
         (save_message env user_id conversation_id assistant_message) in
  let! stamp' := now_isoformat env in
  run! perform (UpdateMetadata user_id conversation_id stamp')
         (update_metadata env user_id conversation_id stamp') in
  ret {| resp_message := response_message;
         recommendations := formatted_recommendations;
         llm_provider_used := llm_provider request;
         cache_used := cache_used;
         cache_age_hours := cache_age_hours;
         extracted_preferences := extracted;
         extraction_summary := extraction_summary;
         usage_stats := usage_stats;
         trial_exceeded := false;
         resp_conversation_id := conversation_id |}.

(** The dict saved for the caller's message (lines 140-144). *)
Definition user_message (request : ChatRequest) (stamp : string)
    : saved_message :=
  {| role := "user"; content := message request; timestamp := stamp;
     msg_recommendations := None; msg_extracted_preferences := None;
     msg_cache_used := None; msg_cache_age_hours := None |}.

(** Lines 126-144: charge an anonymous identity, get or create the
    conversation, save the caller's message. *)
Definition open_turn (env : collaborators) (request : ChatRequest)
    (user_id : string) : M (option dict * string) :=
  let! usage_stats :=
    if is_anonymous user_id then
      let! u := perform (IncrementUsage user_id)
                        (increment_usage env user_id) in
      ret (Some u)
    else ret None in
  let! conversation_id :=
    if opt_truthy (conversation_id request)
    then ret (default ""%string (conversation_id request))
    else perform (CreateConversation user_id (llm_provider request))
                 (create_conversation env user_id (llm_provider request)) in
  let! stamp := now_isoformat env in
  run! perform (SaveMessage user_id conversation_id
                  (user_message request stamp))
         (save_message env user_id conversation_id
            (user_message request stamp)) in
  ret (usage_stats, conversation_id).

(** Step 4 (lines 195-199): the city searched. *)
Definition final_city (city : option string) : string :=
  if negb (opt_truthy city) then "new york"%string
  else default ""%string city.

(** Lines 146-310: extract, decide the city, ask or search. *)
Definition reply_turn (env : collaborators) (request : ChatRequest)
    (user_id conversation_id : string) (usage_stats : option dict)
    : M ChatResponse :=
  let! extracted :=
    if is_initial_response request then
      let! p := perform (ExtractUserPreferences (message request))
                        (extract_user_preferences env (message request)) in
      ret (Some p)
    else ret None in
  let! decided := determine_city env request extracted in
  let '(city, location_provided) := decided in
  if is_initial_response request && negb location_provided then
    location_question env request extracted conversation_id
  else
    search_and_reply env request user_id conversation_id usage_stats
      extracted (final_city city) location_provided.

(** Lines 126-310: the turn of an identity that passed the trial gate. *)
Definition admitted_turn (env : collaborators) (request : ChatRequest)
    (user_id : string) : M ChatResponse :=
  let! opened := open_turn env request user_id in
  let '(usage_stats, conversation_id) := opened in
  reply_turn env request user_id conversation_id usage_stats.

(** Lines 109-310: the trial gate and what follows it. *)
Definition after_ownership (env : collaborators) (request : ChatRequest)
    (user_id : string) : M ChatResponse :=
  let! exceeded :=
    if is_anonymous user_id
    then perform (CheckTrialLimit user_id) (check_trial_limit env user_id)
    else ret false in
  if exceeded then
    let! usage := perform (GetUsage user_id) (get_usage env user_id) in
    ret (trial_exceeded_response env request usage)
  else admitted_turn env request user_id.

(** The body of the outer [try] (lines 72-310). *)
Definition public_chat_body (env : collaborators) (request : ChatRequest)
    (rate_limit_result : string * RateLimiter.rate_limit_info)
    : M ChatResponse :=
  let '(user_id, rate_limit_info) := rate_limit_result in
  run! add_rate_limit_headers rate_limit_info in
  run! verify_ownership env request user_id in
  after_ownership env request user_id.

(** [public_chat]: HTTP exceptions pass, anything else becomes a 500. *)
Definition public_chat (env : collaborators) (request : ChatRequest)
    (rate_limit_result : string * RateLimiter.rate_limit_info)
    : M ChatResponse :=
  try_except (public_chat_body env request rate_limit_result)
    (fun e =>
       match e with
       | HTTPException _ _ => raise e
       | Exception text =>
           raise (HTTPException 500
                    ("Error processing chat request: " +:+ text))
       end).

(** *** Reading a log *)

(** The header writes every turn starts with. *)
Definition headers_log (info : RateLimiter.rate_limit_info) : list call :=
  [SetHeader "X-RateLimit-Limit" (pretty (RateLimiter.limit info));
   SetHeader "X-RateLimit-Remaining" (pretty (RateLimiter.remaining info));
   SetHeader "X-RateLimit-Reset" (pretty (RateLimiter.reset info))].

(** The messages written to the transcript, in order. *)
Definition saved_messages (log : list call) : list saved_message :=
  omap (fun c => match c with SaveMessage _ _ m => Some m | _ => None end) log.

(** Calls that write to the transcript store. *)
Definition is_transcript_write (c : call) : bool :=
  match c with
  | CreateConversation _ _ | SaveMessage _ _ _ | UpdateMetadata _ _ _ => true
  | _ => false
  end.

(** Calls that charge the trial counter. *)
Definition is_usage_charge (c : call) : bool :=
  match c with
  | IncrementUsage _ => true
  | _ => false
  end.

(** Calls that acquire the corpus or search it. *)
Definition is_search (c : call) : bool :=
  match c with
  | GetCachedEvents _ | GetCacheAge _ | IntelligentEventSearch _ _ _ => true
  | _ => false
  end.

(** *** The claims about the handler, in the words of the specification *)

(** The request carries the conversation reference [cid]. *)
Definition refers_to (request : ChatRequest) (cid : string) : Prop :=
  conversation_id request = Some cid /\ str_truthy cid = true.

(** The ownership rule for a request that carries a reference; [mismatch]
    says when a stored owner counts as someone else's.  Unknown
    reference: 404.  Mismatch: 403.  Owner is the caller: the handler
    goes on to the trial gate.  Unexpected failure of the lookup: 404.
    In the error cases nothing but the headers and the lookup happened. *)
Definition ownership_rule (mismatch : pyval -> string -> Prop)
    (env : collaborators) (request : ChatRequest) (user_id : string)
    (info : RateLimiter.rate_limit_info) : Prop :=
  forall cid, refers_to request cid ->
    let looked := headers_log info ++ [GetConversation user_id cid] in
    (get_conversation env user_id cid = Ok None ->
     public_chat env request (user_id, info) [] = (looked, Raise not_found))
    /\ (forall conv owner,
          get_conversation env user_id cid = Ok (Some conv) ->
          conv !! "user_id"%string = Some owner ->
          mismatch owner user_id ->
          public_chat env request (user_id, info) []
          = (looked, Raise forbidden))
    /\ (forall conv,
          get_conversation env user_id cid = Ok (Some conv) ->
          conv !! "user_id"%string = Some (PyStr user_id) ->
          public_chat_body env request (user_id, info) []
          = after_ownership env request user_id looked)
    /\ (forall text,
          get_conversation env user_id cid = Raise (Exception text) ->
          public_chat env request (user_id, info) []
          = (looked, Raise not_found)).

(** A stored owner that is not the caller's identity. *)
Definition differs : pyval -> string -> Prop :=
  fun owner user_id => owner <> PyStr user_id.

(** A stored owner that is set (not null, not empty) and is not the
    caller's identity. *)
Definition set_and_differs : pyval -> string -> Prop :=
  fun owner user_id => truthy owner = true /\ owner <> PyStr user_id.

(** A stored conversation whose owner field is the empty string. *)
Definition ownerless_conversation : dict :=
  {[ "user_id"%string := PyStr "" ]}.

(** The owner field of a stored conversation is absent, null or empty. *)
Definition owner_unset (conv : dict) : Prop :=
  conv !! "user_id"%string = None
  \/ conv !! "user_id"%string = Some PyNone
  \/ conv !! "user_id"%string = Some (PyStr "").

(** The turn goes on past the check on the reference [cid]: after the
    lookup, its next call is the trial gate's or saves the caller's
    message to that conversation. *)
Definition proceeds (env : collaborators) (request : ChatRequest)
    (user_id cid : string) (info : RateLimiter.rate_limit_info) : Prop :=
  exists c rest,
    fst (public_chat env request (user_id, info) [])
    = headers_log info ++ [GetConversation user_id cid] ++ c :: rest
    /\ (c = CheckTrialLimit user_id
        \/ exists stamp,
             c = SaveMessage user_id cid (user_message request stamp)).

(** The rule for a stored conversation without an owner, among the
    conversations that count as [stored]: the check is skipped and the
    turn goes on, whoever the caller is. *)
Definition unset_owner_rule (stored : dict -> Prop) (env : collaborators)
    (request : ChatRequest) (user_id : string)
    (info : RateLimiter.rate_limit_info) : Prop :=
  forall cid conv,
    refers_to request cid ->
    get_conversation env user_id cid = Ok (Some conv) ->
    stored conv -> owner_unset conv ->
    proceeds env request user_id cid info.

(** A call that leaves the transcript and the trial counter alone. *)
Definition writes_nothing (c : call) : Prop :=
  is_transcript_write c = false /\ is_usage_charge c = false.

(** The identity passes the trial gate and [usage] is what the turn
    reports: an anonymous identity is under its limit and is charged, any
    other identity is not looked at. *)
Definition passes_gate (env : collaborators) (user_id : string)
    (usage : option dict) : Prop :=
  if is_anonymous user_id
  then check_trial_limit env user_id = Ok false
       /\ exists u, usage = Some u /\ increment_usage env user_id = Ok u
  else usage = None.

Definition gate_calls (user_id : string) : list call :=
  if is_anonymous user_id
  then [CheckTrialLimit user_id; IncrementUsage user_id] else [].

(** [cid] is the conversation of the turn: the one referred to, or a new
    one the storage created. *)
Definition materialised (env : collaborators) (request : ChatRequest)
    (user_id cid : string) : Prop :=
  if opt_truthy (conversation_id request)
  then conversation_id request = Some cid
  else create_conversation env user_id (llm_provider request) = Ok cid.

Definition create_calls (request : ChatRequest) (user_id : string)
    : list call :=
  if opt_truthy (conversation_id request) then []
  else [CreateConversation user_id (llm_provider request)].

(** The extracted preferences name a location: set, not empty, not the
    string ["none"]. *)
Definition names_location (p : UserPreferences) : bool :=
  match location p with
  | Some loc => str_truthy loc && negb (String.eqb loc "none")
  | None => false
  end.

(** What the extraction step leaves in [extracted]: the preferences the
    extraction service returned on an initial turn, nothing otherwise. *)
Definition extraction_outcome (env : collaborators) (request : ChatRequest)
    (extracted : option UserPreferences) : Prop :=
  if is_initial_response request
  then exists p, extracted = Some p
                 /\ extract_user_preferences env (message request) = Ok p
  else extracted = None.

Definition extraction_calls (request : ChatRequest) : list call :=
  if is_initial_response request
  then [ExtractUserPreferences (message request)] else [].

(** No location can be taken from the extracted preferences. *)
Definition no_extracted_location (extracted : option UserPreferences)
    : Prop :=
  match extracted with
  | Some p => names_location p = false
  | None => True
  end.

(** The text of the clarifying question for a list of supported cities. *)
Definition question_text (env : collaborators)
    (supported_cities : list string) : string :=
  "I'd be happy to help you find events! "
  +:+ "To give you the best recommendations, could you please tell me "
  +:+ "which city or area you're interested in? "
  +:+ "(e.g., "
  +:+ join ", " (map (fun c => str_title env (replace "_" " " c)) supported_cities)
  +:+ ", or a zipcode)".




(** A body with an empty message and nothing else. *)
Definition empty_message_body : request_body :=
  {| body_message := Given ""%string; body_conversation_history := Absent;
     body_llm_provider := Absent; body_user_preferences := Absent;
     body_is_initial_response := Absent; body_conversation_id := Absent |}.

(** The cities whose corpus a turn asked the cache for, in order. *)
Definition searched_cities (log : list call) : list string :=
  omap (fun c => match c with GetCachedEvents city => Some city | _ => None end)
       log.

(** The texts a turn handed to the heuristic extraction, in order. *)
Definition heuristic_queries (log : list call) : list string :=
  omap (fun c =>
          match c with ExtractLocationFromQuery text => Some text | _ => None end)
       log.

(** The corpus of [city], its age (given whenever there are events), the
    search over it and the storage all answer. *)
Definition search_answers (env : collaborators) (request : ChatRequest)
    (user_id cid : string) (extracted : option UserPreferences)
    (city : string) : Prop :=
  exists events age top,
    get_cached_events env city = Ok events
    /\ get_cache_age env city = Ok age
    /\ (events <> [] -> age <> None)
    /\ intelligent_event_search env (message request) events extracted = Ok top
    /\ (forall m, save_message env user_id cid m = Ok tt)
    /\ (forall stamp, update_metadata env user_id cid stamp = Ok tt).

(** A turn that searches for [city]: the cache is asked for the corpus of
    [city] and of no other city; a response, when one is returned, carries
    the text of step 8 for [city]; and one is returned when the
    collaborators of the search answer. *)
Definition searches_for (env : collaborators) (request : ChatRequest)
    (user_id cid : string) (extracted : option UserPreferences)
    (city : string) (location_provided : bool)
    (turn : list call * result ChatResponse) : Prop :=
  searched_cities (fst turn) = [city]
  /\ (forall r, snd turn = Ok r ->
        exists top,
          resp_message r = response_text env city location_provided top)
  /\ (search_answers env request user_id cid extracted city ->
      exists r, snd turn = Ok r).

(** *** Sample collaborators, used to run the handler on concrete turns *)

Definition no_preferences : UserPreferences :=
  {| location := Some "none"%string; date := Some "none"%string;
     time := Some "none"%string; event_type := Some "none"%string |}.

(** Collaborators that always answer: the stored conversation, the trial
    verdict, the extraction results, the corpus and its age are given;
    the search returns the corpus unchanged.  The case mappings are the
    ASCII ones: the sample turns carry ASCII text. *)
Definition sample_env (stored : result (option dict)) (exceeded : bool)
    (prefs : UserPreferences) (heuristic : option string)
    (events : list dict) (age : option Q) : collaborators :=
  {| get_conversation := fun _ _ => stored;
     check_trial_limit := fun _ => Ok exceeded;
     trial_limit := 5;
     get_usage := fun _ => Ok {[ "count"%string := PyInt 5 ]};
     increment_usage := fun _ => Ok {[ "count"%string := PyInt 1 ]};
     create_conversation := fun _ _ => Ok "conv-1"%string;
     save_message := fun _ _ _ => Ok tt;
     update_metadata := fun _ _ _ => Ok tt;
     extract_user_preferences := fun _ => Ok prefs;
     extract_location_from_query := fun _ => Ok heuristic;
     get_supported_cities := Ok ["new_york"; "los_angeles"]%string;
     get_cached_events := fun _ => Ok events;
     get_cache_age := fun _ => Ok age;
     intelligent_event_search := fun _ evs _ => Ok evs;
     datetime_now_isoformat := fun _ => "2025-01-01T00:00:00"%string;
     py_str := fun _ => "?"%string;
     str_lower := lower;
     str_title := title |}.

Definition sample_info : RateLimiter.rate_limit_info :=
  {| RateLimiter.limit := 10; RateLimiter.remaining := 9;
     RateLimiter.reset := 1700000060 |}.

(** A turn that continues the conversation ["c1"]. *)
Definition follow_up_request (text : string) : ChatRequest :=
  {| message := text; conversation_history := [];
     llm_provider := "openai"; user_preferences := None;
     is_initial_response := false; conversation_id := Some "c1"%string |}.

(** A first turn, with no conversation yet. *)
Definition initial_request (text : string) : ChatRequest :=
  {| message := text; conversation_history := [];
     llm_provider := "openai"; user_preferences := None;
     is_initial_response := true; conversation_id := None |}.

Definition sample_event : dict :=
  {[ "title"%string := PyStr "Jazz Night" ]}.

Definition paris_preferences : UserPreferences :=
  {| location := Some "Paris"%string; date := Some "none"%string;
     time := Some "none"%string; event_type := Some "music"%string |}.

(** A stored conversation owned by ["alice"]. *)
Definition alice_conversation : dict :=
  {[ "user_id"%string := PyStr "alice" ]}.


(** *** What a turn may do *)

(** Running [m] only adds calls that satisfy [P] to the log. *)
Definition extends {A : Type} (P : call -> Prop) (m : M A) : Prop :=
  forall log, exists extra, fst (m log) = log ++ extra /\ Forall P extra.

(** [cid] can be the conversation of the turn: it is the reference of the
    request when there is one. *)
Definition of_request (request : ChatRequest) (cid : string) : Prop :=
  opt_truthy (conversation_id request) = true ->
  conversation_id request = Some cid.

(** The calls a turn of [user_id] with [request] can make: every call to
    the storage and to the usage tracker carries the caller's identity;
    the lookup and the writes go to the conversation the request refers to
    when it refers to one; the usage tracker is only consulted for an
    anonymous identity; a conversation is only created when the request
    refers to none; the extraction and the search are given the message of
    the request. *)
Definition turn_call (request : ChatRequest) (user_id : string) (c : call)
    : Prop :=
  match c with
  | SetHeader _ _ => True
  | GetConversation u cid => u = user_id /\ refers_to request cid
  | CheckTrialLimit u | GetUsage u | IncrementUsage u =>
      u = user_id /\ is_anonymous user_id = true
  | CreateConversation u provider =>
      u = user_id /\ opt_truthy (conversation_id request) = false
      /\ provider = llm_provider request
  | SaveMessage u cid m =>
      u = user_id /\ of_request request cid
      /\ ((role m = "user"%string /\ content m = message request)
          \/ role m = "assistant"%string)
  | UpdateMetadata u cid _ => u = user_id /\ of_request request cid
  | ExtractUserPreferences text =>
      text = message request /\ is_initial_response request = true
  | ExtractLocationFromQuery text => text = message request
  | GetSupportedCities => is_initial_response request = true
  | GetCachedEvents _ | GetCacheAge _ => True
  | IntelligentEventSearch query _ _ => query = message request
  end.

(** A call that saves a message. *)
Definition is_save (c : call) : bool :=
  match c with
  | SaveMessage _ _ _ => true
  | _ => false
  end.

(** A call a turn may make that saves no message. *)
Definition quiet_call (request : ChatRequest) (user_id : string) (c : call)
    : Prop :=
  turn_call request user_id c /\ is_save c = false.





(** The response is the answer of a search: its recommendations are the
    events the search returned, formatted one by one in that order, and
    its message is the text of step 8 for them. *)
Definition answered (env : collaborators) (request : ChatRequest)
    (r : ChatResponse) : Prop :=
  exists city provided events top,
    intelligent_event_search env (message request) events
      (extracted_preferences r) = Ok top
    /\ recommendations r
       = map (format_recommendation env city (cache_used r)) top
    /\ resp_message r = response_text env city provided top.

(** The clarifying question as a response. *)
Definition question_response (env : collaborators) (request : ChatRequest)
    (extracted : option UserPreferences) (cid : string)
    (cities : list string) : ChatResponse :=
  {| resp_message := question_text env cities;
     recommendations := [];
     llm_provider_used := llm_provider request;
     cache_used := false;
     cache_age_hours := None;
     extracted_preferences := extracted;
     extraction_summary := None;
     usage_stats := None;
     trial_exceeded := false;
     resp_conversation_id := cid |}.

(** What the charge leaves as usage statistics of the turn. *)
Definition charged (env : collaborators) (user_id : string)
    (usage : option dict) : Prop :=
  if is_anonymous user_id
  then exists u, usage = Some u /\ increment_usage env user_id = Ok u
  else usage = None.

(** The three kinds of response a turn can return. *)
Definition response_kind (env : collaborators) (request : ChatRequest)
    (user_id : string) (r : ChatResponse) : Prop :=
  (is_anonymous user_id = true
   /\ exists usage, get_usage env user_id = Ok usage
                    /\ r = trial_exceeded_response env request usage)
  \/ (exists usage cid,
        charged env user_id usage
        /\ materialised env request user_id cid
        /\ ((is_initial_response request = true
             /\ exists p cities,
                  extract_user_preferences env (message request) = Ok p
                  /\ get_supported_cities env = Ok cities
                  /\ r = question_response env request (Some p) cid cities)
            \/ (answered env request r
                /\ (cache_used r = true <->
                    exists age, cache_age_hours r = Some age /\ (0 < age)%Q)
                /\ usage_stats r = usage
                /\ resp_conversation_id r = cid
                /\ llm_provider_used r = llm_provider request
                /\ trial_exceeded r = false
                /\ extraction_summary r
                   = make_extraction_summary (extracted_preferences r)
                /\ (is_initial_response request = false ->
                    extracted_preferences r = None)))).

(** The provenance tag of a response. *)
Definition source_tag (r : ChatResponse) : pyval :=
  PyStr (if cache_used r then "cached" else "realtime").

(** A call to the usage tracker. *)
Definition is_usage_call (c : call) : bool :=
  match c with
  | CheckTrialLimit _ | GetUsage _ | IncrementUsage _ => true
  | _ => false
  end.

(** Collaborators for a turn that is answered from a cache 2.5 hours old. *)
Definition answering_env : collaborators :=
  sample_env (Ok (Some alice_conversation)) false no_preferences
    (Some "Boston"%string) [sample_event] (Some (5 # 2)).

End Router.

(* ===================================================================== *)
(** ** dependencies.py *)
(* ===================================================================== *)

Module Dependencies.
Import Py.

(** An [HTTPException] with the headers it carries. *)
Record http_error := HttpError {
  status_code : Z;
  detail : string;
  headers : list (string * string);
}.

(** The white space of a header value: the ASCII separators and, in two
    bytes each, U+0085 and U+00A0.  Header values are Latin-1 text, so no
    other white space occurs in them. *)
Definition is_space (c : ascii) : bool :=
  ((9 <=? nat_of_ascii c)%nat && (nat_of_ascii c <=? 13)%nat)
  || ((28 <=? nat_of_ascii c)%nat && (nat_of_ascii c <=? 32)%nat).

Definition is_space_tail (c d : ascii) : bool :=
  (nat_of_ascii c =? 194)%nat
  && ((nat_of_ascii d =? 133)%nat || (nat_of_ascii d =? 160)%nat).

(** The word collected so far, closed. *)
Definition flush (word : string) : list string :=
  match word with
  | EmptyString => []
  | _ => [word]
  end.

(** [s.split()]: the maximal runs of characters that are not white space. *)
Fixpoint split_words (word : string) (s : string) : list string :=
  match s with
  | EmptyString => flush word
  | String c s' =>
      if is_space c then flush word ++ split_words EmptyString s'
      else
        match s' with
        | String d s'' =>
            if is_space_tail c d
            then flush word ++ split_words EmptyString s''
            else split_words (word +:+ String c EmptyString) s'
        | EmptyString => split_words (word +:+ String c EmptyString) s'
        end
  end.

Definition split (s : string) : list string := split_words EmptyString s.

(** What [user_manager.authenticate_with_token] does with a token: it
    returns the user data, raises [ValueError], or raises something else. *)
Inductive auth_outcome :=
| UserData (user_data : dict)
| RaisesValueError (text : string)
| RaisesOther (text : string).

(** [verify_firebase_token]: the tokens handed to the user manager, and
    the identity returned or the HTTP error raised.  Inside the [try], the
    401 for a missing user id is an [Exception] like any other and is
    caught by the last handler. *)
Definition verify_firebase_token (authenticate_with_token : string -> auth_outcome)
    (authorization : option string) : list string * (http_error + pyval) :=
  if negb (opt_truthy authorization) then
    ([], inl (HttpError 401 "Authorization header required" []))
  else
    let parts := split (default EmptyString authorization) in
    match parts with
    | [scheme; token] =>
        if negb (String.eqb (lower scheme) "bearer") then
          ([], inl (HttpError 401
                      "Invalid authorization header format. Expected: Bearer <token>"
                      []))
        else
          ([token],
           match authenticate_with_token token with
           | UserData user_data =>
               let user_id := dict_get user_data "user_id" in
               if negb (truthy user_id)
               then inl (HttpError 500
                           "Internal server error during authentication" [])
               else inr user_id
           | RaisesValueError text =>
               inl (HttpError 401
                      ("Invalid authentication token: " +:+ text) [])
           | RaisesOther _ =>
               inl (HttpError 500
                      "Internal server error during authentication" [])
           end)
    | _ =>
        ([], inl (HttpError 401
                    "Invalid authorization header format. Expected: Bearer <token>"
                    []))
    end.

(** The three rate-limit headers for an info dict. *)
Definition rate_limit_headers (info : RateLimiter.rate_limit_info)
    : list (string * string) :=
  [("X-RateLimit-Limit"%string, pretty (RateLimiter.limit info));
   ("X-RateLimit-Remaining"%string, pretty (RateLimiter.remaining info));
   ("X-RateLimit-Reset"%string, pretty (RateLimiter.reset info))].

(** [rate_limit]: the limiter is consulted; a refusal becomes a 429 that
    carries the three headers. *)
Definition rate_limit (cfg : RateLimiter.config) (st : RateLimiter.store)
    (user_id : string) (current_time : Q)
    : RateLimiter.store
      * (http_error + (string * RateLimiter.rate_limit_info)) :=
  let '(st', (is_allowed, rate_limit_info)) :=
    RateLimiter.check_rate_limit cfg st user_id current_time in
  if negb is_allowed then
    (st',
     inl (HttpError 429
            ("Rate limit exceeded. Maximum "
             +:+ pretty (RateLimiter.limit rate_limit_info)
             +:+ " requests per "
             +:+ pretty (RateLimiter.window_seconds cfg)
             +:+ " seconds. Try again after "
             +:+ pretty (RateLimiter.reset rate_limit_info) +:+ ".")
            (rate_limit_headers rate_limit_info)))
  else (st', inr (user_id, rate_limit_info)).

(** A header made of plain bytes: ASCII, not white space. *)
Definition plain (c : ascii) : bool :=
  (nat_of_ascii c <? 128)%nat && negb (is_space c).

Fixpoint all_plain (s : string) : bool :=
  match s with
  | EmptyString => true
  | String c s' => plain c && all_plain s'
  end.

(** The header write of the handler for a name and a value. *)
Definition header_of_call (c : Router.call) : option (string * string) :=
  match c with
  | Router.SetHeader name value => Some (name, value)
  | _ => None
  end.

(** A user manager that knows one token. *)
Definition sample_user_manager (token : string) : auth_outcome :=
  if String.eqb token "abc.def"
  then UserData {[ "user_id"%string := PyStr "alice" ]}
  else RaisesValueError "Invalid token".

End Dependencies.

(* ===================================================================== *)
(** ** examples/python_example.py *)
(* ===================================================================== *)

Module Example.
Import Py.

(** [s.rstrip('/')], on the characters of [s] in reverse. *)
Fixpoint drop_slashes (rev_s : list ascii) : list ascii :=
  match rev_s with
  | c :: rest => if Ascii.eqb c "/" then drop_slashes rest else rev_s
  | [] => []
  end.

Definition rstrip_slash (s : string) : string :=
  string_of_list_ascii
    (List.rev (drop_slashes (List.rev (list_ascii_of_string s)))).

(** [PublicChatAPIClient.__init__]: the endpoint of a base URL. *)
Definition api_endpoint (base_url : string) : string :=
  rstrip_slash base_url +:+ "/api/public/chat".

(** The [Authorization] header the client sends. *)
Definition authorization_header (firebase_token : string) : string :=
  "Bearer " +:+ firebase_token.

End Example.

(* ===================================================================== *)
(** ** The route [POST /api/public/chat] *)
(* ===================================================================== *)

Module Endpoint.
Import Py Router.

(** The operation as the caller of an identity reaches it.  The route
    declares [rate_limit] as a dependency ([Depends(rate_limit)], line 63
    of router.py) and [ChatRequest] as its body.  FastAPI solves the
    dependencies of a route before it validates the body: the limiter has
    run, and a refusal has been raised, by the time a body that does not
    fit is answered with 422.  Only then is the handler called, on an empty
    log.  The result is the store of the limiter, the calls of the
    handler, and the response or the error. *)
Definition submit_chat_turn (cfg : RateLimiter.config) (env : collaborators)
    (st : RateLimiter.store) (user_id : string) (current_time : Q)
    (body : request_body)
    : RateLimiter.store * (list call * result ChatResponse) :=
  let '(st', admitted) :=
    Dependencies.rate_limit cfg st user_id current_time in
  match admitted with
  | inl e =>
      (st', ([], Raise (HTTPException (Dependencies.status_code e)
                          (Dependencies.detail e))))
  | inr rate_limit_result =>
      match validate body with
      | None => (st', ([], Raise (HTTPException 422 "Unprocessable Entity")))
      | Some request => (st', public_chat env request rate_limit_result [])
      end
  end.


(** The default limiter: ten requests per minute. *)
Definition default_config : RateLimiter.config := RateLimiter.mkConfig 10 60.

End Endpoint.

(** Bring a log to the form [l ++ [c1; ...; cn]]. *)
Ltac norm_log :=
  repeat first [rewrite app_nil_r | rewrite <- app_assoc]; cbn [app];
  repeat rewrite app_nil_r.

(* ===================================================================== *)
(** ** Facts about the numerics *)
(* ===================================================================== *)

Lemma Qgtb_true (a b : Q) : Qgtb a b = true <-> (b < a)%Q.
Proof.
  unfold Qgtb. rewrite negb_true_iff. split.
  - intros H. apply Qnot_le_lt. intros Hle.
    apply Qle_bool_iff in Hle. congruence.
  - intros H. destruct (Qle_bool a b) eqn:E; [|reflexivity].
    apply Qle_bool_iff in E. exfalso. exact (Qlt_not_le _ _ H E).
Qed.

Lemma Qgtb_false (a b : Q) : Qgtb a b = false <-> (a <= b)%Q.
Proof.
  unfold Qgtb. rewrite negb_false_iff. apply Qle_bool_iff.
Qed.

Lemma py_int_inject_Z (z : Z) : py_int (inject_Z z) = z.
Proof. unfold py_int; simpl. apply Z.quot_1_r. Qed.

Lemma py_int_of_Z (x : Q) (n : Z) : (x == inject_Z n)%Q -> py_int x = n.
Proof.
  destruct x as [a d]. unfold py_int, Qeq, inject_Z. cbn [Qnum Qden].
  intros H. rewrite Z.mul_1_r in H. rewrite H. apply Z.quot_mul. lia.
Qed.

(** *** binary64 rounding *)

Lemma round_half_even_floor (x : Q) : Qfloor x <= round_half_even x.
Proof.
  unfold round_half_even.
  destruct (_ ?= _)%Q; [destruct (Z.even _)|..]; lia.
Qed.

Lemma round_half_even_Z (n : Z) : round_half_even (inject_Z n) = n.
Proof.
  unfold round_half_even. rewrite Qfloor_Z.
  assert (H : (inject_Z n - inject_Z n ?= 1 # 2)%Q = Lt).
  { apply (proj1 (Qlt_alt _ _)).
    unfold Qlt. cbn. lia. }
  now rewrite H.
Qed.

Lemma round_half_even_comp (x y : Q) :
  (x == y)%Q -> round_half_even x = round_half_even y.
Proof.
  intros H. unfold round_half_even.
  rewrite (Qfloor_comp _ _ H).
  assert (Hc : (x - inject_Z (Qfloor y) ?= 1 # 2)%Q
               = (y - inject_Z (Qfloor y) ?= 1 # 2)%Q).
  { apply Qcompare_comp; [|reflexivity]. rewrite H. reflexivity. }
  now rewrite Hc.
Qed.

Lemma pow2_pos (k : Z) : (0 < 2 ^ k)%Q.
Proof. apply Qpower_0_lt. reflexivity. Qed.

Lemma pow2_Z (k : Z) : 0 <= k -> (2 ^ k == inject_Z (2 ^ k))%Q.
Proof.
  intros Hk. change 2%Q with (inject_Z 2).
  symmetry. apply Zpower_Qpower. exact Hk.
Qed.

(** [2 ^ ilog2 x <= |x|]. *)
Lemma ilog2_le (x : Q) : ~ (x == 0)%Q -> (2 ^ ilog2 x <= Qabs x)%Q.
Proof.
  intros Hx. unfold ilog2.
  set (k := Z.log2 (Z.abs (Qnum x)) - Z.log2 (Z.pos (Qden x))).
  destruct (Qle_bool (2 ^ k) (Qabs x)) eqn:E.
  - now apply Qle_bool_iff.
  - destruct x as [n d]. unfold Qeq in Hx. cbn in Hx.
    assert (Hn : 0 < Z.abs n) by lia.
    cbn [Qnum Qden] in k.
    pose proof (Z.log2_spec (Z.abs n) Hn) as [Hn1 _].
    pose proof (Z.log2_spec (Z.pos d) ltac:(lia)) as [_ Hd2].
    pose proof (Z.log2_nonneg (Z.abs n)) as Ha.
    pose proof (Z.log2_nonneg (Z.pos d)) as Hb.
    (* 2^(k-1) = 2^a / 2^(b+1) <= |n| / d *)
    assert (Heq : (2 ^ (k - 1) == inject_Z (2 ^ Z.log2 (Z.abs n))
                                 / inject_Z (2 ^ (Z.log2 (Z.pos d) + 1)))%Q).
    { replace (k - 1) with (Z.log2 (Z.abs n) + - (Z.log2 (Z.pos d) + 1))
        by (unfold k; lia).
      rewrite Qpower_plus by discriminate.
      rewrite Qpower_opp, !pow2_Z by lia. reflexivity. }
    rewrite Heq.
    assert (Hpos : (0 < inject_Z (2 ^ (Z.log2 (Z.pos d) + 1)))%Q).
    { rewrite <- pow2_Z by lia. apply pow2_pos. }
    apply Qle_shift_div_r; [exact Hpos|].
    unfold Qabs, Qle, Qmult, inject_Z. cbn [Qnum Qden].
    rewrite !Z.mul_1_r.
    set (A := 2 ^ Z.log2 (Z.abs n)) in *.
    set (B := 2 ^ (Z.log2 (Z.pos d) + 1)) in *.
    assert (0 < A) by (unfold A; apply Z.pow_pos_nonneg; lia).
    nia.
Qed.

Lemma ilog2_small (x : Q) :
  ~ (x == 0)%Q -> (Qabs x < inject_Z (2 ^ 53))%Q -> ilog2 x <= 52.
Proof.
  intros Hx Hlt.
  assert (H : (2 ^ ilog2 x < 2 ^ 53)%Q).
  { eapply Qle_lt_trans; [apply ilog2_le, Hx|].
    rewrite (pow2_Z 53) by lia. exact Hlt. }
  apply Qpower_lt_compat_l_inv in H; [lia | reflexivity].
Qed.

(** An integer below a float-sized [x] stays below its rounding. *)
Lemma round64_above_int (x : Q) (n : Z) :
  (Qabs x < inject_Z (2 ^ 53))%Q -> (inject_Z n <= x)%Q ->
  (inject_Z n <= round64 x)%Q.
Proof.
  intros Hx Hn. unfold round64.
  destruct (Qeq_bool x 0) eqn:E.
  - apply Qeq_bool_iff in E. now rewrite <- E.
  - assert (Hx0 : ~ (x == 0)%Q).
    { intros H. apply Qeq_bool_iff in H. congruence. }
    pose proof (ilog2_small x Hx0 Hx) as Hs.
    set (e := Z.max (ilog2 x - 52) (-1074)).
    assert (He : e <= 0) by lia.
    cbv zeta.
    assert (Hp : (2 ^ e == / inject_Z (2 ^ (- e)))%Q).
    { replace e with (- - e) at 1 by lia.
      rewrite Qpower_opp, pow2_Z by lia. reflexivity. }
    assert (Hpp : (0 < inject_Z (2 ^ (- e)))%Q).
    { rewrite <- pow2_Z by lia. apply pow2_pos. }
    assert (Hy : (inject_Z (n * 2 ^ (- e)) <= x / 2 ^ e)%Q).
    { rewrite Hp. unfold Qdiv. rewrite Qinv_involutive, inject_Z_mult.
      apply Qmult_le_compat_r; [exact Hn | apply Qlt_le_weak, Hpp]. }
    apply Qfloor_resp_le in Hy. rewrite Qfloor_Z in Hy.
    pose proof (round_half_even_floor (x / 2 ^ e)) as Hr.
    rewrite Hp at 2.
    apply Qle_shift_div_l; [exact Hpp|].
    rewrite <- inject_Z_mult. rewrite <- Zle_Qle. lia.
Qed.

(** Integers of at most 53 bits are floats. *)
Lemma round64_int (n : Z) :
  Z.abs n < 2 ^ 53 -> (round64 (inject_Z n) == inject_Z n)%Q.
Proof.
  intros Hn. unfold round64.
  destruct (Qeq_bool (inject_Z n) 0) eqn:E.
  - apply Qeq_bool_iff in E. now rewrite E.
  - assert (Hx0 : ~ (inject_Z n == 0)%Q).
    { intros H. apply Qeq_bool_iff in H. congruence. }
    assert (Hx : (Qabs (inject_Z n) < inject_Z (2 ^ 53))%Q).
    { unfold Qabs, inject_Z, Qlt. cbn [Qnum Qden]. lia. }
    pose proof (ilog2_small _ Hx0 Hx) as Hs.
    set (e := Z.max (ilog2 (inject_Z n) - 52) (-1074)).
    assert (He : e <= 0) by lia.
    cbv zeta.
    assert (Hp : (2 ^ e == / inject_Z (2 ^ (- e)))%Q).
    { replace e with (- - e) at 1 by lia.
      rewrite Qpower_opp, pow2_Z by lia. reflexivity. }
    assert (Hpp : (0 < inject_Z (2 ^ (- e)))%Q).
    { rewrite <- pow2_Z by lia. apply pow2_pos. }
    assert (Hy : (inject_Z n / 2 ^ e == inject_Z (n * 2 ^ (- e)))%Q).
    { rewrite Hp. unfold Qdiv. rewrite Qinv_involutive, inject_Z_mult.
      reflexivity. }
    assert (Hr : round_half_even (inject_Z n / 2 ^ e) = n * 2 ^ (- e)).
    { rewrite (round_half_even_comp _ _ Hy). apply round_half_even_Z. }
    rewrite Hr, Hp, inject_Z_mult. field.
    intros H. rewrite H in Hpp. discriminate.
Qed.

Lemma py_int_ge (x : Q) (n : Z) :
  0 <= n -> (inject_Z n <= x)%Q -> n <= py_int x.
Proof.
  destruct x as [a d]. unfold py_int, Qle, inject_Z. cbn [Qnum Qden].
  intros Hn H. rewrite Z.mul_1_r in H.
  rewrite Z.quot_div_nonneg by nia.
  apply Z.div_le_lower_bound; lia.
Qed.

(** Below [2 ^ 53], truncating the float nearest to [x] loses less than
    one. *)
Lemma lt_succ_int_round64 (x : Q) :
  (0 <= x)%Q -> (x < inject_Z (2 ^ 53))%Q ->
  (x < inject_Z (py_int (round64 x) + 1))%Q.
Proof.
  intros H0 Hx.
  assert (Hf : 0 <= Qfloor x).
  { change 0 with (Qfloor 0). now apply Qfloor_resp_le. }
  assert (Hr : (inject_Z (Qfloor x) <= round64 x)%Q).
  { apply round64_above_int; [|apply Qfloor_le].
    rewrite Qabs_pos; assumption. }
  apply (py_int_ge _ _ Hf) in Hr.
  eapply Qlt_le_trans; [apply Qlt_floor|].
  rewrite <- Zle_Qle. lia.
Qed.

Lemma Qabs_num (n : Z) (d : positive) : Qabs (n # d) = (Z.abs n # d).
Proof. reflexivity. Qed.

(** [|x| < 2 ^ (ilog2 x + 1)]. *)
Lemma ilog2_lt (x : Q) : ~ (x == 0)%Q -> (Qabs x < 2 ^ (ilog2 x + 1))%Q.
Proof.
  intros Hx. unfold ilog2.
  set (k := Z.log2 (Z.abs (Qnum x)) - Z.log2 (Z.pos (Qden x))).
  destruct (Qle_bool (2 ^ k) (Qabs x)) eqn:E.
  - destruct x as [n d]. unfold Qeq in Hx. cbn in Hx.
    assert (Hn : 0 < Z.abs n) by lia.
    cbn [Qnum Qden] in k.
    pose proof (Z.log2_spec (Z.abs n) Hn) as [_ Hn2].
    pose proof (Z.log2_spec (Z.pos d) ltac:(lia)) as [Hd1 _].
    pose proof (Z.log2_nonneg (Z.abs n)) as Ha.
    pose proof (Z.log2_nonneg (Z.pos d)) as Hb.
    assert (Heq : (2 ^ (k + 1) == inject_Z (2 ^ (Z.log2 (Z.abs n) + 1))
                                 / inject_Z (2 ^ Z.log2 (Z.pos d)))%Q).
    { replace (k + 1) with (Z.log2 (Z.abs n) + 1 + - Z.log2 (Z.pos d))
        by (unfold k; lia).
      rewrite Qpower_plus by discriminate.
      rewrite Qpower_opp, !pow2_Z by lia. reflexivity. }
    rewrite Heq.
    assert (Hpos : (0 < inject_Z (2 ^ Z.log2 (Z.pos d)))%Q).
    { rewrite <- pow2_Z by lia. apply pow2_pos. }
    apply Qlt_shift_div_l; [exact Hpos|].
    rewrite Qabs_num. unfold Qlt, Qmult, inject_Z. cbn [Qnum Qden].
    rewrite !Z.mul_1_r.
    set (A := 2 ^ (Z.log2 (Z.abs n) + 1)) in *.
    set (B := 2 ^ Z.log2 (Z.pos d)) in *.
    assert (0 < B) by (unfold B; apply Z.pow_pos_nonneg; lia).
    nia.
  - replace (k - 1 + 1) with k by lia.
    apply Qnot_le_lt. intros H. apply Qle_bool_iff in H. congruence.
Qed.

Lemma ilog2_unique (x : Q) (k : Z) :
  (2 ^ k <= Qabs x)%Q -> (Qabs x < 2 ^ (k + 1))%Q -> ilog2 x = k.
Proof.
  intros Hl Hu.
  assert (Hx : ~ (x == 0)%Q).
  { intros H. rewrite H in Hl. apply (Qlt_not_le _ _ (pow2_pos k)). exact Hl. }
  pose proof (ilog2_le x Hx) as Hl'. pose proof (ilog2_lt x Hx) as Hu'.
  assert (H1 : (2 ^ k < 2 ^ (ilog2 x + 1))%Q) by (eapply Qle_lt_trans; eassumption).
  assert (H2 : (2 ^ ilog2 x < 2 ^ (k + 1))%Q) by (eapply Qle_lt_trans; eassumption).
  apply Qpower_lt_compat_l_inv in H1; [|reflexivity].
  apply Qpower_lt_compat_l_inv in H2; [|reflexivity]. lia.
Qed.

Lemma ilog2_comp (x y : Q) : ~ (x == 0)%Q -> (x == y)%Q -> ilog2 x = ilog2 y.
Proof.
  intros Hx H. symmetry. apply ilog2_unique.
  - rewrite <- H. apply ilog2_le, Hx.
  - rewrite <- H. apply ilog2_lt, Hx.
Qed.

Lemma round64_comp (x y : Q) : (x == y)%Q -> (round64 x == round64 y)%Q.
Proof.
  intros H. unfold round64.
  destruct (Qeq_bool x 0) eqn:Ex.
  - apply Qeq_bool_iff in Ex.
    assert (Ey : Qeq_bool y 0 = true) by (apply Qeq_bool_iff; now rewrite <- H).
    now rewrite Ey.
  - assert (Hx : ~ (x == 0)%Q).
    { intros Hx. apply Qeq_bool_iff in Hx. congruence. }
    assert (Ey : Qeq_bool y 0 = false).
    { destruct (Qeq_bool y 0) eqn:E; [|reflexivity].
      apply Qeq_bool_iff in E. rewrite <- H in E. contradiction. }
    rewrite Ey. cbv zeta. rewrite <- (ilog2_comp x y Hx H).
    set (e := Z.max (ilog2 x - 52) (-1074)).
    rewrite (round_half_even_comp (x / 2 ^ e) (y / 2 ^ e)); [reflexivity|].
    now rewrite H.
Qed.

Lemma ilog2_mono (x y : Q) :
  (0 < x)%Q -> (x <= y)%Q -> ilog2 x <= ilog2 y.
Proof.
  intros Hx Hxy.
  assert (Hx0 : ~ (x == 0)%Q).
  { intros H. rewrite H in Hx. discriminate. }
  assert (Hy : (0 < y)%Q) by (eapply Qlt_le_trans; eassumption).
  assert (Hy0 : ~ (y == 0)%Q).
  { intros H. rewrite H in Hy. discriminate. }
  pose proof (ilog2_le x Hx0) as Hl. pose proof (ilog2_lt y Hy0) as Hu.
  rewrite Qabs_pos in Hl by now apply Qlt_le_weak.
  rewrite Qabs_pos in Hu by now apply Qlt_le_weak.
  assert (H : (2 ^ ilog2 x < 2 ^ (ilog2 y + 1))%Q).
  { eapply Qle_lt_trans; [exact Hl|]. eapply Qle_lt_trans; eassumption. }
  apply Qpower_lt_compat_l_inv in H; [lia | reflexivity].
Qed.

Lemma pow2_split (a b : Z) : (2 ^ (a + b) == 2 ^ a * 2 ^ b)%Q.
Proof. apply Qpower_plus. discriminate. Qed.

(** A multiple of [2 ^ e], for [e] at least the exponent of the last place
    of [x], is a float. *)
Lemma round64_multiple (x : Q) (N : Z) (e : Z) :
  ~ (x == 0)%Q ->
  Z.max (ilog2 x - 52) (-1074) <= e ->
  (x == inject_Z N * 2 ^ e)%Q ->
  (round64 x == x)%Q.
Proof.
  intros Hx He HN. unfold round64.
  assert (Ex : Qeq_bool x 0 = false).
  { destruct (Qeq_bool x 0) eqn:E; [|reflexivity].
    apply Qeq_bool_iff in E. contradiction. }
  rewrite Ex. cbv zeta.
  set (ex := Z.max (ilog2 x - 52) (-1074)) in *.
  assert (Hsplit : (2 ^ e == 2 ^ (e - ex) * 2 ^ ex)%Q).
  { rewrite <- pow2_split. now replace (e - ex + ex) with e by lia. }
  assert (Hy : (x / 2 ^ ex == inject_Z (N * 2 ^ (e - ex)))%Q).
  { rewrite HN at 1. rewrite inject_Z_mult, <- pow2_Z by lia.
    rewrite Hsplit.
    generalize (pow2_pos ex). generalize (2 ^ ex)%Q (2 ^ (e - ex))%Q.
    intros a b Ha. field. intros H. rewrite H in Ha. discriminate. }
  rewrite (round_half_even_comp _ _ Hy), round_half_even_Z.
  rewrite HN. rewrite inject_Z_mult, <- pow2_Z by lia.
  rewrite Hsplit. ring.
Qed.

(** The cutoff of the purge: for a float clock reading in
    [[window, 2 ^ 53)] the float subtraction is exact. *)
Lemma cutoff_exact (now : Q) (w : Z) :
  is_float now -> 0 <= w ->
  (inject_Z w <= now)%Q -> (now < inject_Z (2 ^ 53))%Q ->
  (float_sub now (float_of_int w) == now - inject_Z w)%Q.
Proof.
  intros Hf Hw Hle Hlt. unfold float_sub, float_of_int.
  assert (Hw53 : Z.abs w < 2 ^ 53).
  { rewrite Z.abs_eq by exact Hw. rewrite Zlt_Qlt.
    eapply Qle_lt_trans; eassumption. }
  rewrite (round64_comp (now - round64 (inject_Z w)) (now - inject_Z w))
    by (now rewrite (round64_int w Hw53)).
  set (x := (now - inject_Z w)%Q).
  assert (Hx0 : (0 <= x)%Q).
  { unfold x. lra. }
  destruct (Qeq_bool x 0) eqn:Ex.
  - unfold round64. rewrite Ex. apply Qeq_bool_iff in Ex. now rewrite Ex.
  - assert (Hxn : ~ (x == 0)%Q).
    { intros H. apply Qeq_bool_iff in H. congruence. }
    assert (Hxp : (0 < x)%Q).
    { apply Qle_lteq in Hx0 as [H | H]; [exact H|].
      symmetry in H. contradiction. }
    assert (Hxnow : (x <= now)%Q).
    { assert (H0 : (0 <= inject_Z w)%Q) by (now rewrite <- (Zle_Qle 0)).
      unfold x. lra. }
    assert (Hnp : (0 < now)%Q) by (eapply Qlt_le_trans; eassumption).
    assert (Hnn : ~ (now == 0)%Q).
    { intros H. rewrite H in Hnp. discriminate. }
    pose proof (ilog2_mono x now Hxp Hxnow) as Hmono.
    assert (Hsmall : ilog2 now <= 52).
    { apply ilog2_small; [exact Hnn|].
      rewrite Qabs_pos by now apply Qlt_le_weak. exact Hlt. }
    set (en := Z.max (ilog2 now - 52) (-1074)).
    assert (Hen : en <= 0) by (unfold en; lia).
    unfold is_float, round64 in Hf.
    assert (En : Qeq_bool now 0 = false).
    { destruct (Qeq_bool now 0) eqn:E; [|reflexivity].
      apply Qeq_bool_iff in E. contradiction. }
    rewrite En in Hf. cbv zeta in Hf. fold en in Hf.
    set (m := round_half_even (now / 2 ^ en)) in Hf.
    apply (round64_multiple x (m - w * 2 ^ (- en)) en Hxn);
      [unfold en; lia|].
    unfold x. rewrite <- Hf at 1.
    unfold Z.sub. rewrite inject_Z_plus, inject_Z_opp, !inject_Z_mult.
    rewrite <- !pow2_Z by lia. rewrite Qpower_opp.
    generalize (pow2_pos en). generalize (2 ^ en)%Q.
    intros a Ha. field. intros H. rewrite H in Ha. discriminate.
Qed.

(** On the sample operands [float_add] is the binary64 addition of the
    Standard Library's IEEE 754 model. *)
Lemma float_add_sample_floats :
  Forall (fun ab : spec_float * spec_float =>
            (SF2Q (SFadd 53 1024 (fst ab) (snd ab))
             == float_add (SF2Q (fst ab)) (SF2Q (snd ab)))%Q)
    sample_floats.
Proof. repeat constructor. Qed.

(* ===================================================================== *)
(** ** The rate limiter: what one call does *)
(* ===================================================================== *)

Module RateLimiterSpec.
Import RateLimiter.

Lemma filter_survivors (cfg : config) (now : Q) (l : list entry) :
  List.filter
    (fun e : entry => Qgtb (fst e) (now - inject_Z (window_seconds cfg))) l
  = survivors cfg now l.
Proof.
  unfold survivors. induction l as [|e l IH]; [reflexivity|].
  rewrite filter_cons. simpl. rewrite IH.
  destruct (Qgtb (fst e) _) eqn:E.
  - apply Qgtb_true in E. rewrite decide_True by exact E. reflexivity.
  - apply Qgtb_false in E. rewrite decide_False; [reflexivity|].
    intros Hlt. exact (Qlt_not_le _ _ Hlt E).
Qed.

Lemma requests_of_cleanup (cfg : config) (st : store) (u : string) (now : Q) :
  requests_of (cleanup_old_requests cfg st u now) u
  = survivors cfg now (requests_of st u).
Proof.
  unfold cleanup_old_requests, requests_of at 1.
  rewrite lookup_insert_eq. simpl. apply filter_survivors.
Qed.

Lemma sum_counts_from (l : list entry) (acc : Z) :
  fold_left (fun a e => a + snd e) l acc = acc + total l.
Proof.
  revert acc. induction l as [|e l IH]; intros acc; simpl.
  - unfold total; simpl. lia.
  - rewrite IH. unfold total; simpl. lia.
Qed.

Lemma sum_counts_total (l : list entry) : sum_counts l = total l.
Proof. unfold sum_counts. rewrite sum_counts_from. lia. Qed.

Lemma min_ts_spec (rest : list entry) (m : Q) :
  (min_ts m rest = m \/ exists c, (min_ts m rest, c) ∈ rest)
  /\ (min_ts m rest <= m)%Q
  /\ forall e, e ∈ rest -> (min_ts m rest <= fst e)%Q.
Proof.
  revert m. induction rest as [|[t c] rest IH]; intros m.
  - simpl. split; [left; reflexivity|]. split; [apply Qle_refl|].
    intros e He. inversion He.
  - unfold min_ts in *. simpl.
    destruct (Qgtb m t) eqn:E.
    + apply Qgtb_true in E.
      destruct (IH t) as (Hin & Hle & Hall).
      split; [|split].
      * right. destruct Hin as [-> | [c' Hc']].
        -- exists c. left.
        -- exists c'. right. exact Hc'.
      * apply Qle_trans with t; [exact Hle | apply Qlt_le_weak, E].
      * intros e He. apply elem_of_cons in He as [-> | He];
          [exact Hle | exact (Hall e He)].
    + apply Qgtb_false in E.
      destruct (IH m) as (Hin & Hle & Hall).
      split; [|split].
      * destruct Hin as [-> | [c' Hc']]; [left; reflexivity|].
        right. exists c'. right. exact Hc'.
      * exact Hle.
      * intros e He. apply elem_of_cons in He as [-> | He];
          [|exact (Hall e He)].
        simpl. apply Qle_trans with m; assumption.
Qed.

Lemma min_ts_oldest (t : Q) (c : Z) (rest : list entry) :
  oldest (min_ts t rest) ((t, c) :: rest).
Proof.
  destruct (min_ts_spec rest t) as (Hin & Hle & Hall). split.
  - destruct Hin as [-> | [c' Hc']].
    + exists c. left.
    + exists c'. right. exact Hc'.
  - intros e He. apply elem_of_cons in He as [-> | He];
      [exact Hle | exact (Hall e He)].
Qed.

(** In the range of the clock the float cutoff is the exact one, and the
    purge as computed is the purge modelled. *)
Lemma cleanup_binary64_exact (cfg : config) (st : store) (u : string)
    (now : Q) :
  is_float now -> 0 <= window_seconds cfg ->
  (inject_Z (window_seconds cfg) <= now)%Q -> (now < inject_Z (2 ^ 53))%Q ->
  cleanup_old_requests_binary64 cfg st u now
  = cleanup_old_requests cfg st u now.
Proof.
  intros Hf Hw Hle Hlt.
  unfold cleanup_old_requests_binary64, cleanup_old_requests. cbv zeta.
  f_equal. apply List.filter_ext. intros e. unfold Qgtb. f_equal.
  assert (Hcomp : forall a b c : Q, (b == c)%Q -> Qle_bool a b = Qle_bool a c).
  { intros a b c Hbc.
    destruct (Qle_bool a b) eqn:E1, (Qle_bool a c) eqn:E2; try reflexivity.
    - apply Qle_bool_iff in E1. rewrite Hbc in E1.
      apply Qle_bool_iff in E1. congruence.
    - apply Qle_bool_iff in E2. rewrite <- Hbc in E2.
      apply Qle_bool_iff in E2. congruence. }
  apply Hcomp, cutoff_exact; assumption.
Qed.

(** Everything but the store, read off the surviving entries. *)
Lemma check_rate_limit_result (cfg : config) (st : store) (u : string)
    (now : Q) :
  let surv := survivors cfg now (requests_of st u) in
  snd (check_rate_limit cfg st u now)
  = (total surv <? max_requests cfg,
     {| limit := max_requests cfg;
        remaining := Z.max 0 (max_requests cfg - total surv);
        reset :=
          match surv with
          | e :: rest =>
              py_int (float_add (min_ts (fst e) rest)
                        (float_of_int (window_seconds cfg)))
          | [] => py_int (float_add now (float_of_int (window_seconds cfg)))
          end |}).
Proof.
  unfold check_rate_limit. simpl.
  rewrite requests_of_cleanup, sum_counts_total. reflexivity.
Qed.

(** The store after a call. *)
Lemma check_rate_limit_store (cfg : config) (st : store) (u : string)
    (now : Q) :
  fst (check_rate_limit cfg st u now)
  = store_after cfg st u now (fst (snd (check_rate_limit cfg st u now))).
Proof.
  unfold check_rate_limit, store_after. simpl.
  rewrite requests_of_cleanup.
  destruct (_ <? _).
  - unfold cleanup_old_requests. rewrite insert_insert_eq. reflexivity.
  - unfold cleanup_old_requests. rewrite filter_survivors, app_nil_r.
    reflexivity.
Qed.

(** C1 (as amended).  One call of [check_rate_limit] keeps exactly the
    entries stamped after [now - window_seconds]; with [s] the sum of the
    kept counts it answers [allowed = (s < max_requests)],
    [remaining = max 0 (max_requests - s)] and, for [reset], the integer
    part of the float sum (the binary64 value nearest to the sum) of the
    oldest kept timestamp and the window (of [now] and the window when
    nothing is kept); the store changes only at the caller's key, which
    receives the kept entries followed by [(now, 1)] exactly when the call
    is allowed. *)
Theorem check_rate_limit_call (cfg : config) (st : store) (u : string)
    (now : Q) :
  call_described reset_truncated cfg st u now.
Proof.
  unfold call_described.
  pose proof (check_rate_limit_result cfg st u now) as Hres.
  pose proof (check_rate_limit_store cfg st u now) as Hst.
  destruct (check_rate_limit cfg st u now) as [st' [allowed info]].
  simpl in *. injection Hres as Hallowed Hinfo. subst info. simpl.
  split; [|split; [reflexivity|split; [reflexivity|split]]].
  - rewrite Hallowed. destruct (Z.ltb_spec (total (survivors cfg now (requests_of st u)))
                                           (max_requests cfg)).
    + rewrite bool_decide_eq_true_2; [reflexivity|assumption].
    + rewrite bool_decide_eq_false_2; [reflexivity|lia].
  - unfold reset_truncated.
    destruct (survivors cfg now (requests_of st u)) as [|[t c] rest];
      [reflexivity|].
    exists (min_ts t rest). split; [apply min_ts_oldest | reflexivity].
  - exact Hst.
Qed.

(** C1 as worded fails: at clock reading 1700000000.5 with the default
    configuration and an empty store, [reset] is 1700000060, not
    1700000060.5. *)
Lemma check_rate_limit_reset_not_exact :
  ~ call_described reset_exact (mkConfig 10 60) ∅ "alice"
      (3400000001 # 2).
Proof.
  unfold call_described. intros (_ & _ & _ & Hreset & _).
  vm_compute in Hreset. discriminate Hreset.
Qed.

(** Nor is [reset] always the integer part of the sum: the sum is a float
    sum.  At clock reading [1 - 2 ^ -53] (0.9999999999999999) the sum with 60
    is rounded to 61.0, and [reset] is 61, not 60. *)
Lemma check_rate_limit_reset_is_rounded :
  reset (snd (snd (check_rate_limit (mkConfig 10 60) ∅ "alice"
                     ((2 ^ 53 - 1) # (2 ^ 53))))) = 61
  /\ ~ call_described reset_floor_of_sum (mkConfig 10 60) ∅ "alice"
        ((2 ^ 53 - 1) # (2 ^ 53)).
Proof.
  split; [vm_compute; reflexivity|].
  unfold call_described. intros (_ & _ & _ & Hreset & _).
  vm_compute in Hreset. discriminate Hreset.
Qed.

(** Where the reading is a whole number of seconds and stays below
    [2 ^ 53] with the window, nothing is rounded: [reset] is the sum. *)
Lemma float_add_whole_seconds (t w : Z) :
  Z.abs w < 2 ^ 53 -> Z.abs (t + w) < 2 ^ 53 ->
  py_int (float_add (inject_Z t) (float_of_int w)) = t + w.
Proof.
  intros Hw Htw. unfold float_add, float_of_int. apply py_int_of_Z.
  rewrite (round64_comp _ (inject_Z (t + w))).
  - by apply round64_int.
  - rewrite (round64_int w Hw), inject_Z_plus. reflexivity.
Qed.

(** *** Recovery after a full window *)

Lemma survivors_expired (cfg : config) (now t0 : Q) (l : list entry) :
  Forall (fun e : entry => (fst e <= t0)%Q) l ->
  (t0 + inject_Z (window_seconds cfg) <= now)%Q ->
  survivors cfg now l = [].
Proof.
  intros Hl Hnow. unfold survivors.
  induction Hl as [|e l He _ IH]; [reflexivity|].
  rewrite filter_cons, IH, decide_False; [reflexivity|].
  intros Hlt. apply (Qlt_not_le _ _ Hlt).
  apply Qle_trans with t0; [exact He|].
  apply (Qplus_le_l _ _ (inject_Z (window_seconds cfg))).
  ring_simplify. exact Hnow.
Qed.

Lemma survivors_stamped (cfg : config) (now t0 : Q) (l : list entry) :
  Forall (fun e : entry => (fst e <= t0)%Q) l ->
  Forall (fun e : entry => (fst e <= t0)%Q) (survivors cfg now l).
Proof.
  intros Hl. unfold survivors. induction Hl as [|e l He _ IH].
  - constructor.
  - rewrite filter_cons. destruct (decide _); [constructor|]; assumption.
Qed.

Lemma requests_of_store_after (cfg : config) (st : store) (u : string)
    (now : Q) (allowed : bool) :
  requests_of (store_after cfg st u now allowed) u
  = survivors cfg now (requests_of st u)
    ++ (if allowed then [(now, 1)] else []).
Proof. unfold store_after, requests_of at 1. by rewrite lookup_insert_eq. Qed.

(** C8 (as amended).  With [max_requests >= 1]: an identity refused at
    [t0] whose next call comes at least [window_seconds] later is
    admitted, and that call reports [remaining = max_requests], the
    allowance before the call itself is counted; a further call while the
    admitted one is still inside the window reports [max_requests - 1]. *)
Theorem recovers_after_window (cfg : config) (st : store) (u : string)
    (t0 now : Q) :
  1 <= max_requests cfg ->
  recovers_reporting (max_requests cfg) cfg st u t0 now
  /\ (stamped_by st u t0 ->
      (t0 + inject_Z (window_seconds cfg) <= now)%Q ->
      forall later : Q,
        (later - inject_Z (window_seconds cfg) < now)%Q ->
        let st1 := fst (check_rate_limit cfg st u t0) in
        let st2 := fst (check_rate_limit cfg st1 u now) in
        remaining (snd (snd (check_rate_limit cfg st2 u later)))
        = max_requests cfg - 1).
Proof.
  intros Hmax.
  assert (Hexp : stamped_by st u t0 ->
                 (t0 + inject_Z (window_seconds cfg) <= now)%Q ->
                 survivors cfg now
                   (requests_of (fst (check_rate_limit cfg st u t0)) u) = []).
  { intros Hst Hnow. rewrite check_rate_limit_store, requests_of_store_after.
    apply survivors_expired with t0; [|exact Hnow].
    apply Forall_app. split.
    - apply survivors_stamped, Hst.
    - destruct (fst (snd _)); repeat constructor. simpl. apply Qle_refl. }
  split.
  - unfold recovers_reporting. intros Hst _ Hnow. cbv zeta.
    rewrite check_rate_limit_result. cbv zeta. rewrite (Hexp Hst Hnow).
    unfold total; simpl. split; [apply Z.ltb_lt; lia | lia].
  - intros Hst Hnow later Hlater. cbv zeta.
    rewrite check_rate_limit_result. cbv zeta.
    rewrite (check_rate_limit_store cfg _ u now), requests_of_store_after.
    rewrite (Hexp Hst Hnow).
    rewrite check_rate_limit_result. cbv zeta. rewrite (Hexp Hst Hnow).
    replace (total [] <? max_requests cfg) with true
      by (symmetry; apply Z.ltb_lt; unfold total; simpl; lia).
    cbn [fst snd app remaining]. unfold survivors.
    rewrite filter_cons, decide_True by exact Hlater.
    rewrite filter_nil. unfold total; simpl. lia.
Qed.

Lemma recovers_after_window_witness :
  let cfg := mkConfig 2 60 in
  stamped_by full_store "alice" (5 # 1)
  /\ fst (snd (check_rate_limit cfg full_store "alice" (5 # 1))) = false
  /\ (let st1 := fst (check_rate_limit cfg full_store "alice" (5 # 1)) in
      let '(allowed, info) :=
        snd (check_rate_limit cfg st1 "alice" (65 # 1)) in
      allowed = true /\ remaining info = 2)
  /\ (let st1 := fst (check_rate_limit cfg full_store "alice" (5 # 1)) in
      let st2 := fst (check_rate_limit cfg st1 "alice" (65 # 1)) in
      remaining (snd (snd (check_rate_limit cfg st2 "alice" (70 # 1))))
      = 2 - 1).
Proof.
  intros cfg.
  assert (Hst : stamped_by full_store "alice" (5 # 1)).
  { unfold stamped_by. vm_compute. repeat constructor; discriminate. }
  assert (Hnow : ((5 # 1) + inject_Z (window_seconds cfg) <= 65 # 1)%Q).
  { vm_compute. discriminate. }
  destruct (recovers_after_window cfg full_store "alice" (5 # 1) (65 # 1))
    as [H1 H2]; [simpl; lia|].
  split; [exact Hst|]. split; [vm_compute; reflexivity|]. split.
  - exact (H1 Hst eq_refl Hnow).
  - apply (H2 Hst Hnow (70 # 1)). vm_compute. reflexivity.
Defined.

(** C8 as worded fails: the call that readmits the identity reports the
    whole allowance (2 of 2), not [max_requests - 1]. *)
Lemma recovery_does_not_report_one_less :
  ~ recovers_reporting (2 - 1) (mkConfig 2 60) full_store "alice"
      (5 # 1) (65 # 1).
Proof.
  unfold recovers_reporting. intros H.
  assert (Hst : stamped_by full_store "alice" (5 # 1)).
  { unfold stamped_by. vm_compute. repeat constructor; discriminate. }
  specialize (H Hst eq_refl).
  assert (Hnow : ((5 # 1) + inject_Z (window_seconds (mkConfig 2 60))
                  <= 65 # 1)%Q).
  { vm_compute. discriminate. }
  specialize (H Hnow). vm_compute in H. destruct H as [_ H]. discriminate H.
Qed.

(** *** One identity never touches another *)

Lemma check_rate_limit_other (cfg : config) (st : store) (u v : string)
    (t : Q) :
  u <> v -> fst (check_rate_limit cfg st u t) !! v = st !! v.
Proof.
  intros Hne. rewrite check_rate_limit_store. unfold store_after.
  by rewrite lookup_insert_ne.
Qed.

Lemma check_rate_limit_own (cfg : config) (st1 st2 : store) (u : string)
    (t : Q) :
  st1 !! u = st2 !! u ->
  snd (check_rate_limit cfg st1 u t) = snd (check_rate_limit cfg st2 u t)
  /\ fst (check_rate_limit cfg st1 u t) !! u
     = fst (check_rate_limit cfg st2 u t) !! u.
Proof.
  intros Heq.
  assert (Hreq : requests_of st1 u = requests_of st2 u)
    by (unfold requests_of; by rewrite Heq).
  assert (Hres : snd (check_rate_limit cfg st1 u t)
                 = snd (check_rate_limit cfg st2 u t))
    by (rewrite !check_rate_limit_result; cbv zeta; by rewrite Hreq).
  split; [exact Hres|].
  rewrite !check_rate_limit_store. unfold store_after.
  rewrite !lookup_insert_eq, Hres, Hreq. reflexivity.
Qed.

Lemma run_cons (cfg : config) (u : string) (t : Q)
    (calls : list (string * Q)) (st : store) :
  run cfg ((u, t) :: calls) st
  = (fst (run cfg calls (fst (check_rate_limit cfg st u t))),
     (u, snd (check_rate_limit cfg st u t))
     :: snd (run cfg calls (fst (check_rate_limit cfg st u t)))).
Proof.
  cbn [run]. destruct (check_rate_limit cfg st u t) as [st1 r].
  cbn [fst snd]. destruct (run cfg calls st1) as [st2 rs]. reflexivity.
Qed.

Lemma results_of_cons (u v : string) (r : bool * rate_limit_info)
    (rs : list (string * (bool * rate_limit_info))) :
  results_of u ((v, r) :: rs)
  = if bool_decide (v = u) then r :: results_of u rs else results_of u rs.
Proof. unfold results_of. simpl. by destruct (bool_decide (v = u)). Qed.

(** Dropping the calls of [a] from a schedule changes neither what [b] is
    answered nor what is stored for [b]. *)
Lemma run_without (cfg : config) (a b : string)
    (calls : list (string * Q)) :
  a <> b ->
  forall st1 st2 : store,
    st1 !! b = st2 !! b ->
    results_of b (snd (run cfg calls st1))
    = results_of b
        (snd (run cfg (filter (fun c : string * Q => fst c <> a) calls) st2))
    /\ fst (run cfg calls st1) !! b
       = fst (run cfg (filter (fun c : string * Q => fst c <> a) calls) st2)
           !! b.
Proof.
  intros Hab. induction calls as [|[u t] calls IH]; intros st1 st2 Heq.
  - simpl. split; [reflexivity | exact Heq].
  - rewrite filter_cons. cbn [fst].
    destruct (decide (u <> a)) as [Hu | Hu].
    + rewrite !run_cons. cbn [fst snd]. rewrite !results_of_cons.
      destruct (decide (u = b)) as [-> | Hub].
      * destruct (check_rate_limit_own cfg st1 st2 b t Heq) as [Hr Hs].
        destruct (IH _ _ Hs) as [IH1 IH2].
        rewrite bool_decide_eq_true_2 by reflexivity.
        rewrite Hr, IH1. split; [reflexivity | exact IH2].
      * rewrite bool_decide_eq_false_2 by exact Hub.
        apply IH. rewrite !check_rate_limit_other by exact Hub. exact Heq.
    + assert (u = a) as -> by (destruct (decide (u = a)); [done | contradiction]).
      rewrite run_cons. cbn [fst snd]. rewrite results_of_cons.
      rewrite bool_decide_eq_false_2 by exact Hab.
      apply IH. rewrite check_rate_limit_other by exact Hab. exact Heq.
Qed.

(** C9.  For distinct identities [a] and [b]: any sequence of calls by
    [a] leaves the entries stored for [b] as they were, and in any
    schedule the answers given to [b], and what ends up stored for [b],
    are those of the same schedule with the calls of [a] taken out. *)
Theorem other_identity_unaffected (cfg : config) (a b : string) :
  a <> b ->
  (forall (times : list Q) (st : store),
      fst (run cfg (map (fun t => (a, t)) times) st) !! b = st !! b)
  /\ (forall (calls : list (string * Q)) (st : store),
        results_of b (snd (run cfg calls st))
        = results_of b
            (snd (run cfg (filter (fun c : string * Q => fst c <> a) calls)
                    st))
        /\ fst (run cfg calls st) !! b
           = fst (run cfg (filter (fun c : string * Q => fst c <> a) calls)
                    st) !! b).
Proof.
  intros Hab. split.
  - intros times. induction times as [|t times IH]; intros st.
    + reflexivity.
    + cbn [map]. rewrite run_cons. cbn [fst]. rewrite IH.
      apply check_rate_limit_other, Hab.
  - intros calls st. apply run_without; [exact Hab | reflexivity].
Qed.

Lemma other_identity_unaffected_witness :
  let cfg := mkConfig 2 60 in
  "alice"%string <> "bob"%string
  /\ fst (run cfg [("alice"%string, 1 # 1); ("alice"%string, 2 # 1);
                   ("alice"%string, 3 # 1)]%Q ∅) !! "bob"%string = None
  /\ results_of "bob"
       (snd (run cfg [("alice"%string, 1 # 1); ("alice"%string, 2 # 1);
                      ("alice"%string, 3 # 1); ("bob"%string, 4 # 1)]%Q ∅))
     = results_of "bob" (snd (run cfg [("bob"%string, (4 # 1)%Q)] ∅)).
Proof.
  intros cfg.
  assert (Hab : "alice"%string <> "bob"%string) by discriminate.
  destruct (other_identity_unaffected cfg "alice" "bob" Hab) as [H1 H2].
  split; [exact Hab|]. split.
  - exact (H1 [1 # 1; 2 # 1; 3 # 1]%Q ∅).
  - exact (proj1 (H2 [("alice"%string, 1 # 1); ("alice"%string, 2 # 1);
                      ("alice"%string, 3 # 1); ("bob"%string, 4 # 1)]%Q ∅)).
Defined.

End RateLimiterSpec.

(* ===================================================================== *)
(** ** The chat handler *)
(* ===================================================================== *)

Module RouterSpec.
Import Py Router Endpoint.

(** *** The monad *)

Lemma bind_ok {A B} (m : M A) (k : A -> M B) (log log' : list call) (a : A) :
  m log = (log', Ok a) -> bind m k log = k a log'.
Proof. intros H. unfold bind. by rewrite H. Qed.

Lemma bind_raise {A B} (m : M A) (k : A -> M B) (log log' : list call)
    (e : exn) :
  m log = (log', Raise e) -> bind m k log = (log', Raise e).
Proof. intros H. unfold bind. by rewrite H. Qed.

Lemma add_rate_limit_headers_log (info : RateLimiter.rate_limit_info)
    (log : list call) :
  add_rate_limit_headers info log = (log ++ headers_log info, Ok tt).
Proof.
  unfold add_rate_limit_headers, bind, perform, headers_log.
  by rewrite <- !app_assoc.
Qed.

(** The outer handler lets an HTTP exception through untouched. *)
Lemma public_chat_http (env : collaborators) (request : ChatRequest)
    (rl : string * RateLimiter.rate_limit_info) (log log' : list call)
    (code : Z) (detail : string) :
  public_chat_body env request rl log = (log', Raise (HTTPException code detail)) ->
  public_chat env request rl log = (log', Raise (HTTPException code detail)).
Proof. intros H. unfold public_chat, try_except. by rewrite H. Qed.

Lemma public_chat_ok (env : collaborators) (request : ChatRequest)
    (rl : string * RateLimiter.rate_limit_info) (log log' : list call)
    (r : ChatResponse) :
  public_chat_body env request rl log = (log', Ok r) ->
  public_chat env request rl log = (log', Ok r).
Proof. intros H. unfold public_chat, try_except. by rewrite H. Qed.

Lemma public_chat_body_unfold (env : collaborators) (request : ChatRequest)
    (user_id : string) (info : RateLimiter.rate_limit_info) :
  public_chat_body env request (user_id, info) []
  = bind (verify_ownership env request user_id)
         (fun _ => after_ownership env request user_id) (headers_log info).
Proof.
  unfold public_chat_body.
  unfold bind at 1. by rewrite (add_rate_limit_headers_log info []).
Qed.

(** *** The permission check *)

Lemma ne_str_true (v : pyval) (s : string) :
  ne_str v s = true <-> v <> PyStr s.
Proof.
  destruct v; simpl; try (split; [discriminate | reflexivity]).
  rewrite negb_true_iff. split.
  - intros H [= ->]. by rewrite String.eqb_refl in H.
  - intros H. destruct (String.eqb s0 s) eqn:E; [|reflexivity].
    apply String.eqb_eq in E. by subst.
Qed.

Lemma str_truthy_true (s : string) : str_truthy s = true <-> s <> ""%string.
Proof.
  unfold str_truthy. rewrite negb_true_iff. split.
  - intros H ->. discriminate H.
  - intros H. destruct (String.eqb s "") eqn:E; [|reflexivity].
    apply String.eqb_eq in E. contradiction.
Qed.

Lemma dict_truthy_lookup (d : dict) (k : string) (v : pyval) :
  d !! k = Some v -> dict_truthy d = true.
Proof.
  intros H. unfold dict_truthy. rewrite bool_decide_eq_false_2; [reflexivity|].
  intros ->. by rewrite lookup_empty in H.
Qed.

(** What the check does with a request that carries a reference, by the
    answer of the storage. *)
Lemma verify_ownership_referring (env : collaborators)
    (request : ChatRequest) (user_id cid : string) (log : list call) :
  refers_to request cid ->
  verify_ownership env request user_id log
  = (log ++ [GetConversation user_id cid],
     match get_conversation env user_id cid with
     | Ok None => Raise not_found
     | Ok (Some conv) =>
         if negb (dict_truthy conv) then Raise not_found
         else if truthy (dict_get conv "user_id")
                 && ne_str (dict_get conv "user_id") user_id
              then Raise forbidden
              else Ok tt
     | Raise (HTTPException code detail) => Raise (HTTPException code detail)
     | Raise (Exception _) => Raise not_found
     end).
Proof.
  intros [Hcid Htruthy]. unfold verify_ownership.
  rewrite Hcid, Htruthy. unfold try_except, bind, perform.
  destruct (get_conversation env user_id cid) as [[conv|]|[code detail|text]];
    try reflexivity.
  destruct (negb (dict_truthy conv)); [reflexivity|].
  destruct (truthy _ && ne_str _ _); reflexivity.
Qed.

Lemma public_chat_ownership_error (env : collaborators)
    (request : ChatRequest) (user_id : string)
    (info : RateLimiter.rate_limit_info) (log : list call)
    (code : Z) (detail : string) :
  verify_ownership env request user_id (headers_log info)
  = (log, Raise (HTTPException code detail)) ->
  public_chat env request (user_id, info) []
  = (log, Raise (HTTPException code detail)).
Proof.
  intros H. apply public_chat_http. rewrite public_chat_body_unfold.
  by apply bind_raise.
Qed.

(** C2 (as amended).  For a request that carries a conversation
    reference: when the storage knows no such conversation the turn ends
    with 404; when the stored owner is set (not null, not empty) and is
    not the caller the turn ends with 403; when the stored owner is the
    caller the handler goes on to the trial gate; when the lookup raises
    anything but an HTTP exception the turn ends with 404.  In the error
    cases only the headers were set and the lookup made. *)
Theorem ownership_checked (env : collaborators) (request : ChatRequest)
    (user_id : string) (info : RateLimiter.rate_limit_info) :
  ownership_rule set_and_differs env request user_id info.
Proof.
  intros cid Href looked.
  pose proof (verify_ownership_referring env request user_id cid
                (headers_log info) Href) as Hv.
  fold looked in Hv. repeat split.
  - intros Hget. rewrite Hget in Hv.
    by apply public_chat_ownership_error.
  - intros conv owner Hget Howner [Htruthy Hne]. rewrite Hget in Hv.
    rewrite (dict_truthy_lookup _ _ _ Howner) in Hv. simpl in Hv.
    unfold dict_get in Hv. rewrite Howner in Hv. simpl in Hv.
    rewrite Htruthy, (proj2 (ne_str_true owner user_id) Hne) in Hv.
    by apply public_chat_ownership_error.
  - intros conv Hget Howner. rewrite Hget in Hv.
    rewrite (dict_truthy_lookup _ _ _ Howner) in Hv. simpl in Hv.
    unfold dict_get in Hv. rewrite Howner in Hv. simpl in Hv.
    rewrite String.eqb_refl, andb_false_r in Hv.
    rewrite public_chat_body_unfold. unfold bind. by rewrite Hv.
  - intros text Hget. rewrite Hget in Hv.
    by apply public_chat_ownership_error.
Qed.

Lemma ownership_checked_witness :
  let looked user_id :=
    headers_log sample_info ++ [GetConversation user_id "c1"] in
  let env stored :=
    sample_env stored false no_preferences None [] None in
  let request := follow_up_request "more" in
  public_chat (env (Ok None)) request ("alice"%string, sample_info) []
  = (looked "alice"%string, Raise not_found)
  /\ public_chat (env (Ok (Some alice_conversation))) request
       ("bob"%string, sample_info) []
     = (looked "bob"%string, Raise forbidden)
  /\ public_chat_body (env (Ok (Some alice_conversation))) request
       ("alice"%string, sample_info) []
     = after_ownership (env (Ok (Some alice_conversation))) request "alice"
         (looked "alice"%string)
  /\ public_chat (env (Raise (Exception "storage down"))) request
       ("alice"%string, sample_info) []
     = (looked "alice"%string, Raise not_found).
Proof.
  intros looked env request.
  assert (Href : refers_to request "c1") by (split; reflexivity).
  split; [|split; [|split]].
  - exact (proj1 (ownership_checked (env (Ok None)) request "alice"
                    sample_info "c1"%string Href) eq_refl).
  - refine (proj1 (proj2 (ownership_checked
                     (env (Ok (Some alice_conversation))) request "bob"
                     sample_info "c1"%string Href))
              alice_conversation (PyStr "alice") eq_refl eq_refl _).
    split; [reflexivity | discriminate].
  - exact (proj1 (proj2 (proj2 (ownership_checked
                     (env (Ok (Some alice_conversation))) request "alice"
                     sample_info "c1"%string Href)))
              alice_conversation eq_refl eq_refl).
  - exact (proj2 (proj2 (proj2 (ownership_checked
                     (env (Raise (Exception "storage down"))) request "alice"
                     sample_info "c1"%string Href)))
              "storage down"%string eq_refl).
Defined.

(** C2 as worded fails: a stored conversation whose owner field is the
    empty string is not the caller's, yet no 403 is raised and the turn
    is answered. *)
Lemma empty_owner_not_forbidden :
  ~ ownership_rule differs
      (sample_env (Ok (Some ownerless_conversation)) false no_preferences
         None [] None)
      (follow_up_request "more") "alice" sample_info.
Proof.
  intros H.
  destruct (H "c1"%string (conj eq_refl eq_refl)) as (_ & H403 & _).
  assert (Hne : differs (PyStr "") "alice") by (intros [=]).
  specialize (H403 ownerless_conversation (PyStr "") eq_refl eq_refl Hne).
  vm_compute in H403. discriminate H403.
Qed.

(** The verdict of the check on a stored conversation that is not empty,
    by its owner field. *)
Lemma verify_ownership_forbidden_iff (env : collaborators)
    (request : ChatRequest) (user_id cid : string) (conv : dict)
    (log : list call) :
  refers_to request cid ->
  get_conversation env user_id cid = Ok (Some conv) ->
  conv <> ∅ ->
  let verdict := snd (verify_ownership env request user_id log) in
  ((conv !! "user_id"%string = None
    \/ conv !! "user_id"%string = Some PyNone
    \/ conv !! "user_id"%string = Some (PyStr "")) ->
   verdict = Ok tt)
  /\ (verdict = Raise forbidden <->
      exists owner, conv !! "user_id"%string = Some owner
                    /\ truthy owner = true /\ owner <> PyStr user_id)
  /\ (forall s, conv !! "user_id"%string = Some (PyStr s) ->
        (verdict = Raise forbidden <-> s <> ""%string /\ s <> user_id)).
Proof.
  intros Href Hget Hconv verdict. subst verdict.
  rewrite (verify_ownership_referring env request user_id cid log Href).
  rewrite Hget. cbn [snd].
  assert (Ht : dict_truthy conv = true).
  { unfold dict_truthy. by rewrite bool_decide_eq_false_2. }
  rewrite Ht. cbn [negb]. unfold dict_get.
  split; [|split].
  - intros [-> | [-> | ->]]; reflexivity.
  - split.
    + destruct (conv !! "user_id"%string) as [owner|] eqn:E;
        [|simpl; intros [=]]. simpl.
      destruct (truthy owner) eqn:Et, (ne_str owner user_id) eqn:En;
        simpl; intros H; try discriminate H.
      exists owner. split; [reflexivity|]. split; [exact Et|].
      by apply ne_str_true.
    + intros (owner & -> & Et & Hne). simpl.
      by rewrite Et, (proj2 (ne_str_true owner user_id) Hne).
  - intros s ->. simpl. split.
    + destruct (str_truthy s) eqn:Et, (String.eqb s user_id) eqn:En;
        simpl; intros H; try discriminate H.
      split; [by apply str_truthy_true|].
      intros ->. by rewrite String.eqb_refl in En.
    + intros [Hs Hu].
      rewrite (proj2 (str_truthy_true s) Hs).
      destruct (String.eqb s user_id) eqn:E; [|reflexivity].
      apply String.eqb_eq in E. contradiction.
Qed.

(** *** The trial gate *)

(** The check adds at most the lookup to the log. *)
Lemma verify_ownership_log (env : collaborators) (request : ChatRequest)
    (user_id : string) (log : list call) :
  verify_ownership env request user_id log = (log, Ok tt)
  \/ exists cid, fst (verify_ownership env request user_id log)
                 = log ++ [GetConversation user_id cid].
Proof.
  destruct (conversation_id request) as [cid|] eqn:Hc.
  - destruct (str_truthy cid) eqn:Ht.
    + right. exists cid.
      by rewrite (verify_ownership_referring env request user_id cid log).
    + left. unfold verify_ownership. by rewrite Hc, Ht.
  - left. unfold verify_ownership. by rewrite Hc.
Qed.

Lemma verify_ownership_writes_nothing (env : collaborators)
    (request : ChatRequest) (user_id : string) (log : list call) :
  Forall writes_nothing log ->
  Forall writes_nothing (fst (verify_ownership env request user_id log)).
Proof.
  intros Hlog.
  destruct (verify_ownership_log env request user_id log) as [-> | [cid ->]].
  - exact Hlog.
  - apply Forall_app. split; [exact Hlog|]. by repeat constructor.
Qed.

Lemma headers_write_nothing (info : RateLimiter.rate_limit_info) :
  Forall writes_nothing (headers_log info).
Proof. by repeat constructor. Qed.

(** The outer handler changes the outcome, never the log. *)
Lemma public_chat_log (env : collaborators) (request : ChatRequest)
    (rl : string * RateLimiter.rate_limit_info) (log : list call) :
  fst (public_chat env request rl log)
  = fst (public_chat_body env request rl log).
Proof.
  unfold public_chat, try_except.
  destruct (public_chat_body env request rl log) as [log' [r|[c d|t]]];
    reflexivity.
Qed.

Lemma after_ownership_exceeded (env : collaborators) (request : ChatRequest)
    (user_id : string) (log : list call) :
  is_anonymous user_id = true ->
  check_trial_limit env user_id = Ok true ->
  after_ownership env request user_id log
  = (log ++ [CheckTrialLimit user_id; GetUsage user_id],
     match get_usage env user_id with
     | Ok usage => Ok (trial_exceeded_response env request usage)
     | Raise e => Raise e
     end).
Proof.
  intros Hanon Hexc. unfold after_ownership, bind, perform, ret.
  rewrite Hanon, Hexc. rewrite <- app_assoc. simpl.
  destruct (get_usage env user_id); reflexivity.
Qed.

(** C4.  For an anonymous identity whose trial limit is exceeded: the
    turn writes nothing to the transcript (no conversation created, no
    message saved, no metadata updated) and does not charge the counter,
    whatever else happens; and once the permission check has passed and
    the usage snapshot is read, the answer is the terminal response:
    [trial_exceeded] set, no recommendations, the fixed message with the
    limit, the snapshot. *)
Theorem trial_exceeded_turn (env : collaborators) (request : ChatRequest)
    (user_id : string) (info : RateLimiter.rate_limit_info) :
  is_anonymous user_id = true ->
  check_trial_limit env user_id = Ok true ->
  Forall writes_nothing (fst (public_chat env request (user_id, info) []))
  /\ forall (log : list call) (usage : dict),
       verify_ownership env request user_id (headers_log info)
       = (log, Ok tt) ->
       get_usage env user_id = Ok usage ->
       exists r,
         public_chat env request (user_id, info) []
         = (log ++ [CheckTrialLimit user_id; GetUsage user_id], Ok r)
         /\ trial_exceeded r = true
         /\ recommendations r = []
         /\ usage_stats r = Some usage
         /\ resp_message r
            = "🔒 You've reached your free trial limit of "
              +:+ pretty (trial_limit env) +:+ " interactions! "
              +:+ "Please register to continue using our service and keep your conversation history.".
Proof.
  intros Hanon Hexc. split.
  - rewrite public_chat_log, public_chat_body_unfold. unfold bind.
    pose proof (verify_ownership_writes_nothing env request user_id
                  (headers_log info) (headers_write_nothing info)) as Hv.
    destruct (verify_ownership env request user_id (headers_log info))
      as [log [[]|e]]; cbn [fst] in *; [|exact Hv].
    rewrite (after_ownership_exceeded env request user_id log Hanon Hexc).
    cbn [fst]. apply Forall_app. split; [exact Hv|]. by repeat constructor.
  - intros log usage Hv Husage.
    exists (trial_exceeded_response env request usage).
    split; [|by repeat split].
    apply public_chat_ok. rewrite public_chat_body_unfold.
    unfold bind. rewrite Hv.
    rewrite (after_ownership_exceeded env request user_id log Hanon Hexc).
    by rewrite Husage.
Qed.

Lemma trial_exceeded_turn_witness :
  let env := sample_env (Ok None) true no_preferences None [] None in
  let request := initial_request "jazz tonight" in
  Forall writes_nothing
    (fst (public_chat env request ("user_42"%string, sample_info) []))
  /\ exists r,
       public_chat env request ("user_42"%string, sample_info) []
       = (headers_log sample_info
            ++ [CheckTrialLimit "user_42"; GetUsage "user_42"], Ok r)
       /\ trial_exceeded r = true
       /\ recommendations r = []
       /\ usage_stats r = Some {[ "count"%string := PyInt 5 ]}.
Proof.
  intros env request.
  destruct (trial_exceeded_turn env request "user_42" sample_info
              eq_refl eq_refl) as [Hnone Hresp].
  split; [exact Hnone|].
  destruct (Hresp (headers_log sample_info) {[ "count"%string := PyInt 5 ]}
              eq_refl eq_refl) as (r & Hr & Ht & Hrec & Hu & _).
  exists r. repeat split; assumption.
Defined.

(** *** Opening the turn *)

Lemma verified_log (env : collaborators) (request : ChatRequest)
    (user_id : string) (info : RateLimiter.rate_limit_info)
    (log : list call) (r : result unit) :
  verify_ownership env request user_id (headers_log info) = (log, r) ->
  log = headers_log info
  \/ exists cid, log = headers_log info ++ [GetConversation user_id cid].
Proof.
  intros Hv.
  destruct (verify_ownership_log env request user_id (headers_log info))
    as [H | [cid H]]; rewrite Hv in H.
  - left. congruence.
  - right. exists cid. exact H.
Qed.

(** Once the check and the gate are passed and the storage has taken the
    caller's message, the handler is at the extraction step, having made
    the gate calls, created the conversation if needed, and saved the
    caller's message. *)
Lemma turn_opened (env : collaborators) (request : ChatRequest)
    (user_id cid : string) (info : RateLimiter.rate_limit_info)
    (log : list call) (usage : option dict) :
  verify_ownership env request user_id (headers_log info) = (log, Ok tt) ->
  passes_gate env user_id usage ->
  materialised env request user_id cid ->
  (forall stamp,
      save_message env user_id cid (user_message request stamp) = Ok tt) ->
  exists stamp,
    public_chat_body env request (user_id, info) []
    = reply_turn env request user_id cid usage
        (log ++ gate_calls user_id ++ create_calls request user_id
             ++ [SaveMessage user_id cid (user_message request stamp)]).
Proof.
  intros Hv Hgate Hconv Hsave.
  exists (datetime_now_isoformat env
            (length (log ++ gate_calls user_id
                         ++ create_calls request user_id))).
  rewrite public_chat_body_unfold. unfold bind at 1. rewrite Hv.
  unfold after_ownership, admitted_turn, open_turn.
  unfold passes_gate in Hgate. unfold materialised in Hconv.
  unfold gate_calls, create_calls.
  unfold bind, perform, ret, now_isoformat.
  destruct (is_anonymous user_id).
  - destruct Hgate as (Hcheck & u & -> & Hinc). rewrite Hcheck, Hinc.
    destruct (opt_truthy (conversation_id request)).
    + rewrite Hconv. cbn [default from_option id].
      rewrite Hsave. by norm_log.
    + rewrite Hconv. rewrite Hsave. by norm_log.
  - subst usage.
    destruct (opt_truthy (conversation_id request)).
    + rewrite Hconv. cbn [default from_option id].
      rewrite Hsave. by norm_log.
    + rewrite Hconv. rewrite Hsave. by norm_log.
Qed.

(** Reading the opening part of a log. *)
Lemma opening_log_saved (request : ChatRequest) (user_id : string)
    (info : RateLimiter.rate_limit_info) (log : list call) :
  (log = headers_log info
   \/ exists cid, log = headers_log info ++ [GetConversation user_id cid]) ->
  saved_messages
    (log ++ gate_calls user_id ++ create_calls request user_id) = []
  /\ Forall (fun c => is_search c = false)
       (log ++ gate_calls user_id ++ create_calls request user_id).
Proof.
  intros Hlog. unfold saved_messages, gate_calls, create_calls.
  rewrite !omap_app, !Forall_app.
  destruct (is_anonymous user_id),
    (opt_truthy (conversation_id request)),
    Hlog as [-> | [cid ->]];
    (split; [reflexivity | by repeat constructor]).
Qed.

(** *** Deciding the city *)

Lemma determine_city_no_location (env : collaborators)
    (request : ChatRequest) (extracted : option UserPreferences)
    (heuristic : option string) (log : list call) :
  no_extracted_location extracted ->
  extract_location_from_query env (message request) = Ok heuristic ->
  determine_city env request extracted log
  = (log ++ [ExtractLocationFromQuery (message request)],
     Ok (match heuristic with
         | Some q => if str_truthy q then (Some (str_lower env q), true)
                     else (None, false)
         | None => (None, false)
         end)).
Proof.
  intros Hno Hq. unfold determine_city.
  assert (Hpair :
    match extracted with
    | Some p =>
        match location p with
        | Some loc =>
            if str_truthy loc && negb (String.eqb loc "none")
            then (Some (str_lower env loc), true) else (None, false)
        | None => (None, false)
        end
    | None => (None, false)
    end = (@None string, false)).
  { destruct extracted as [p|]; [|reflexivity].
    unfold no_extracted_location, names_location in Hno.
    destruct (location p) as [loc|]; [|reflexivity]. by rewrite Hno. }
  rewrite Hpair. cbn [opt_truthy negb]. unfold bind, perform, ret.
  rewrite Hq. destruct heuristic as [q|]; [|reflexivity].
  destruct (str_truthy q); reflexivity.
Qed.

(** C5.  On an initial turn where the extracted preferences name no
    location and the heuristic finds none, and the turn got as far as the
    extraction, the answer is the clarifying question with no
    recommendations; the log holds exactly one saved message, the
    caller's, and no corpus or search call. *)
Theorem clarifying_question (env : collaborators) (request : ChatRequest)
    (user_id cid : string) (info : RateLimiter.rate_limit_info)
    (log1 : list call) (usage : option dict) (p : UserPreferences)
    (heuristic : option string) (cities : list string) :
  is_initial_response request = true ->
  verify_ownership env request user_id (headers_log info) = (log1, Ok tt) ->
  passes_gate env user_id usage ->
  materialised env request user_id cid ->
  (forall stamp,
      save_message env user_id cid (user_message request stamp) = Ok tt) ->
  extract_user_preferences env (message request) = Ok p ->
  names_location p = false ->
  extract_location_from_query env (message request) = Ok heuristic ->
  opt_truthy heuristic = false ->
  get_supported_cities env = Ok cities ->
  exists log r stamp,
    public_chat env request (user_id, info) [] = (log, Ok r)
    /\ resp_message r = question_text env cities
    /\ recommendations r = []
    /\ saved_messages log = [user_message request stamp]
    /\ role (user_message request stamp) = "user"%string
    /\ content (user_message request stamp) = message request
    /\ Forall (fun c => is_search c = false) log.
Proof.
  intros Hinit Hv Hgate Hconv Hsave Hp Hnoloc Hq Hnoq Hcities.
  destruct (turn_opened env request user_id cid info log1 usage
              Hv Hgate Hconv Hsave) as [stamp Hopen].
  destruct (opening_log_saved request user_id info log1
              (verified_log _ _ _ _ _ _ Hv)) as [Hsaved Hsearch].
  set (opening := log1 ++ gate_calls user_id
                       ++ create_calls request user_id) in *.
  set (saved := SaveMessage user_id cid (user_message request stamp)) in *.
  assert (Hreply :
    reply_turn env request user_id cid usage
      (log1 ++ gate_calls user_id ++ create_calls request user_id ++ [saved])
    = (opening ++ [saved; ExtractUserPreferences (message request);
                   ExtractLocationFromQuery (message request);
                   GetSupportedCities],
       Ok {| resp_message := question_text env cities;
             recommendations := [];
             llm_provider_used := llm_provider request;
             cache_used := false;
             cache_age_hours := None;
             extracted_preferences := Some p;
             extraction_summary := None;
             usage_stats := None;
             trial_exceeded := false;
             resp_conversation_id := cid |})).
  { unfold reply_turn. rewrite Hinit.
    unfold bind at 1. unfold bind at 1. unfold perform at 1.
    rewrite Hp. unfold ret at 1. unfold bind at 1.
    rewrite (determine_city_no_location env request (Some p) heuristic
               _ Hnoloc Hq).
    assert (Hdec : match heuristic with
                   | Some q => if str_truthy q then (Some (str_lower env q), true)
                               else (None, false)
                   | None => (None, false)
                   end = (@None string, false)).
    { destruct heuristic as [q|]; [|reflexivity].
      simpl in Hnoq. by rewrite Hnoq. }
    rewrite Hdec. cbn [andb negb].
    unfold location_question, bind, perform, ret. rewrite Hcities.
    subst opening. rewrite <- !app_assoc. cbn [app]. reflexivity. }
  eexists _, _, stamp. split.
  - apply public_chat_ok. rewrite Hopen. exact Hreply.
  - split; [reflexivity|]. split; [reflexivity|]. split; [|split; [|split]].
    + unfold saved_messages in *. rewrite omap_app, Hsaved. reflexivity.
    + reflexivity.
    + reflexivity.
    + apply Forall_app. split; [exact Hsearch | by repeat constructor].
Qed.

Lemma clarifying_question_witness :
  let env := sample_env (Ok None) false no_preferences None [] None in
  let request := initial_request "anything fun?" in
  exists log r stamp,
    public_chat env request ("alice"%string, sample_info) [] = (log, Ok r)
    /\ resp_message r = question_text env ["new_york"; "los_angeles"]%string
    /\ recommendations r = []
    /\ saved_messages log = [user_message request stamp]
    /\ role (user_message request stamp) = "user"%string
    /\ content (user_message request stamp) = message request
    /\ Forall (fun c => is_search c = false) log.
Proof.
  intros env request.
  exact (clarifying_question env request "alice" "conv-1" sample_info
           (headers_log sample_info) None no_preferences None
           ["new_york"; "los_angeles"]%string
           eq_refl eq_refl eq_refl eq_refl (fun _ => eq_refl)
           eq_refl eq_refl eq_refl eq_refl eq_refl).
Defined.

Lemma append_assoc (a b c : string) : (a +:+ b) +:+ c = a +:+ (b +:+ c).
Proof.
  induction a as [|x a IH]; [reflexivity|].
  change (String x ((a +:+ b) +:+ c) = String x (a +:+ (b +:+ c))).
  by f_equal.
Qed.

Lemma determine_city_extracted (env : collaborators) (request : ChatRequest)
    (p : UserPreferences) (loc : string) (log : list call) :
  location p = Some loc ->
  loc <> ""%string -> loc <> "none"%string ->
  str_lower env loc <> ""%string ->
  determine_city env request (Some p) log
  = (log, Ok (Some (str_lower env loc), true)).
Proof.
  intros Hloc Hne Hnone Hlow. unfold determine_city. rewrite Hloc.
  rewrite (proj2 (str_truthy_true loc) Hne).
  destruct (String.eqb loc "none") eqn:E.
  - apply String.eqb_eq in E. contradiction.
  - cbn [andb negb opt_truthy].
    by rewrite (proj2 (str_truthy_true _) Hlow).
Qed.

(** The message of a completed search is the text of step 8. *)
Lemma search_and_reply_message (env : collaborators) (request : ChatRequest)
    (user_id cid : string) (usage : option dict)
    (extracted : option UserPreferences) (city : string) (provided : bool)
    (log log' : list call) (r : ChatResponse) :
  search_and_reply env request user_id cid usage extracted city provided log
  = (log', Ok r) ->
  exists top, resp_message r = response_text env city provided top.
Proof.
  unfold search_and_reply. unfold bind at 1.
  destruct (acquire_events env city log) as [l1 [[[events cu] age]|e]];
    [|discriminate].
  unfold bind at 1. unfold perform at 1.
  destruct (intelligent_event_search env (message request) events extracted)
    as [top|e]; [|discriminate].
  unfold bind, perform, now_isoformat, ret.
  destruct (save_message _ _ _ _); [|discriminate].
  destruct (update_metadata _ _ _ _); [|discriminate].
  intros [= _ <-]. exists top. reflexivity.
Qed.

Lemma response_text_default_note (env : collaborators) (top : list dict) :
  exists pre post,
    response_text env "new york" false top = pre +:+ default_note +:+ post.
Proof.
  unfold response_text.
  replace (negb false && String.eqb "new york" "new york") with true
    by reflexivity.
  destruct top as [|e top].
  - exists ("😔 I couldn't find any events in " +:+ str_title env "new york"
            +:+ " matching your query.").
    eexists. rewrite !append_assoc. reflexivity.
  - exists ("🎉 Found " +:+ pretty (length (e :: top)) +:+ " events in "
            +:+ str_title env "new york" +:+ " that match your search!").
    eexists. rewrite !append_assoc. reflexivity.
Qed.

(** [cache_used] and the reported age, by what the cache manager
    returned; formatting a null age for the log line of the cached branch
    raises. *)
Lemma acquire_events_outcome (env : collaborators) (city : string)
    (events : list dict) (age : option Q) (log : list call) :
  get_cached_events env city = Ok events ->
  get_cache_age env city = Ok age ->
  acquire_events env city log
  = (log ++ [GetCachedEvents city; GetCacheAge city],
     match events, age with
     | [], _ => Ok ([], false, None)
     | _ :: _, Some a => Ok (events, Qgtb a 0, Some a)
     | _ :: _, None =>
         Raise (Exception
                  "unsupported format string passed to NoneType.__format__")
     end).
Proof.
  intros He Ha. unfold acquire_events, bind, perform. rewrite He, Ha.
  rewrite <- app_assoc. cbn [app].
  destruct events as [|e es]; [reflexivity|].
  destruct age as [a|]; reflexivity.
Qed.

(** A search that is answered: the corpus and its age arrive (an age
    whenever there are events), the search and the storage answer.  Then
    the turn is answered, with the text of step 8. *)
Lemma search_and_reply_answers (env : collaborators) (request : ChatRequest)
    (user_id cid : string) (usage : option dict)
    (extracted : option UserPreferences) (city : string) (provided : bool)
    (events top : list dict) (age : option Q) (log : list call) :
  get_cached_events env city = Ok events ->
  get_cache_age env city = Ok age ->
  (events <> [] -> age <> None) ->
  intelligent_event_search env (message request) events extracted = Ok top ->
  (forall m, save_message env user_id cid m = Ok tt) ->
  (forall stamp, update_metadata env user_id cid stamp = Ok tt) ->
  exists log' r,
    search_and_reply env request user_id cid usage extracted city provided
      log = (log', Ok r)
    /\ resp_message r = response_text env city provided top
    /\ cache_used r
       = match events, age with
         | _ :: _, Some a => Qgtb a 0
         | _, _ => false
         end
    /\ cache_age_hours r = match events with [] => None | _ => age end.
Proof.
  intros He Ha Hage Hsearch Hsave Hupd.
  unfold search_and_reply. unfold bind at 1.
  rewrite (acquire_events_outcome env city events age log He Ha).
  destruct events as [|e es].
  - unfold bind, perform, now_isoformat, ret.
    rewrite Hsearch, Hsave, Hupd. eexists _, _. by repeat split.
  - destruct age as [a|]; [|by destruct Hage].
    unfold bind, perform, now_isoformat, ret.
    rewrite Hsearch, Hsave, Hupd. eexists _, _. by repeat split.
Qed.

Lemma final_city_set (s : string) :
  s <> ""%string -> final_city (Some s) = s.
Proof.
  intros Hs. unfold final_city. cbn [opt_truthy].
  by rewrite (proj2 (str_truthy_true s) Hs).
Qed.

(** The extraction step of [reply_turn]. *)
Lemma reply_turn_extracted (env : collaborators) (request : ChatRequest)
    (user_id cid : string) (usage : option dict)
    (extracted : option UserPreferences) (log : list call) :
  extraction_outcome env request extracted ->
  reply_turn env request user_id cid usage log
  = bind (determine_city env request extracted)
      (fun decided =>
         let '(city, location_provided) := decided in
         if is_initial_response request && negb location_provided
         then location_question env request extracted cid
         else search_and_reply env request user_id cid usage extracted
                (final_city city) location_provided)
      (log ++ extraction_calls request).
Proof.
  unfold extraction_outcome, extraction_calls, reply_turn.
  destruct (is_initial_response request).
  - intros (p & -> & Hp). unfold bind at 1. unfold bind at 1.
    unfold perform at 1. rewrite Hp. reflexivity.
  - intros ->. unfold bind at 1. unfold ret at 1. by rewrite app_nil_r.
Qed.

(** The three ways [reply_turn] comes to search, by where the city came
    from. *)
Lemma reply_turn_city (env : collaborators) (request : ChatRequest)
    (user_id cid : string) (usage : option dict) (log : list call) :
  (forall p loc,
      is_initial_response request = true ->
      extract_user_preferences env (message request) = Ok p ->
      location p = Some loc ->
      loc <> ""%string -> loc <> "none"%string ->
      str_lower env loc <> ""%string ->
      reply_turn env request user_id cid usage log
      = search_and_reply env request user_id cid usage (Some p)
          (str_lower env loc) true
          (log ++ [ExtractUserPreferences (message request)]))
  /\ (forall extracted q,
        extraction_outcome env request extracted ->
        no_extracted_location extracted ->
        extract_location_from_query env (message request) = Ok (Some q) ->
        q <> ""%string -> str_lower env q <> ""%string ->
        reply_turn env request user_id cid usage log
        = search_and_reply env request user_id cid usage extracted
            (str_lower env q) true
            (log ++ extraction_calls request
                 ++ [ExtractLocationFromQuery (message request)]))
  /\ (forall heuristic,
        is_initial_response request = false ->
        extract_location_from_query env (message request) = Ok heuristic ->
        opt_truthy heuristic = false ->
        reply_turn env request user_id cid usage log
        = search_and_reply env request user_id cid usage None
            "new york" false
            (log ++ [ExtractLocationFromQuery (message request)])).
Proof.
  split; [|split].
  - intros p loc Hinit Hp Hloc Hne Hnone Hlow.
    rewrite (reply_turn_extracted env request user_id cid usage (Some p)).
    2:{ unfold extraction_outcome. rewrite Hinit. by exists p. }
    unfold extraction_calls. rewrite Hinit. unfold bind.
    rewrite (determine_city_extracted env request p loc _ Hloc Hne Hnone Hlow).
    cbn [negb]. rewrite andb_false_r.
    by rewrite (final_city_set _ Hlow).
  - intros extracted q Hext Hno Hq Hne Hlow.
    rewrite (reply_turn_extracted env request user_id cid usage extracted
               log Hext).
    unfold bind.
    rewrite (determine_city_no_location env request extracted (Some q)
               _ Hno Hq).
    rewrite (proj2 (str_truthy_true q) Hne). cbn [negb].
    rewrite andb_false_r, (final_city_set _ Hlow), <- app_assoc.
    reflexivity.
  - intros heuristic Hinit Hq Hnoq.
    rewrite (reply_turn_extracted env request user_id cid usage None).
    2:{ unfold extraction_outcome. by rewrite Hinit. }
    unfold extraction_calls. rewrite Hinit, app_nil_r. unfold bind.
    rewrite (determine_city_no_location env request None heuristic
               _ I Hq).
    assert (Hdec : match heuristic with
                   | Some q => if str_truthy q
                               then (Some (str_lower env q), true)
                               else (None, false)
                   | None => (None, false)
                   end = (@None string, false)).
    { destruct heuristic as [q|]; [|reflexivity].
      simpl in Hnoq. by rewrite Hnoq. }
    rewrite Hdec. reflexivity.
Qed.

(** The corpus lookups and heuristic queries of a search: one lookup, for
    the city of the search, and no query. *)
Lemma search_and_reply_lookups (env : collaborators) (request : ChatRequest)
    (user_id cid : string) (usage : option dict)
    (extracted : option UserPreferences) (city : string) (provided : bool)
    (log : list call) :
  let log' := fst (search_and_reply env request user_id cid usage extracted
                     city provided log) in
  searched_cities log' = searched_cities log ++ [city]
  /\ heuristic_queries log' = heuristic_queries log.
Proof.
  cbv zeta.
  unfold search_and_reply, acquire_events, format_1f, bind, perform, ret,
    raise, now_isoformat, searched_cities, heuristic_queries.
  destruct (get_cached_events env city) as [[|ev evs]|?];
    destruct (get_cache_age env city) as [[age|]|?];
    repeat match goal with
           | |- context [match ?x with Ok _ => _ | Raise _ => _ end] =>
               destruct x
           end;
    cbn [fst]; rewrite ?omap_app; cbn [omap]; rewrite ?app_nil_r;
    by split.
Qed.

(** Nothing before the city is decided looks up a corpus, and only the
    heuristic extraction logs a query. *)
Lemma opening_log_lookups (request : ChatRequest) (user_id cid : string)
    (info : RateLimiter.rate_limit_info) (log : list call) (stamp : string) :
  (log = headers_log info
   \/ exists c, log = headers_log info ++ [GetConversation user_id c]) ->
  let opening :=
    log ++ gate_calls user_id ++ create_calls request user_id
        ++ [SaveMessage user_id cid (user_message request stamp)] in
  searched_cities (opening ++ extraction_calls request) = []
  /\ heuristic_queries (opening ++ extraction_calls request) = []
  /\ searched_cities opening = []
  /\ heuristic_queries opening = [].
Proof.
  intros Hlog. cbv zeta.
  unfold searched_cities, heuristic_queries, gate_calls, create_calls,
    extraction_calls.
  rewrite !omap_app.
  destruct (is_anonymous user_id),
    (opt_truthy (conversation_id request)),
    (is_initial_response request),
    Hlog as [-> | [c ->]]; by repeat split.
Qed.

Lemma public_chat_ok_body (env : collaborators) (request : ChatRequest)
    (rl : string * RateLimiter.rate_limit_info) (log : list call)
    (r : ChatResponse) :
  snd (public_chat env request rl log) = Ok r ->
  snd (public_chat_body env request rl log) = Ok r.
Proof.
  unfold public_chat, try_except.
  destruct (public_chat_body env request rl log) as [log' [r'|[c d|t]]];
    cbn [snd]; intros H; (exact H || discriminate H).
Qed.

(** A turn whose body comes to the search for [city] with no corpus looked
    up before. *)
Lemma search_turn (env : collaborators) (request : ChatRequest)
    (user_id cid : string) (info : RateLimiter.rate_limit_info)
    (usage : option dict) (extracted : option UserPreferences)
    (city : string) (provided : bool) (log : list call) :
  public_chat_body env request (user_id, info) []
  = search_and_reply env request user_id cid usage extracted city provided
      log ->
  searched_cities log = [] ->
  searches_for env request user_id cid extracted city provided
    (public_chat env request (user_id, info) [])
  /\ heuristic_queries (fst (public_chat env request (user_id, info) []))
     = heuristic_queries log.
Proof.
  intros Hbody Hnone.
  destruct (search_and_reply_lookups env request user_id cid usage extracted
              city provided log) as [Hs Hq].
  unfold searches_for. rewrite public_chat_log, Hbody.
  split; [split; [|split]|].
  - by rewrite Hs, Hnone.
  - intros r Hr. apply public_chat_ok_body in Hr. rewrite Hbody in Hr.
    destruct (search_and_reply env request user_id cid usage extracted city
                provided log) as [log' out] eqn:E.
    cbn [snd] in Hr. subst out.
    exact (search_and_reply_message _ _ _ _ _ _ _ _ _ _ _ E).
  - intros (events & age & top & He & Ha & Hage & Hsearch & Hsave & Hupd).
    destruct (search_and_reply_answers env request user_id cid usage
                extracted city provided events top age log
                He Ha Hage Hsearch Hsave Hupd) as (log' & r & Hr & _).
    exists r. rewrite <- Hbody in Hr.
    by rewrite (public_chat_ok _ _ _ _ _ _ Hr).
  - exact Hq.
Qed.

(** C6.  The city of a turn that has come to the extraction step, in
    priority order.
    (i) When the extracted preferences carry a location that is set, not
    empty and not ["none"], the turn searches for that location,
    lowercased: the cache is asked for its corpus and for no other, the
    heuristic is not consulted, and the answer names it.
    (ii) Otherwise, when the heuristic over the message text finds a
    location, the turn searches for it, lowercased.
    (iii) Otherwise, on a turn that is not initial, the turn searches for
    ["new york"] and the message of the answer carries the note about the
    default.
    In each case the turn answers when the collaborators of the search
    do. *)
Theorem city_resolution (env : collaborators) (request : ChatRequest)
    (user_id cid : string) (info : RateLimiter.rate_limit_info)
    (log1 : list call) (usage : option dict) :
  verify_ownership env request user_id (headers_log info) = (log1, Ok tt) ->
  passes_gate env user_id usage ->
  materialised env request user_id cid ->
  (forall stamp,
      save_message env user_id cid (user_message request stamp) = Ok tt) ->
  let turn := public_chat env request (user_id, info) [] in
  (forall p loc,
      is_initial_response request = true ->
      extract_user_preferences env (message request) = Ok p ->
      location p = Some loc ->
      loc <> ""%string -> loc <> "none"%string ->
      str_lower env loc <> ""%string ->
      searches_for env request user_id cid (Some p) (str_lower env loc) true
        turn
      /\ heuristic_queries (fst turn) = [])
  /\ (forall extracted q,
        extraction_outcome env request extracted ->
        no_extracted_location extracted ->
        extract_location_from_query env (message request) = Ok (Some q) ->
        q <> ""%string -> str_lower env q <> ""%string ->
        searches_for env request user_id cid extracted (str_lower env q) true
          turn
        /\ heuristic_queries (fst turn) = [message request])
  /\ (forall heuristic,
        is_initial_response request = false ->
        extract_location_from_query env (message request) = Ok heuristic ->
        opt_truthy heuristic = false ->
        searches_for env request user_id cid None "new york" false turn
        /\ heuristic_queries (fst turn) = [message request]
        /\ forall r, snd turn = Ok r ->
             exists pre post,
               resp_message r = pre +:+ default_note +:+ post).
Proof.
  intros Hv Hgate Hconv Hsave turn. subst turn.
  destruct (turn_opened env request user_id cid info log1 usage
              Hv Hgate Hconv Hsave) as [stamp Hopen].
  pose proof (opening_log_lookups request user_id cid info log1 stamp
                (verified_log _ _ _ _ _ _ Hv)) as (Hs1 & Hq1 & Hs0 & Hq0).
  cbv zeta in Hs1, Hq1, Hs0, Hq0.
  set (opening := log1 ++ gate_calls user_id ++ create_calls request user_id
                       ++ [SaveMessage user_id cid
                             (user_message request stamp)]) in *.
  destruct (reply_turn_city env request user_id cid usage opening)
    as (Hi & Hii & Hiii).
  split; [|split].
  - intros p loc Hinit Hp Hloc Hne Hnone Hlow.
    rewrite (Hi p loc Hinit Hp Hloc Hne Hnone Hlow) in Hopen.
    unfold extraction_calls in Hs1, Hq1. rewrite Hinit in Hs1, Hq1.
    destruct (search_turn _ _ _ _ _ _ _ _ _ _ Hopen Hs1) as [H1 H2].
    split; [exact H1 | by rewrite H2].
  - intros extracted q Hext Hno Hq Hne Hlow.
    rewrite (Hii extracted q Hext Hno Hq Hne Hlow) in Hopen.
    rewrite app_assoc in Hopen.
    assert (Hs : searched_cities
                   ((opening ++ extraction_calls request)
                    ++ [ExtractLocationFromQuery (message request)]) = []).
    { unfold searched_cities in *. by rewrite omap_app, Hs1. }
    destruct (search_turn _ _ _ _ _ _ _ _ _ _ Hopen Hs) as [H1 H2].
    split; [exact H1|]. rewrite H2.
    unfold heuristic_queries in *. by rewrite omap_app, Hq1.
  - intros heuristic Hinit Hq Hnoq.
    rewrite (Hiii heuristic Hinit Hq Hnoq) in Hopen.
    assert (Hs : searched_cities
                   (opening ++ [ExtractLocationFromQuery (message request)])
                 = []).
    { unfold searched_cities in *. by rewrite omap_app, Hs0. }
    destruct (search_turn _ _ _ _ _ _ _ _ _ _ Hopen Hs) as [H1 H2].
    split; [exact H1|]. split.
    + rewrite H2. unfold heuristic_queries in *. by rewrite omap_app, Hq0.
    + intros r Hr. destruct H1 as (_ & Hmsg & _).
      destruct (Hmsg r Hr) as [top ->].
      apply response_text_default_note.
Qed.

Lemma city_resolution_witness :
  (let env := sample_env (Ok None) false paris_preferences None
                [sample_event] (Some (5 # 2)) in
   let request := initial_request "concerts in Paris" in
   let turn := public_chat env request ("alice"%string, sample_info) [] in
   searched_cities (fst turn) = ["paris"%string]
   /\ heuristic_queries (fst turn) = []
   /\ exists r top,
        snd turn = Ok r
        /\ resp_message r = response_text env "paris" true top)
  /\ (let env := sample_env (Ok None) false no_preferences
                   (Some "Boston"%string) [sample_event] (Some (5 # 2)) in
      let request := initial_request "concerts in Boston" in
      let turn := public_chat env request ("alice"%string, sample_info) [] in
      searched_cities (fst turn) = ["boston"%string]
      /\ heuristic_queries (fst turn) = ["concerts in Boston"%string])
  /\ (let env := sample_env (Ok (Some alice_conversation)) false
                   no_preferences None [sample_event] (Some (5 # 2)) in
      let request := follow_up_request "more concerts" in
      let turn := public_chat env request ("alice"%string, sample_info) [] in
      searched_cities (fst turn) = ["new york"%string]
      /\ exists r pre post,
           snd turn = Ok r
           /\ resp_message r = pre +:+ default_note +:+ post).
Proof.
  split; [|split].
  - intros env request turn.
    destruct (city_resolution env request "alice" "conv-1" sample_info
                (headers_log sample_info) None
                eq_refl eq_refl eq_refl (fun _ => eq_refl)) as (H & _).
    destruct (H paris_preferences "Paris"%string eq_refl eq_refl eq_refl
                ltac:(discriminate) ltac:(discriminate) ltac:(discriminate))
      as ((Hs & Hmsg & Hans) & Hq).
    split; [exact Hs|]. split; [exact Hq|].
    destruct Hans as [r Hr].
    { exists [sample_event], (Some (5 # 2)), [sample_event].
      repeat split; discriminate. }
    destruct (Hmsg r Hr) as [top Htop].
    exists r, top. split; [exact Hr | exact Htop].
  - intros env request turn.
    destruct (city_resolution env request "alice" "conv-1" sample_info
                (headers_log sample_info) None
                eq_refl eq_refl eq_refl (fun _ => eq_refl)) as (_ & H & _).
    destruct (H (Some no_preferences) "Boston"%string
                (ex_intro _ no_preferences (conj eq_refl eq_refl))
                eq_refl eq_refl ltac:(discriminate) ltac:(discriminate))
      as ((Hs & _) & Hq).
    by split.
  - intros env request turn.
    destruct (city_resolution env request "alice" "c1" sample_info
                (headers_log sample_info ++ [GetConversation "alice" "c1"])
                None eq_refl eq_refl eq_refl (fun _ => eq_refl))
      as (_ & _ & H).
    destruct (H None eq_refl eq_refl eq_refl)
      as ((Hs & _ & Hans) & _ & Hnote).
    split; [exact Hs|].
    destruct Hans as [r Hr].
    { exists [sample_event], (Some (5 # 2)), [sample_event].
      repeat split; discriminate. }
    destruct (Hnote r Hr) as (pre & post & Hm).
    exists r, pre, post. split; [exact Hr | exact Hm].
Defined.

(** *** The corpus and its age *)

(** C7, where the handler departs from it: events are obtained and the
    cache manager reports no age.  The turn does not answer with
    [cache_used = false]; it ends in a 500, after the caller's message was
    saved and before any search. *)
Theorem null_cache_age_is_a_server_error :
  public_chat
    (sample_env (Ok (Some alice_conversation)) false no_preferences
       (Some "Boston"%string) [sample_event] None)
    (follow_up_request "jazz") ("alice"%string, sample_info) []
  = (headers_log sample_info
       ++ [GetConversation "alice" "c1";
           SaveMessage "alice" "c1"
             (user_message (follow_up_request "jazz") "2025-01-01T00:00:00");
           ExtractLocationFromQuery "jazz";
           GetCachedEvents "boston"; GetCacheAge "boston"],
     Raise (HTTPException 500
              ("Error processing chat request: "
               +:+ "unsupported format string passed to NoneType.__format__"))).
Proof. vm_compute. reflexivity. Qed.

(** The cases of C7 that hold: with events and an age, [cache_used] is
    [age > 0]; with no events, [cache_used] is false and no age is
    reported. *)
Lemma cache_used_when_answered (env : collaborators) (city : string)
    (events : list dict) (age : option Q) (log log' : list call)
    (got : list dict) (used : bool) (reported : option Q) :
  get_cached_events env city = Ok events ->
  get_cache_age env city = Ok age ->
  acquire_events env city log = (log', Ok (got, used, reported)) ->
  (used = true <-> exists a, reported = Some a /\ (0 < a)%Q)
  /\ (events = [] -> used = false /\ reported = None).
Proof.
  intros He Ha. rewrite (acquire_events_outcome env city events age log He Ha).
  destruct events as [|e es].
  - intros [= _ <- <- <-]. split; [|by split].
    split; [discriminate | intros (a & [=] & _)].
  - destruct age as [a|]; [|discriminate].
    intros [= _ <- <- <-]. split; [|discriminate].
    rewrite Qgtb_true. split.
    + intros Hlt. by exists a.
    + intros (a' & [= <-] & Hlt). exact Hlt.
Qed.

(** *** The request body *)




(** What the handler does with that body: the empty message is saved to a
    new conversation and answered. *)
Lemma empty_message_saved :
  let env := sample_env (Ok None) false no_preferences None [] None in
  saved_messages
    (fst (snd (submit_chat_turn default_config env ∅ "alice" (1 # 2)
                 empty_message_body)))
  = [ {| role := "user"; content := ""; timestamp := "2025-01-01T00:00:00";
         msg_recommendations := None; msg_extracted_preferences := None;
         msg_cache_used := None; msg_cache_age_hours := None |};
      {| role := "assistant";
         content := response_text env "new york" false [];
         timestamp := "2025-01-01T00:00:00";
         msg_recommendations := Some [];
         msg_extracted_preferences := Some None;
         msg_cache_used := Some false;
         msg_cache_age_hours := Some None |} ].
Proof. vm_compute. reflexivity. Qed.

End RouterSpec.


(* ===================================================================== *)
(** ** The rate limiter over schedules of calls *)
(* ===================================================================== *)

Module RateLimiterSchedules.
Import RateLimiter RateLimiterSpec.

Lemma total_ones (l : list entry) : ones l -> total l = Z.of_nat (length l).
Proof.
  unfold ones, total. induction 1 as [|e l He _ IH]; [reflexivity|].
  cbn [map foldr length]. rewrite IH, He. lia.
Qed.

Lemma survivors_ones (cfg : config) (now : Q) (l : list entry) :
  ones l -> ones (survivors cfg now l).
Proof.
  unfold ones, survivors. induction 1 as [|e l He _ IH]; [constructor|].
  rewrite filter_cons. destruct (decide _); [constructor|]; assumption.
Qed.

Lemma survivors_length (cfg : config) (now : Q) (l : list entry) :
  (length (survivors cfg now l) <= length l)%nat.
Proof. unfold survivors. apply length_filter. Qed.

Lemma allowed_eq (cfg : config) (st : store) (u : string) (t : Q) :
  fst (snd (check_rate_limit cfg st u t))
  = (total (survivors cfg t (requests_of st u)) <? max_requests cfg).
Proof. by rewrite check_rate_limit_result. Qed.

Lemma remaining_eq (cfg : config) (st : store) (u : string) (t : Q) :
  remaining (snd (snd (check_rate_limit cfg st u t)))
  = Z.max 0 (max_requests cfg - total (survivors cfg t (requests_of st u))).
Proof. by rewrite check_rate_limit_result. Qed.

Lemma requests_of_check_own (cfg : config) (st : store) (u : string) (t : Q) :
  requests_of (fst (check_rate_limit cfg st u t)) u
  = survivors cfg t (requests_of st u)
    ++ (if fst (snd (check_rate_limit cfg st u t)) then [(t, 1)] else []).
Proof. by rewrite check_rate_limit_store, requests_of_store_after. Qed.

Lemma requests_of_check_other (cfg : config) (st : store) (u v : string)
    (t : Q) :
  u <> v ->
  requests_of (fst (check_rate_limit cfg st u t)) v = requests_of st v.
Proof.
  intros Hne. unfold requests_of.
  by rewrite (check_rate_limit_other cfg st u v t Hne).
Qed.

Lemma run_store_cons (cfg : config) (u : string) (t : Q)
    (calls : list (string * Q)) (st : store) :
  fst (run cfg ((u, t) :: calls) st)
  = fst (run cfg calls (fst (check_rate_limit cfg st u t))).
Proof. by rewrite run_cons. Qed.

(** *** What a store can hold *)

Lemma bounded_step (cfg : config) (st : store) (u : string) (t : Q) :
  bounded cfg st -> bounded cfg (fst (check_rate_limit cfg st u t)).
Proof.
  intros Hb v. destruct (decide (u = v)) as [<- | Hne].
  - destruct (Hb u) as [Hones Hlen].
    rewrite requests_of_check_own, allowed_eq.
    pose proof (survivors_ones cfg t _ Hones) as Hso.
    pose proof (survivors_length cfg t (requests_of st u)) as Hsl.
    destruct (Z.ltb_spec (total (survivors cfg t (requests_of st u)))
                          (max_requests cfg)) as [Hlt | Hge].
    + split.
      * apply Forall_app. split; [exact Hso | by repeat constructor].
      * rewrite length_app. cbn [length].
        rewrite (total_ones _ Hso) in Hlt. lia.
    + rewrite app_nil_r. split; [exact Hso | lia].
  - rewrite (requests_of_check_other cfg st u v t Hne). apply Hb.
Qed.

Lemma bounded_run (cfg : config) (calls : list (string * Q)) (st : store) :
  bounded cfg st -> bounded cfg (fst (run cfg calls st)).
Proof.
  revert st. induction calls as [|[u t] calls IH]; intros st Hb.
  - exact Hb.
  - rewrite run_store_cons. apply IH, bounded_step, Hb.
Qed.

Lemma bounded_empty (cfg : config) : bounded cfg ∅.
Proof.
  intros v. unfold requests_of. rewrite lookup_empty. cbn.
  split; [constructor | lia].
Qed.

(** X1: a store built by calls alone holds, for each identity, entries of
    count one and at most [max_requests] of them (none when the limit is
    not positive), whatever the clock did. *)
Theorem stored_entries_bounded (cfg : config) (calls : list (string * Q))
    (u : string) :
  ones (requests_of (fst (run cfg calls ∅)) u)
  /\ Z.of_nat (length (requests_of (fst (run cfg calls ∅)) u))
     <= Z.max 0 (max_requests cfg).
Proof. apply (bounded_run cfg calls ∅ (bounded_empty cfg) u). Qed.

(** *** Admission and the sliding window *)

Lemma admitted_calls_cons (cfg : config) (u : string) (t : Q)
    (calls : list (string * Q)) (st : store) :
  admitted_calls cfg ((u, t) :: calls) st
  = (if fst (snd (check_rate_limit cfg st u t)) then [(u, t)] else [])
    ++ admitted_calls cfg calls (fst (check_rate_limit cfg st u t)).
Proof.
  cbn [admitted_calls].
  by destruct (check_rate_limit cfg st u t) as [st1 [ok info]].
Qed.

Lemma calls_after_app (u : string) (c : Q) (l1 l2 : list (string * Q)) :
  calls_after u c (l1 ++ l2) = (calls_after u c l1 + calls_after u c l2)%nat.
Proof. unfold calls_after. by rewrite filter_app, length_app. Qed.

Lemma filter_survivors_after (cfg : config) (t c : Q) (l : list entry) :
  (t - inject_Z (window_seconds cfg) <= c)%Q ->
  filter (fun e : entry => (c < fst e)%Q) (survivors cfg t l)
  = filter (fun e : entry => (c < fst e)%Q) l.
Proof.
  intros Hc. unfold survivors. induction l as [|e l IH]; [reflexivity|].
  rewrite !filter_cons.
  destruct (decide (c < fst e)%Q) as [Hlt | Hnlt].
  - rewrite decide_True by (eapply Qle_lt_trans; eassumption).
    rewrite filter_cons, decide_True by exact Hlt. by rewrite IH.
  - destruct (decide _); [|exact IH].
    rewrite filter_cons, decide_False by exact Hnlt. exact IH.
Qed.

Lemma tracks_step (cfg : config) (st : store) (past : list (string * Q))
    (now t : Q) (v : string) :
  tracks cfg st past now ->
  (now <= t)%Q ->
  tracks cfg (fst (check_rate_limit cfg st v t))
    (past ++ (if fst (snd (check_rate_limit cfg st v t)) then [(v, t)] else []))
    t.
Proof.
  intros Htr Hnow u c Hc.
  assert (Hc' : (now - inject_Z (window_seconds cfg) <= c)%Q).
  { eapply Qle_trans; [|exact Hc].
    apply (Qplus_le_l _ _ (inject_Z (window_seconds cfg))).
    ring_simplify. exact Hnow. }
  rewrite calls_after_app, (Htr u c Hc').
  destruct (decide (v = u)) as [-> | Hne].
  - rewrite requests_of_check_own, filter_app, length_app.
    rewrite (filter_survivors_after cfg t c _ Hc). f_equal.
    unfold calls_after.
    destruct (fst (snd (check_rate_limit cfg st u t))); [|reflexivity].
    rewrite !filter_cons, !filter_nil. cbn [fst snd].
    destruct (decide (c < t)%Q) as [Hlt | Hnlt].
    + by rewrite decide_True.
    + rewrite decide_False; [reflexivity | by intros [_ ?]].
  - rewrite (requests_of_check_other cfg st v u t Hne).
    replace (calls_after u c _) with 0%nat; [lia|].
    unfold calls_after.
    destruct (fst (snd (check_rate_limit cfg st v t))); [|reflexivity].
    rewrite filter_cons, decide_False; [reflexivity|].
    cbn [fst]. by intros [? _].
Qed.

Lemma admitted_iff_room_from (cfg : config) (u : string) (t : Q)
    (pre : list (string * Q)) :
  forall (st : store) (past : list (string * Q)) (now : Q),
    tracks cfg st past now ->
    bounded cfg st ->
    monotone_from now (pre ++ [(u, t)]) ->
    fst (snd (check_rate_limit cfg (fst (run cfg pre st)) u t))
    = bool_decide
        (Z.of_nat (calls_after u (t - inject_Z (window_seconds cfg))
                     (past ++ admitted_calls cfg pre st))
         < max_requests cfg).
Proof.
  induction pre as [|[v s] pre IH]; intros st past now Htr Hb Hmono.
  - cbn [run fst app admitted_calls]. rewrite app_nil_r.
    destruct Hmono as [Hnow _].
    rewrite allowed_eq.
    assert (Hc : (now - inject_Z (window_seconds cfg)
                  <= t - inject_Z (window_seconds cfg))%Q).
    { apply (Qplus_le_l _ _ (inject_Z (window_seconds cfg))).
      ring_simplify. exact Hnow. }
    rewrite (Htr u _ Hc).
    rewrite (total_ones _ (survivors_ones cfg t _ (proj1 (Hb u)))).
    unfold survivors.
    destruct (Z.ltb_spec
                (Z.of_nat (length (filter
                   (fun e : entry =>
                      (t - inject_Z (window_seconds cfg) < fst e)%Q)
                   (requests_of st u))))
                (max_requests cfg)).
    + by rewrite bool_decide_eq_true_2.
    + rewrite bool_decide_eq_false_2; [reflexivity | lia].
  - cbn [app] in Hmono. destruct Hmono as [Hnow Hmono].
    rewrite run_store_cons, admitted_calls_cons, app_assoc.
    apply (IH _ _ s).
    + exact (tracks_step cfg st past now s v Htr Hnow).
    + by apply bounded_step.
    + exact Hmono.
Qed.

Lemma tracks_empty (cfg : config) (now : Q) : tracks cfg ∅ [] now.
Proof.
  intros u c _. unfold calls_after, requests_of.
  by rewrite lookup_empty.
Qed.

(** X2: along a schedule whose clock never goes back, started on an empty
    store, a call of [u] at [t] is admitted exactly when fewer than
    [max_requests] of the admitted earlier calls of [u] were made after
    [t - window_seconds]. *)
Theorem admitted_iff_window_has_room (cfg : config) (u : string) (t : Q)
    (pre : list (string * Q)) :
  clock_monotone (pre ++ [(u, t)]) ->
  fst (snd (check_rate_limit cfg (fst (run cfg pre ∅)) u t))
  = bool_decide
      (Z.of_nat (calls_after u (t - inject_Z (window_seconds cfg))
                   (admitted_calls cfg pre ∅))
       < max_requests cfg).
Proof.
  intros Hmono.
  assert (Hfrom : exists now, monotone_from now (pre ++ [(u, t)])).
  { destruct pre as [|[v s] pre].
    - exists t. exact Hmono.
    - exists s. exact Hmono. }
  destruct Hfrom as [now Hfrom].
  exact (admitted_iff_room_from cfg u t pre ∅ [] now (tracks_empty cfg now)
           (bounded_empty cfg) Hfrom).
Qed.

Lemma admitted_iff_window_has_room_witness :
  let cfg := mkConfig 2 60 in
  let pre := [("alice"%string, 0 # 1); ("bob"%string, 1 # 1);
              ("alice"%string, 10 # 1); ("alice"%string, 20 # 1)]%Q in
  clock_monotone (pre ++ [("alice"%string, (61 # 1)%Q)])
  /\ admitted_calls cfg pre ∅
     = [("alice"%string, 0 # 1); ("bob"%string, 1 # 1);
        ("alice"%string, 10 # 1)]%Q
  /\ fst (snd (check_rate_limit cfg (fst (run cfg pre ∅)) "alice" (61 # 1)))
     = bool_decide
         (Z.of_nat (calls_after "alice" ((61 # 1) - inject_Z 60)
                      (admitted_calls cfg pre ∅)) < 2).
Proof.
  intros cfg pre.
  assert (Hmono : clock_monotone (pre ++ [("alice"%string, (61 # 1)%Q)])).
  { cbn. repeat split; discriminate. }
  split; [exact Hmono|]. split; [vm_compute; reflexivity|].
  exact (admitted_iff_window_has_room cfg "alice" (61 # 1) pre Hmono).
Defined.

(** *** A burst of calls inside one window *)

Lemma burst_results_cons (cfg : config) (u : string) (t : Q)
    (times : list Q) (st : store) :
  burst_results cfg u (t :: times) st
  = snd (check_rate_limit cfg st u t)
    :: burst_results cfg u times (fst (check_rate_limit cfg st u t)).
Proof. unfold burst_results. cbn [map]. by rewrite run_cons. Qed.

Lemma survivors_all (cfg : config) (t : Q) (l : list entry) :
  (forall e, e ∈ l -> (t - inject_Z (window_seconds cfg) < fst e)%Q) ->
  survivors cfg t l = l.
Proof.
  unfold survivors. induction l as [|e l IH]; intros Hall; [reflexivity|].
  rewrite filter_cons, decide_True by (apply Hall; left).
  rewrite IH; [reflexivity|]. intros e' He'. apply Hall. by right.
Qed.

Lemma burst_from (cfg : config) (u : string) (times : list Q) :
  forall (st : store) (m : nat),
    length (requests_of st u) = m ->
    ones (requests_of st u) ->
    Z.of_nat m <= Z.max 0 (max_requests cfg) ->
    (forall e t, e ∈ requests_of st u -> t ∈ times ->
                 (t - inject_Z (window_seconds cfg) < fst e)%Q) ->
    within_one_window cfg times ->
    forall k r,
      burst_results cfg u times st !! k = Some r ->
      fst r = bool_decide (Z.of_nat (m + k) < max_requests cfg)
      /\ remaining (snd r)
         = Z.max 0 (max_requests cfg - Z.of_nat (m + k))
      /\ limit (snd r) = max_requests cfg.
Proof.
  induction times as [|t times IH]; intros st m Hlen Hones Hm Hold Hwin k r Hr.
  - discriminate Hr.
  - rewrite burst_results_cons in Hr.
    assert (Hsurv : survivors cfg t (requests_of st u) = requests_of st u).
    { apply survivors_all. intros e He. apply (Hold e t He). left. }
    assert (Htot : total (survivors cfg t (requests_of st u)) = Z.of_nat m).
    { rewrite Hsurv, (total_ones _ Hones), Hlen. reflexivity. }
    destruct k as [|k].
    + assert (Hr' : snd (check_rate_limit cfg st u t) = r)
        by (by injection Hr).
      subst r. rewrite Nat.add_0_r.
      rewrite allowed_eq, remaining_eq, Htot, check_rate_limit_result.
      cbn [snd limit]. split; [|by split].
      destruct (Z.ltb_spec (Z.of_nat m) (max_requests cfg)).
      * by rewrite bool_decide_eq_true_2.
      * rewrite bool_decide_eq_false_2; [reflexivity | lia].
    + cbn [lookup list_lookup] in Hr.
      pose proof (requests_of_check_own cfg st u t) as Hown.
      rewrite allowed_eq, Htot, Hsurv in Hown.
      destruct (Z.ltb_spec (Z.of_nat m) (max_requests cfg)) as [Hlt | Hge].
      * destruct (IH (fst (check_rate_limit cfg st u t)) (S m)) with (k := k)
          (r := r) as (Ha & Hrem & Hlim).
        -- rewrite Hown, length_app, Hlen. cbn. lia.
        -- rewrite Hown. apply Forall_app. split; [exact Hones|].
           by repeat constructor.
        -- lia.
        -- intros e t' He Ht'. rewrite Hown in He.
           apply elem_of_app in He as [He | He].
           ++ apply (Hold e t' He). by right.
           ++ apply list_elem_of_singleton in He as ->. cbn [fst].
              apply Hwin; [by right | left].
        -- intros a b Ha Hb. apply Hwin; by right.
        -- exact Hr.
        -- replace (m + S k)%nat with (S m + k)%nat by lia. by repeat split.
      * destruct (IH (fst (check_rate_limit cfg st u t)) m) with (k := k)
          (r := r) as (Ha & Hrem & Hlim).
        -- rewrite Hown, app_nil_r. exact Hlen.
        -- rewrite Hown, app_nil_r. exact Hones.
        -- exact Hm.
        -- intros e t' He Ht'. rewrite Hown, app_nil_r in He.
           apply (Hold e t' He). by right.
        -- intros a b Ha Hb. apply Hwin; by right.
        -- exact Hr.
        -- split; [|split; [|exact Hlim]].
           ++ rewrite Ha. rewrite !bool_decide_eq_false_2; [reflexivity | lia | lia].
           ++ rewrite Hrem. lia.
Qed.

Lemma run_length (cfg : config) (calls : list (string * Q)) (st : store) :
  length (snd (run cfg calls st)) = length calls.
Proof.
  revert st. induction calls as [|[v t] calls IH]; intros st; [reflexivity|].
  rewrite run_cons. cbn [snd length]. by rewrite IH.
Qed.

(** X3: when an identity with nothing stored makes calls that all lie
    within one window of each other, the call number [k] (from 0) is
    admitted exactly when [k < max_requests] and reports
    [remaining = max 0 (max_requests - k)]: the first reports the whole
    allowance, call number [max_requests] is the first refused, and every
    refused call reports 0. *)
Theorem burst_answers (cfg : config) (u : string) (times : list Q)
    (st : store) :
  requests_of st u = [] ->
  within_one_window cfg times ->
  length (burst_results cfg u times st) = length times
  /\ forall (k : nat) (r : bool * rate_limit_info),
       burst_results cfg u times st !! k = Some r ->
       fst r = bool_decide (Z.of_nat k < max_requests cfg)
       /\ remaining (snd r) = Z.max 0 (max_requests cfg - Z.of_nat k)
       /\ limit (snd r) = max_requests cfg.
Proof.
  intros Hempty Hwin. split.
  - unfold burst_results. by rewrite length_map, run_length, length_map.
  - intros k r Hr.
    apply (burst_from cfg u times st 0); try assumption.
    + by rewrite Hempty.
    + rewrite Hempty. constructor.
    + lia.
    + intros e t He. rewrite Hempty in He. inversion He.
Qed.

Lemma burst_answers_witness :
  let cfg := mkConfig 2 60 in
  let times := [0 # 1; 10 # 1; 59 # 1]%Q in
  requests_of ∅ "alice" = []
  /\ within_one_window cfg times
  /\ map fst (burst_results cfg "alice" times ∅) = [true; true; false]
  /\ forall (k : nat) (r : bool * rate_limit_info),
       burst_results cfg "alice" times ∅ !! k = Some r ->
       fst r = bool_decide (Z.of_nat k < 2)
       /\ remaining (snd r) = Z.max 0 (2 - Z.of_nat k)
       /\ limit (snd r) = 2.
Proof.
  intros cfg times.
  assert (Hwin : within_one_window cfg times).
  { intros t t' Ht Ht'. unfold times in *.
    repeat (apply elem_of_cons in Ht as [-> | Ht]);
      repeat (apply elem_of_cons in Ht' as [-> | Ht']);
      try (by inversion Ht); try (by inversion Ht'); reflexivity. }
  split; [reflexivity|]. split; [exact Hwin|]. split; [vm_compute; reflexivity|].
  exact (proj2 (burst_answers cfg "alice" times ∅ eq_refl Hwin)).
Defined.

(** *** Retrying after the announced reset *)

Lemma py_int_lt_succ (x : Q) : (x < inject_Z (py_int x + 1))%Q.
Proof.
  destruct x as [n d]. unfold py_int, Qlt. cbn [Qnum Qden inject_Z].
  pose proof (Z.quot_rem' n (Z.pos d)) as Hqr.
  pose proof (Z.rem_bound_abs n (Z.pos d) ltac:(lia)) as Hr.
  nia.
Qed.

Lemma survivors_Forall (P : entry -> Prop) (cfg : config) (now : Q)
    (l : list entry) :
  Forall P l -> Forall P (survivors cfg now l).
Proof.
  unfold survivors. induction 1 as [|e l He _ IH]; [constructor|].
  rewrite filter_cons. destruct (decide _); [constructor|]; assumption.
Qed.

Lemma stamps_step (cfg : config) (st : store) (u : string) (t : Q) :
  stamps_in_range st -> epoch_seconds t ->
  stamps_in_range (fst (check_rate_limit cfg st u t)).
Proof.
  intros Hst Ht v. destruct (decide (u = v)) as [<- | Hne].
  - rewrite requests_of_check_own. apply Forall_app. split.
    + apply survivors_Forall, Hst.
    + destruct (fst (snd _)); [|constructor].
      constructor; [exact Ht | constructor].
  - rewrite (requests_of_check_other cfg st u v t Hne). apply Hst.
Qed.

Lemma stamps_run (cfg : config) (calls : list (string * Q)) (st : store) :
  stamps_in_range st ->
  Forall (fun c : string * Q => epoch_seconds (snd c)) calls ->
  stamps_in_range (fst (run cfg calls st)).
Proof.
  intros Hst Hcalls. revert st Hst.
  induction Hcalls as [|[u t] calls Ht _ IH]; intros st Hst.
  - exact Hst.
  - rewrite run_store_cons. by apply IH, stamps_step.
Qed.

Lemma stamps_empty : stamps_in_range ∅.
Proof. intros v. unfold requests_of. rewrite lookup_empty. constructor. Qed.

(** Calls of other identities leave the list of [u] as it is. *)
Lemma run_others (cfg : config) (u : string) (others : list (string * Q))
    (st : store) :
  Forall (fun c : string * Q => fst c <> u) others ->
  requests_of (fst (run cfg others st)) u = requests_of st u.
Proof.
  intros Ho. revert st. induction Ho as [|[v t] others Hv _ IH]; intros st.
  - reflexivity.
  - rewrite run_store_cons, IH. by apply requests_of_check_other.
Qed.

(** The announced reset is less than a second before the instant at which
    the oldest kept entry leaves the window. *)
Lemma reset_covers_oldest (cfg : config) (t : Q) :
  0 <= window_seconds cfg < 2 ^ 52 -> epoch_seconds t ->
  (t + inject_Z (window_seconds cfg)
   < inject_Z (py_int (float_add t (float_of_int (window_seconds cfg))) + 1))%Q.
Proof.
  intros Hw [Ht0 Ht]. unfold float_add, float_of_int.
  assert (Hexact : (round64 (inject_Z (window_seconds cfg))
                    == inject_Z (window_seconds cfg))%Q).
  { apply round64_int. lia. }
  assert (Hw0 : (0 <= inject_Z (window_seconds cfg))%Q)
    by (rewrite <- (Zle_Qle 0); lia).
  assert (Hw52 : (inject_Z (window_seconds cfg) < inject_Z (2 ^ 52))%Q)
    by (rewrite <- Zlt_Qlt; lia).
  rewrite <- Hexact at 1. apply lt_succ_int_round64.
  - rewrite Hexact. lra.
  - rewrite Hexact. change (2 ^ 53) with (2 ^ 52 + 2 ^ 52).
    rewrite inject_Z_plus. lra.
Qed.

(** X4: with [max_requests >= 1], a window and clock readings that are
    non-negative and below [2 ^ 52], on a store built by calls alone: when
    a call is refused and announces [reset], the next call of that
    identity, made at a clock reading of at least [reset + 1], is
    admitted, whatever calls other identities made in between. *)
Theorem retry_after_reset (cfg : config) (calls others : list (string * Q))
    (u : string) (t0 now : Q) :
  1 <= max_requests cfg ->
  0 <= window_seconds cfg < 2 ^ 52 ->
  Forall (fun c : string * Q => epoch_seconds (snd c)) calls ->
  Forall (fun c : string * Q => fst c <> u) others ->
  let st := fst (run cfg calls ∅) in
  fst (snd (check_rate_limit cfg st u t0)) = false ->
  (inject_Z (reset (snd (snd (check_rate_limit cfg st u t0))) + 1) <= now)%Q ->
  fst (snd (check_rate_limit cfg
              (fst (run cfg others (fst (check_rate_limit cfg st u t0))))
              u now))
  = true.
Proof.
  intros Hmax Hw Hcalls Hothers st Hrefused Hnow.
  destruct (bounded_run cfg calls ∅ (bounded_empty cfg) u) as [Hones Hlen].
  pose proof (stamps_run cfg calls ∅ stamps_empty Hcalls u) as Hstamps.
  fold st in Hones, Hlen, Hstamps.
  pose proof (requests_of_check_own cfg st u t0) as Hown.
  rewrite Hrefused, app_nil_r in Hown.
  rewrite allowed_eq in Hrefused. apply Z.ltb_ge in Hrefused.
  pose proof (survivors_ones cfg t0 _ Hones) as Hso.
  pose proof (survivors_length cfg t0 (requests_of st u)) as Hsl.
  rewrite (total_ones _ Hso) in Hrefused.
  rewrite check_rate_limit_result in Hnow. cbn [snd reset] in Hnow.
  rewrite allowed_eq, (run_others cfg u others _ Hothers), Hown.
  apply Z.ltb_lt.
  rewrite (total_ones _ (survivors_ones cfg now _ Hso)).
  assert (Hkept : Forall (fun e : entry => epoch_seconds (fst e))
                    (survivors cfg t0 (requests_of st u))).
  { apply survivors_Forall, Hstamps. }
  destruct (survivors cfg t0 (requests_of st u)) as [|[t c] rest] eqn:Es.
  - cbn [length] in Hrefused. lia.
  - destruct (min_ts_oldest t c rest) as [[c' Hin] _].
    cbn [fst] in Hnow.
    assert (Hold : epoch_seconds (min_ts t rest)).
    { rewrite Forall_forall in Hkept. exact (Hkept _ Hin). }
    assert (Hgone : ~ (now - inject_Z (window_seconds cfg)
                       < fst (min_ts t rest, c'))%Q).
    { cbn [fst]. pose proof (reset_covers_oldest cfg _ Hw Hold). lra. }
    pose proof (length_filter_lt
                  (fun e : entry =>
                     (now - inject_Z (window_seconds cfg) < fst e)%Q)
                  _ _ Hin Hgone) as Hless.
    eapply Z.lt_le_trans; [|eapply Z.le_trans; [exact Hlen | lia]].
    apply Nat2Z.inj_lt. eapply Nat.lt_le_trans; [exact Hless | exact Hsl].
Qed.

Lemma retry_after_reset_witness :
  let cfg := mkConfig 2 60 in
  let calls := [("alice"%string, 1 # 2); ("alice"%string, 3 # 1)]%Q in
  let others := [("bob"%string, 6 # 1)]%Q in
  let st := fst (run cfg calls ∅) in
  fst (snd (check_rate_limit cfg st "alice" (5 # 1))) = false
  /\ reset (snd (snd (check_rate_limit cfg st "alice" (5 # 1)))) = 60
  /\ fst (snd (check_rate_limit cfg
                 (fst (run cfg others
                         (fst (check_rate_limit cfg st "alice" (5 # 1)))))
                 "alice" (61 # 1))) = true.
Proof.
  intros cfg calls others st.
  split; [vm_compute; reflexivity|]. split; [vm_compute; reflexivity|].
  apply (retry_after_reset cfg calls others "alice" (5 # 1) (61 # 1)).
  - cbn. lia.
  - cbn. lia.
  - repeat constructor; cbn; unfold Qle, Qlt; cbn; lia.
  - repeat constructor; cbn; discriminate.
  - vm_compute. reflexivity.
  - vm_compute. discriminate.
Defined.

(** The announced [reset] itself can be too early: the oldest entry was
    stamped at 0.5, [reset] is 60, and a call at 60 is still refused. *)
Lemma retry_at_reset_refused :
  let cfg := mkConfig 2 60 in
  let st := fst (run cfg [("alice"%string, 1 # 2); ("alice"%string, 3 # 1)]%Q
                   ∅) in
  fst (snd (check_rate_limit cfg
              (fst (check_rate_limit cfg st "alice" (5 # 1)))
              "alice" (60 # 1))) = false.
Proof. vm_compute. reflexivity. Qed.

End RateLimiterSchedules.


(* ===================================================================== *)
(** ** The dependencies: authentication and throttling *)
(* ===================================================================== *)

Module DependenciesSpec.
Import Py RateLimiter RateLimiterSpec RateLimiterSchedules Dependencies.

(** X5: [rate_limit] refuses exactly when the counts kept in the window have
    reached [max_requests].  A refusal is a 429 whose headers are the three
    the handler sets on an admitted turn, with [X-RateLimit-Remaining] at 0,
    and it leaves only the purged list behind.  An admitted call returns the
    caller's identity with [remaining >= 1] and records the call. *)
Theorem rate_limit_outcome (cfg : config) (st : store) (u : string) (now : Q) :
  let s := total (survivors cfg now (requests_of st u)) in
  let info := snd (snd (check_rate_limit cfg st u now)) in
  match snd (rate_limit cfg st u now) with
  | inl e =>
      max_requests cfg <= s
      /\ status_code e = 429
      /\ headers e = rate_limit_headers info
      /\ headers e = omap header_of_call (Router.headers_log info)
      /\ remaining info = 0
      /\ fst (rate_limit cfg st u now) = store_after cfg st u now false
  | inr (user_id, info') =>
      s < max_requests cfg
      /\ user_id = u
      /\ info' = info
      /\ 1 <= remaining info
      /\ fst (rate_limit cfg st u now) = store_after cfg st u now true
  end.
Proof.
  intros s info. unfold rate_limit.
  pose proof (check_rate_limit_store cfg st u now) as Hst.
  pose proof (allowed_eq cfg st u now) as Hok.
  pose proof (remaining_eq cfg st u now) as Hrem.
  fold s in Hok, Hrem. fold info in Hrem. subst info.
  destruct (check_rate_limit cfg st u now) as [st' [ok i]].
  cbn [fst snd] in *. subst ok.
  destruct (Z.ltb_spec s (max_requests cfg)) as [Hlt | Hge]; cbn [negb fst snd].
  - repeat split; [exact Hlt | lia | exact Hst].
  - repeat split; [exact Hge | lia | exact Hst].
Qed.

(** *** The bearer header *)

Lemma flush_app (word : string) (c : ascii) :
  flush (word +:+ String c EmptyString) = [word +:+ String c EmptyString].
Proof. destruct word; reflexivity. Qed.

Lemma plain_not_space (c : ascii) : plain c = true -> is_space c = false.
Proof. unfold plain. intros H. apply andb_true_iff in H as [_ H]. by destruct (is_space c). Qed.

Lemma plain_not_tail (c d : ascii) : plain c = true -> is_space_tail c d = false.
Proof.
  unfold plain, is_space_tail. intros H. apply andb_true_iff in H as [H _].
  apply Nat.ltb_lt in H.
  destruct (Nat.eqb_spec (nat_of_ascii c) 194); [lia | reflexivity].
Qed.

Lemma append_snoc (word : string) (c : ascii) (w : string) :
  (word +:+ String c EmptyString) +:+ w = word +:+ String c w.
Proof.
  induction word as [|x word IH]; [reflexivity|].
  change (String x ((word +:+ String c EmptyString) +:+ w)
          = String x (word +:+ String c w)).
  by f_equal.
Qed.

Lemma append_empty_r (s : string) : s +:+ EmptyString = s.
Proof.
  induction s as [|x s IH]; [reflexivity|].
  change (String x (s +:+ EmptyString) = String x s). by f_equal.
Qed.

(** A run of plain bytes is collected into the current word. *)
Lemma split_words_plain (w : string) :
  forall (word s : string),
    all_plain w = true ->
    split_words word (w +:+ s) = split_words (word +:+ w) s.
Proof.
  induction w as [|c w IH]; intros word s Hw.
  - by rewrite append_empty_r.
  - cbn [all_plain] in Hw. apply andb_true_iff in Hw as [Hc Hw].
    change (String c w +:+ s) with (String c (w +:+ s)).
    cbn [split_words]. rewrite (plain_not_space c Hc).
    replace (match w +:+ s with
             | EmptyString =>
                 split_words (word +:+ String c EmptyString) (w +:+ s)
             | String d s'' =>
                 if is_space_tail c d
                 then flush word ++ split_words EmptyString s''
                 else split_words (word +:+ String c EmptyString) (w +:+ s)
             end)
      with (split_words (word +:+ String c EmptyString) (w +:+ s)).
    + rewrite (IH _ _ Hw). by rewrite append_snoc.
    + destruct (w +:+ s) as [|d s'']; [reflexivity|].
      by rewrite (plain_not_tail c d Hc).
Qed.

Lemma split_bearer (token : string) :
  all_plain token = true -> token <> EmptyString ->
  split (Example.authorization_header token) = ["Bearer"%string; token].
Proof.
  intros Hplain Hne. unfold split, Example.authorization_header.
  change ("Bearer " +:+ token) with ("Bearer" +:+ String " " token).
  rewrite (split_words_plain "Bearer" EmptyString _ eq_refl).
  change (EmptyString +:+ "Bearer") with "Bearer"%string.
  cbn [split_words is_space]. 
  change (flush "Bearer") with ["Bearer"%string]. cbn [app].
  f_equal.
  rewrite <- (append_empty_r token) at 1.
  rewrite (split_words_plain token EmptyString EmptyString Hplain).
  cbn [split_words]. change (EmptyString +:+ token) with token.
  by destruct token.
Qed.

(** X6: the header the example client builds from a token of plain bytes is
    accepted in form, and the user manager is asked about exactly that
    token, once.  Its answer decides: a set user id is returned; missing or
    empty user id, and any exception but [ValueError], give 500;
    [ValueError] gives 401 with its text. *)
Theorem client_token_reaches_user_manager
    (authenticate_with_token : string -> auth_outcome) (token : string) :
  all_plain token = true ->
  token <> EmptyString ->
  verify_firebase_token authenticate_with_token
    (Some (Example.authorization_header token))
  = ([token],
     match authenticate_with_token token with
     | UserData user_data =>
         match user_data !! "user_id"%string with
         | Some user_id =>
             if truthy user_id then inr user_id
             else inl (HttpError 500
                         "Internal server error during authentication" [])
         | None =>
             inl (HttpError 500
                    "Internal server error during authentication" [])
         end
     | RaisesValueError text =>
         inl (HttpError 401 ("Invalid authentication token: " +:+ text) [])
     | RaisesOther _ =>
         inl (HttpError 500 "Internal server error during authentication" [])
     end).
Proof.
  intros Hplain Hne. unfold verify_firebase_token.
  replace (opt_truthy (Some (Example.authorization_header token))) with true
    by reflexivity.
  cbn [negb default from_option id]. rewrite (split_bearer token Hplain Hne).
  replace (String.eqb (lower "Bearer") "bearer") with true by reflexivity.
  cbn [negb]. f_equal.
  destruct (authenticate_with_token token) as [data|text|text]; try reflexivity.
  unfold dict_get. destruct (data !! "user_id"%string) as [v|]; [|reflexivity].
  cbn [default from_option id]. by destruct (truthy v).
Qed.

Lemma client_token_reaches_user_manager_witness :
  all_plain "abc.def" = true
  /\ verify_firebase_token sample_user_manager
       (Some (Example.authorization_header "abc.def"))
     = (["abc.def"%string], inr (PyStr "alice")).
Proof.
  split; [reflexivity|].
  exact (client_token_reaches_user_manager sample_user_manager "abc.def"
           eq_refl ltac:(discriminate)).
Defined.

(** X7: whatever the header and the user manager: the user manager is asked
    at most once, and only about the second word of a header of exactly two
    words whose first is [bearer] in any letter case; a failure is a 401 or
    a 500 without headers, and a 401 when the user manager was not asked;
    an identity that is returned is set (not null, not empty) and is the
    [user_id] of the data the user manager gave for that token. *)
Theorem verify_firebase_token_outcome
    (authenticate_with_token : string -> auth_outcome)
    (authorization : option string) :
  let asked := fst (verify_firebase_token authenticate_with_token authorization) in
  let out := snd (verify_firebase_token authenticate_with_token authorization) in
  (asked = []
   \/ exists h scheme token,
        authorization = Some h /\ split h = [scheme; token]
        /\ lower scheme = "bearer"%string /\ asked = [token])
  /\ match out with
     | inl e =>
         (status_code e = 401 \/ status_code e = 500)
         /\ headers e = []
         /\ (asked = [] -> status_code e = 401)
     | inr user_id =>
         truthy user_id = true
         /\ exists token user_data,
              asked = [token]
              /\ authenticate_with_token token = UserData user_data
              /\ user_data !! "user_id"%string = Some user_id
     end.
Proof.
  unfold verify_firebase_token.
  destruct (opt_truthy authorization) eqn:Ht; cbn [negb];
    [|split; [by left | by repeat split; auto]].
  destruct authorization as [h|]; [|discriminate Ht].
  cbn [default from_option id].
  destruct (split h) as [|scheme [|token [|extra parts]]] eqn:Hs;
    try (split; [by left | by repeat split; auto]).
  destruct (String.eqb (lower scheme) "bearer") eqn:Hb; cbn [negb];
    [|split; [by left | by repeat split; auto]].
  apply String.eqb_eq in Hb. cbn [fst snd]. split.
  - right. by exists h, scheme, token.
  - destruct (authenticate_with_token token) as [data|text|text] eqn:Ha.
    + unfold dict_get. destruct (data !! "user_id"%string) as [v|] eqn:Hv.
      * cbn [default from_option id].
        destruct (truthy v) eqn:Hv'; cbn [negb].
        -- split; [exact Hv'|]. by exists token, data.
        -- split; [by right|]. split; [reflexivity | discriminate].
      * cbn. split; [by right|]. split; [reflexivity | discriminate].
    + split; [by left|]. split; [reflexivity | discriminate].
    + split; [by right|]. split; [reflexivity | discriminate].
Qed.

(** *** The example client *)

Lemma list_ascii_of_string_app (a b : string) :
  list_ascii_of_string (a +:+ b)
  = list_ascii_of_string a ++ list_ascii_of_string b.
Proof.
  induction a as [|x a IH]; [reflexivity|].
  change (x :: list_ascii_of_string (a +:+ b)
          = x :: (list_ascii_of_string a ++ list_ascii_of_string b)).
  by f_equal.
Qed.

Lemma drop_slashes_head (r : list ascii) (c : ascii) (r' : list ascii) :
  Example.drop_slashes r = c :: r' -> c <> "/"%char.
Proof.
  induction r as [|x r IH]; [discriminate|].
  cbn [Example.drop_slashes]. destruct (Ascii.eqb_spec x "/").
  - exact IH.
  - intros [= <- _]. assumption.
Qed.

(** X8: the endpoint of the example client does not depend on a trailing
    slash of the base URL, and the part before [/api/public/chat] never
    ends in a slash. *)
Theorem api_endpoint_ignores_trailing_slash (base_url : string) :
  Example.api_endpoint (base_url +:+ "/") = Example.api_endpoint base_url
  /\ forall p, Example.rstrip_slash base_url <> p +:+ "/".
Proof.
  split.
  - unfold Example.api_endpoint, Example.rstrip_slash.
    rewrite list_ascii_of_string_app. cbn [list_ascii_of_string].
    rewrite rev_app_distr. reflexivity.
  - intros p Heq. unfold Example.rstrip_slash in Heq.
    apply (f_equal list_ascii_of_string) in Heq.
    rewrite list_ascii_of_string_of_list_ascii, list_ascii_of_string_app in Heq.
    cbn [list_ascii_of_string] in Heq.
    apply (f_equal (@List.rev ascii)) in Heq.
    rewrite rev_involutive, rev_app_distr in Heq. cbn [List.rev app] in Heq.
    by apply drop_slashes_head in Heq.
Qed.

End DependenciesSpec.


(* ===================================================================== *)
(** ** The chat handler: what a turn does and leaves behind *)
(* ===================================================================== *)

Module RouterTurns.
Import Py Router RouterSpec.

(** *** Calls added to the log *)

Section Extends.
Context {A B : Type} (P : call -> Prop).

Lemma extends_ret (a : A) : extends P (ret a).
Proof. intros log. exists []. by rewrite app_nil_r. Qed.

Lemma extends_raise (e : exn) : extends P (@raise A e).
Proof. intros log. exists []. by rewrite app_nil_r. Qed.

Lemma extends_perform (c : call) (r : result A) :
  P c -> extends P (perform c r).
Proof. intros Hc log. exists [c]. split; [reflexivity | by constructor]. Qed.

Lemma extends_bind (m : M A) (k : A -> M B) :
  extends P m -> (forall a, extends P (k a)) -> extends P (bind m k).
Proof.
  intros Hm Hk log. destruct (Hm log) as (e1 & H1 & HP1).
  unfold bind. destruct (m log) as [log1 [a|e]]; cbn [fst] in *.
  - destruct (Hk a log1) as (e2 & H2 & HP2). exists (e1 ++ e2).
    rewrite H2, H1, app_assoc. split; [reflexivity | by apply Forall_app].
  - exists e1. by split.
Qed.

Lemma extends_try (m : M A) (h : exn -> M A) :
  extends P m -> (forall e, extends P (h e)) -> extends P (try_except m h).
Proof.
  intros Hm Hh log. destruct (Hm log) as (e1 & H1 & HP1).
  unfold try_except. destruct (m log) as [log1 [a|e]]; cbn [fst] in *.
  - exists e1. by split.
  - destruct (Hh e log1) as (e2 & H2 & HP2). exists (e1 ++ e2).
    rewrite H2, H1, app_assoc. split; [reflexivity | by apply Forall_app].
Qed.

End Extends.

Lemma extends_now {P : call -> Prop} (env : collaborators) :
  extends P (now_isoformat env).
Proof. intros log. exists []. by rewrite app_nil_r. Qed.

Lemma extends_impl {A : Type} (P Q : call -> Prop) (m : M A) :
  (forall c, P c -> Q c) -> extends P m -> extends Q m.
Proof.
  intros HPQ Hm log. destruct (Hm log) as (extra & H & HP).
  exists extra. split; [exact H | by eapply Forall_impl].
Qed.

Lemma verify_ownership_calls (env : collaborators) (request : ChatRequest)
    (user_id : string) :
  extends (quiet_call request user_id) (verify_ownership env request user_id).
Proof.
  unfold verify_ownership.
  destruct (conversation_id request) as [cid|] eqn:Hc; [|apply extends_ret].
  destruct (str_truthy cid) eqn:Ht; [|apply extends_ret].
  apply extends_try.
  - apply extends_bind.
    + apply extends_perform. by repeat split.
    + intros [conv|]; [|apply extends_raise].
      destruct (negb (dict_truthy conv)); [apply extends_raise|].
      destruct (truthy _ && ne_str _ _);
        [apply extends_raise | apply extends_ret].
  - intros [code detail|text]; apply extends_raise.
Qed.

Lemma add_rate_limit_headers_calls (request : ChatRequest) (user_id : string)
    (info : RateLimiter.rate_limit_info) :
  extends (quiet_call request user_id) (add_rate_limit_headers info).
Proof.
  unfold add_rate_limit_headers.
  repeat (apply extends_bind; [by apply extends_perform | intros _]).
  by apply extends_perform.
Qed.

Lemma determine_city_calls (env : collaborators) (request : ChatRequest)
    (user_id : string) (extracted : option UserPreferences) :
  extends (quiet_call request user_id) (determine_city env request extracted).
Proof.
  unfold determine_city.
  destruct (match extracted with Some _ => _ | None => _ end) as [city provided].
  destruct (negb (opt_truthy city)); [|apply extends_ret].
  apply extends_bind; [by apply extends_perform|].
  intros [q|]; [|apply extends_ret]. destruct (str_truthy q); apply extends_ret.
Qed.

Lemma acquire_events_calls (env : collaborators) (request : ChatRequest)
    (user_id : string) (city : string) :
  extends (quiet_call request user_id) (acquire_events env city).
Proof.
  unfold acquire_events.
  apply extends_bind; [by apply extends_perform | intros events].
  apply extends_bind; [by apply extends_perform | intros age].
  destruct events as [|e es]; [apply extends_ret|].
  apply extends_bind; [|intros _; apply extends_ret].
  unfold format_1f. destruct age; [apply extends_ret | apply extends_raise].
Qed.

Lemma search_and_reply_calls (env : collaborators) (request : ChatRequest)
    (user_id cid : string) (usage : option dict)
    (extracted : option UserPreferences) (city : string) (provided : bool) :
  of_request request cid ->
  extends (turn_call request user_id)
    (search_and_reply env request user_id cid usage extracted city provided).
Proof.
  intros Hcid. unfold search_and_reply.
  apply extends_bind;
    [eapply extends_impl; [|apply acquire_events_calls]; by intros c [? _]
    | intros [[events cu] age]].
  apply extends_bind; [by apply extends_perform | intros top].
  apply extends_bind; [apply extends_now | intros stamp].
  apply extends_bind; [apply extends_perform; by repeat split; auto | intros _].
  apply extends_bind; [apply extends_now | intros stamp'].
  apply extends_bind; [apply extends_perform; by split | intros _].
  apply extends_ret.
Qed.

Lemma reply_turn_calls (env : collaborators) (request : ChatRequest)
    (user_id cid : string) (usage : option dict) :
  of_request request cid ->
  extends (turn_call request user_id)
    (reply_turn env request user_id cid usage).
Proof.
  intros Hcid. unfold reply_turn.
  apply extends_bind.
  - destruct (is_initial_response request) eqn:Hi; [|apply extends_ret].
    apply extends_bind; [by apply extends_perform | intros p; apply extends_ret].
  - intros extracted.
    apply extends_bind;
      [eapply extends_impl; [|apply determine_city_calls]; by intros c [? _]
      | intros [city provided]].
    destruct (is_initial_response request && negb provided) eqn:Hq.
    + unfold location_question. apply andb_true_iff in Hq as [Hi _].
      apply extends_bind; [by apply extends_perform | intros cities].
      apply extends_ret.
    + by apply search_and_reply_calls.
Qed.

Lemma open_turn_calls (env : collaborators) (request : ChatRequest)
    (user_id : string) :
  extends (turn_call request user_id) (open_turn env request user_id).
Proof.
  unfold open_turn.
  apply extends_bind.
  - destruct (is_anonymous user_id) eqn:Ha; [|apply extends_ret].
    apply extends_bind; [by apply extends_perform | intros u; apply extends_ret].
  - intros usage. destruct (opt_truthy (conversation_id request)) eqn:Hc.
    + destruct (conversation_id request) as [ref|] eqn:Hr; [|discriminate Hc].
      change (bind (ret (default ""%string (Some ref))) ?k) with (k ref).
      apply extends_bind; [apply extends_now | intros stamp].
      apply extends_bind; [|intros _; apply extends_ret].
      apply extends_perform. cbn. split; [reflexivity|].
      split; [|by left]. intros _. by rewrite Hr.
    + apply extends_bind; [by apply extends_perform | intros cid].
      apply extends_bind; [apply extends_now | intros stamp].
      apply extends_bind; [|intros _; apply extends_ret].
      apply extends_perform. cbn. split; [reflexivity|].
      split; [|by left]. intros H. rewrite Hc in H. discriminate H.
Qed.

(** The conversation an opened turn continues with can be the one of the
    request. *)
Lemma open_turn_of_request (env : collaborators) (request : ChatRequest)
    (user_id cid : string) (usage : option dict) (log log' : list call) :
  open_turn env request user_id log = (log', Ok (usage, cid)) ->
  of_request request cid.
Proof.
  unfold open_turn, of_request. intros Hopen Hc. rewrite Hc in Hopen.
  destruct (conversation_id request) as [ref|]; [|discriminate Hc].
  unfold bind, perform, ret, now_isoformat in Hopen.
  destruct (is_anonymous user_id).
  - destruct (increment_usage env user_id); [|discriminate Hopen].
    cbn in Hopen. destruct (save_message _ _ _ _); [|discriminate Hopen].
    by injection Hopen as _ _ <-.
  - cbn in Hopen. destruct (save_message _ _ _ _); [|discriminate Hopen].
    by injection Hopen as _ _ <-.
Qed.

Lemma admitted_turn_calls (env : collaborators) (request : ChatRequest)
    (user_id : string) :
  extends (turn_call request user_id) (admitted_turn env request user_id).
Proof.
  intros log. unfold admitted_turn, bind.
  destruct (open_turn_calls env request user_id log) as (e1 & H1 & HP1).
  destruct (open_turn env request user_id log) as [log1 [[usage cid]|e]] eqn:Ho;
    cbn [fst] in H1.
  - destruct (reply_turn_calls env request user_id cid usage
                (open_turn_of_request _ _ _ _ _ _ _ Ho) log1)
      as (e2 & H2 & HP2).
    exists (e1 ++ e2). rewrite H2, H1, app_assoc.
    split; [reflexivity | by apply Forall_app].
  - exists e1. by split.
Qed.

Lemma after_ownership_calls (env : collaborators) (request : ChatRequest)
    (user_id : string) :
  extends (turn_call request user_id) (after_ownership env request user_id).
Proof.
  unfold after_ownership. destruct (is_anonymous user_id) eqn:Ha.
  - apply extends_bind; [by apply extends_perform|].
    intros [|]; [|apply admitted_turn_calls].
    apply extends_bind; [by apply extends_perform | intros u].
    apply extends_ret.
  - change (bind (ret false) ?k) with (k false). cbn beta iota.
    apply admitted_turn_calls.
Qed.

Lemma public_chat_body_calls (env : collaborators) (request : ChatRequest)
    (user_id : string) (info : RateLimiter.rate_limit_info) :
  extends (turn_call request user_id)
    (public_chat_body env request (user_id, info)).
Proof.
  unfold public_chat_body.
  apply extends_bind;
    [eapply extends_impl; [|apply add_rate_limit_headers_calls];
     by intros c [? _] | intros _].
  apply extends_bind;
    [eapply extends_impl; [|apply verify_ownership_calls]; by intros c [? _]
    | intros _].
  apply after_ownership_calls.
Qed.

(** X10: every call a turn makes to the storage or to the usage tracker
    carries the identity of the caller.  The lookup, and every write, goes
    to the conversation the request refers to when it refers to one; a
    conversation is created only when it refers to none; the usage tracker
    is consulted only for an anonymous identity; the extraction and the
    search are given the message of the request.  This holds on every
    path, failures included. *)
Theorem turn_calls_are_the_callers (env : collaborators)
    (request : ChatRequest) (user_id : string)
    (info : RateLimiter.rate_limit_info) :
  Forall (turn_call request user_id)
    (fst (public_chat env request (user_id, info) [])).
Proof.
  rewrite public_chat_log.
  destruct (public_chat_body_calls env request user_id info [])
    as (extra & -> & HP).
  exact HP.
Qed.

(** *** The transcript *)











(** *** The responses a turn returns *)

Lemma bind_ok_inv {A B : Type} (m : M A) (k : A -> M B)
    (log log' : list call) (b : B) :
  bind m k log = (log', Ok b) ->
  exists l1 a, m log = (l1, Ok a) /\ k a l1 = (log', Ok b).
Proof.
  unfold bind. destruct (m log) as [l1 [a|e]]; [|discriminate].
  intros H. by exists l1, a.
Qed.

Lemma acquire_events_ok (env : collaborators) (city : string)
    (log l1 : list call) (events : list dict) (cu : bool) (age : option Q) :
  acquire_events env city log = (l1, Ok (events, cu, age)) ->
  cu = true <-> exists a, age = Some a /\ (0 < a)%Q.
Proof.
  unfold acquire_events, bind, perform, ret, format_1f.
  destruct (get_cached_events env city) as [[|e es]|x]; [| |discriminate].
  - destruct (get_cache_age env city); [|discriminate].
    intros [= _ _ <- <-]. split; [discriminate | by intros (x & [=] & _)].
  - destruct (get_cache_age env city) as [[a|]|x]; try discriminate.
    intros [= _ _ <- <-]. rewrite Qgtb_true. split.
    + intros Ha. by exists a.
    + by intros (a' & [= <-] & Ha).
Qed.

Lemma search_and_reply_ok (env : collaborators) (request : ChatRequest)
    (user_id cid : string) (usage : option dict)
    (extracted : option UserPreferences) (city : string) (provided : bool)
    (log log' : list call) (r : ChatResponse) :
  search_and_reply env request user_id cid usage extracted city provided log
  = (log', Ok r) ->
  extracted_preferences r = extracted
  /\ answered env request r
  /\ (cache_used r = true <->
      exists age, cache_age_hours r = Some age /\ (0 < age)%Q)
  /\ usage_stats r = usage
  /\ resp_conversation_id r = cid
  /\ llm_provider_used r = llm_provider request
  /\ trial_exceeded r = false
  /\ extraction_summary r = make_extraction_summary extracted.
Proof.
  unfold search_and_reply. intros H.
  apply bind_ok_inv in H as (l1 & [[events cu] age] & Hacq & H).
  apply bind_ok_inv in H as (l2 & top & Hsearch & H).
  unfold perform in Hsearch. injection Hsearch as _ Hsearch.
  unfold bind, perform, now_isoformat, ret in H.
  destruct (save_message _ _ _ _); [|discriminate H].
  destruct (update_metadata _ _ _ _); [|discriminate H].
  injection H as _ <-. cbn.
  split; [reflexivity|]. split.
  - exists city, provided, events, top. by repeat split.
  - split; [exact (acquire_events_ok _ _ _ _ _ _ _ Hacq) | by repeat split].
Qed.

Lemma reply_turn_ok (env : collaborators) (request : ChatRequest)
    (user_id cid : string) (usage : option dict) (log log' : list call)
    (r : ChatResponse) :
  reply_turn env request user_id cid usage log = (log', Ok r) ->
  (is_initial_response request = true
   /\ exists p cities,
        extract_user_preferences env (message request) = Ok p
        /\ get_supported_cities env = Ok cities
        /\ r = question_response env request (Some p) cid cities)
  \/ (exists extracted city provided l,
        (is_initial_response request = false -> extracted = None)
        /\ search_and_reply env request user_id cid usage extracted city
             provided l = (log', Ok r)).
Proof.
  unfold reply_turn. intros H.
  apply bind_ok_inv in H as (l1 & extracted & Hx & H).
  apply bind_ok_inv in H as (l2 & [city provided] & Hd & H).
  destruct (is_initial_response request) eqn:Hi.
  - apply bind_ok_inv in Hx as (l0 & p & Hp & Hx).
    unfold perform in Hp. injection Hp as _ Hp.
    unfold ret in Hx. injection Hx as _ <-.
    destruct (negb provided); cbn [andb] in H.
    + left. split; [reflexivity|].
      unfold location_question in H.
      apply bind_ok_inv in H as (l3 & cities & Hc & H).
      unfold perform in Hc. injection Hc as _ Hc.
      unfold ret in H. injection H as _ <-.
      by exists p, cities.
    + right. exists (Some p), (final_city city), provided, l2.
      split; [discriminate | exact H].
  - unfold ret in Hx. injection Hx as _ <-. cbn [andb] in H.
    right. by exists None, (final_city city), provided, l2.
Qed.

Lemma open_turn_ok (env : collaborators) (request : ChatRequest)
    (user_id cid : string) (usage : option dict) (log log' : list call) :
  open_turn env request user_id log = (log', Ok (usage, cid)) ->
  charged env user_id usage /\ materialised env request user_id cid.
Proof.
  unfold open_turn, charged, materialised. intros H.
  apply bind_ok_inv in H as (l1 & usage' & Hu & H).
  apply bind_ok_inv in H as (l2 & cid' & Hc & H).
  unfold bind, perform, now_isoformat, ret in H.
  destruct (save_message _ _ _ _); [|discriminate H].
  injection H as _ <- <-. split.
  - destruct (is_anonymous user_id).
    + apply bind_ok_inv in Hu as (l0 & u & Hinc & Hu).
      unfold perform in Hinc. injection Hinc as _ Hinc.
      unfold ret in Hu. injection Hu as _ <-. by exists u.
    + unfold ret in Hu. by injection Hu as _ <-.
  - destruct (opt_truthy (conversation_id request)) eqn:Ht.
    + unfold ret in Hc. injection Hc as _ <-.
      by destruct (conversation_id request).
    + unfold perform in Hc. by injection Hc as _ Hc.
Qed.

(** Every response of a turn is of one of the three kinds. *)
Lemma public_chat_ok_kind (env : collaborators) (request : ChatRequest)
    (user_id : string) (info : RateLimiter.rate_limit_info)
    (log : list call) (r : ChatResponse) :
  public_chat env request (user_id, info) [] = (log, Ok r) ->
  response_kind env request user_id r.
Proof.
  intros H. unfold public_chat, try_except in H.
  destruct (public_chat_body env request (user_id, info) [])
    as [l [r'|[code detail|text]]] eqn:Hb; try discriminate H.
  injection H as <- <-. rewrite public_chat_body_unfold in Hb.
  apply bind_ok_inv in Hb as (l1 & [] & _ & Hb).
  unfold after_ownership in Hb.
  apply bind_ok_inv in Hb as (l2 & exceeded & Hg & Hb).
  assert (Hturn : admitted_turn env request user_id l2 = (l, Ok r') ->
                  response_kind env request user_id r').
  { intros Ha. unfold admitted_turn in Ha.
    apply bind_ok_inv in Ha as (l3 & [usage cid] & Ho & Ha).
    destruct (open_turn_ok _ _ _ _ _ _ _ Ho) as [Hch Hm].
    right. exists usage, cid. split; [exact Hch|]. split; [exact Hm|].
    destruct (reply_turn_ok _ _ _ _ _ _ _ _ Ha)
      as [Hq | (extracted & city & provided & l4 & Hni & Hs)].
    - by left.
    - right.
      destruct (search_and_reply_ok _ _ _ _ _ _ _ _ _ _ _ Hs)
        as (Hex & Hans & Hcache & Hus & Hcid & Hprov & Htr & Hsum).
      rewrite Hex. repeat split; try assumption.
      + by apply Hcache.
      + by apply Hcache. }
  destruct (is_anonymous user_id) eqn:Hanon.
  - unfold perform in Hg. injection Hg as _ Hg.
    destruct exceeded; [|by apply Hturn].
    apply bind_ok_inv in Hb as (l3 & usage & Hu & Hb).
    unfold perform in Hu. injection Hu as _ Hu.
    unfold ret in Hb. injection Hb as _ <-.
    left. split; [exact Hanon|]. by exists usage.
  - unfold ret in Hg. injection Hg as _ <-. by apply Hturn.
Qed.

Lemma format_recommendation_source (env : collaborators) (city : string)
    (cu : bool) (event : dict) :
  rec_type (format_recommendation env city cu event) = "event"%string
  /\ rec_data (format_recommendation env city cu event) !! "source"%string
     = Some (PyStr (if cu then "cached" else "realtime"))
  /\ forall k, k <> "source"%string ->
       rec_data (format_recommendation env city cu event) !! k = event !! k.
Proof.
  unfold format_recommendation. cbn [rec_type rec_data].
  split; [reflexivity|]. split; [by rewrite lookup_insert_eq|].
  intros k Hk. by rewrite lookup_insert_ne.
Qed.

(** X12: the recommendations of a response are the events the search
    returned, one recommendation per event and in the same order; each is
    of type [event], keeps the fields of its event, and is tagged
    [source = "cached"] when the response says [cache_used] and
    ["realtime"] otherwise, over any [source] the event had. *)
Theorem recommendations_follow_the_search (env : collaborators)
    (request : ChatRequest) (user_id : string)
    (info : RateLimiter.rate_limit_info) (log : list call)
    (r : ChatResponse) :
  public_chat env request (user_id, info) [] = (log, Ok r) ->
  (recommendations r = [] \/ answered env request r)
  /\ Forall (fun rec =>
               rec_type rec = "event"%string
               /\ rec_data rec !! "source"%string = Some (source_tag r))
       (recommendations r).
Proof.
  intros H.
  destruct (public_chat_ok_kind _ _ _ _ _ _ H)
    as [(_ & usage & _ & ->)
       | (usage & cid & _ & _ &
          [(_ & p & cities & _ & _ & ->) | (Hans & _)])].
  - split; [by left | constructor].
  - split; [by left | constructor].
  - split; [by right|].
    destruct Hans as (city & provided & events & top & _ & -> & _).
    apply Forall_forall. intros rec Hin.
    apply list_elem_of_fmap in Hin as (ev & -> & _).
    destruct (format_recommendation_source env city (cache_used r) ev)
      as (Ht & Hs & _).
    by split.
Qed.

Lemma recommendations_follow_the_search_witness :
  exists log r,
    public_chat answering_env (follow_up_request "jazz")
      ("alice"%string, sample_info) [] = (log, Ok r)
    /\ (recommendations r = []
        \/ answered answering_env (follow_up_request "jazz") r)
    /\ Forall (fun rec =>
                 rec_type rec = "event"%string
                 /\ rec_data rec !! "source"%string = Some (source_tag r))
         (recommendations r).
Proof.
  destruct (public_chat answering_env (follow_up_request "jazz")
              ("alice"%string, sample_info) []) as [log [r|e]] eqn:E.
  - exists log, r. split; [reflexivity|].
    exact (recommendations_follow_the_search answering_env
             (follow_up_request "jazz") "alice" sample_info log r E).
  - exfalso. vm_compute in E. discriminate E.
Defined.

(** X13: in every response a turn returns, [cache_used] is true exactly when
    a cache age is reported and it is positive. *)
Theorem cache_used_iff_positive_age (env : collaborators)
    (request : ChatRequest) (user_id : string)
    (info : RateLimiter.rate_limit_info) (log : list call)
    (r : ChatResponse) :
  public_chat env request (user_id, info) [] = (log, Ok r) ->
  cache_used r = true <->
  exists age, cache_age_hours r = Some age /\ (0 < age)%Q.
Proof.
  intros H.
  destruct (public_chat_ok_kind _ _ _ _ _ _ H)
    as [(_ & usage & _ & ->)
       | (usage & cid & _ & _ &
          [(_ & p & cities & _ & _ & ->) | (_ & Hcache & _)])].
  - cbn. split; [discriminate | by intros (a & [=] & _)].
  - cbn. split; [discriminate | by intros (a & [=] & _)].
  - exact Hcache.
Qed.

Lemma cache_used_iff_positive_age_witness :
  exists log r,
    public_chat answering_env (follow_up_request "jazz")
      ("alice"%string, sample_info) [] = (log, Ok r)
    /\ cache_used r = true
    /\ (cache_used r = true <->
        exists age, cache_age_hours r = Some age /\ (0 < age)%Q).
Proof.
  destruct (public_chat answering_env (follow_up_request "jazz")
              ("alice"%string, sample_info) []) as [log [r|e]] eqn:E.
  - exists log, r. split; [reflexivity|]. split.
    + vm_compute in E. by injection E as _ <-.
    + exact (cache_used_iff_positive_age answering_env
               (follow_up_request "jazz") "alice" sample_info log r E).
  - exfalso. vm_compute in E. discriminate E.
Defined.

(** X14: the conversation of a response.  A trial-exceeded answer names the
    conversation ["temp"], whatever the request referred to.  Any other
    answer names the conversation the request referred to or, when it
    referred to none, the one the storage created for this turn. *)
Theorem response_conversation (env : collaborators) (request : ChatRequest)
    (user_id : string) (info : RateLimiter.rate_limit_info)
    (log : list call) (r : ChatResponse) :
  public_chat env request (user_id, info) [] = (log, Ok r) ->
  (trial_exceeded r = true /\ resp_conversation_id r = "temp"%string)
  \/ (trial_exceeded r = false
      /\ materialised env request user_id (resp_conversation_id r)).
Proof.
  intros H.
  destruct (public_chat_ok_kind _ _ _ _ _ _ H)
    as [(_ & usage & _ & ->)
       | (usage & cid & _ & Hm &
          [(_ & p & cities & _ & _ & ->)
          | (_ & _ & _ & Hcid & _ & Htr & _)])].
  - by left.
  - by right.
  - right. by rewrite Hcid.
Qed.

Lemma response_conversation_witness :
  exists log r,
    public_chat answering_env (follow_up_request "jazz")
      ("alice"%string, sample_info) [] = (log, Ok r)
    /\ ((trial_exceeded r = true /\ resp_conversation_id r = "temp"%string)
        \/ (trial_exceeded r = false
            /\ materialised answering_env (follow_up_request "jazz") "alice"
                 (resp_conversation_id r))).
Proof.
  destruct (public_chat answering_env (follow_up_request "jazz")
              ("alice"%string, sample_info) []) as [log [r|e]] eqn:E.
  - exists log, r. split; [reflexivity|].
    exact (response_conversation answering_env (follow_up_request "jazz")
             "alice" sample_info log r E).
  - exfalso. vm_compute in E. discriminate E.
Defined.



(** X16: for an identity that is not anonymous, the usage tracker is never
    called, on any path of the turn, and no response says [trial_exceeded]
    or carries usage statistics. *)
Theorem registered_identity_is_not_metered (env : collaborators)
    (request : ChatRequest) (user_id : string)
    (info : RateLimiter.rate_limit_info) :
  is_anonymous user_id = false ->
  Forall (fun c => is_usage_call c = false)
    (fst (public_chat env request (user_id, info) []))
  /\ forall r,
       snd (public_chat env request (user_id, info) []) = Ok r ->
       trial_exceeded r = false /\ usage_stats r = None.
Proof.
  intros Hanon. split.
  - rewrite public_chat_log.
    destruct (public_chat_body_calls env request user_id info [])
      as (extra & -> & HP).
    cbn [app]. eapply Forall_impl; [exact HP|].
    intros c Hc. destruct c; try reflexivity;
      destruct Hc as [_ Hc]; congruence.
  - intros r Hr.
    destruct (public_chat env request (user_id, info) []) as [log out] eqn:E.
    cbn [snd] in Hr. subst out.
    destruct (public_chat_ok_kind _ _ _ _ _ _ E)
      as [(Ha & _) | (usage & cid & Hch & _ &
                      [(_ & p & cities & _ & _ & ->)
                      | (_ & _ & Hus & _ & _ & Htr & _)])].
    + congruence.
    + by split.
    + unfold charged in Hch. rewrite Hanon in Hch. by rewrite Hus, Hch.
Qed.

Lemma registered_identity_is_not_metered_witness :
  is_anonymous "alice" = false
  /\ Forall (fun c => is_usage_call c = false)
       (fst (public_chat answering_env (follow_up_request "jazz")
               ("alice"%string, sample_info) []))
  /\ forall r,
       snd (public_chat answering_env (follow_up_request "jazz")
              ("alice"%string, sample_info) []) = Ok r ->
       trial_exceeded r = false /\ usage_stats r = None.
Proof.
  split; [reflexivity|].
  exact (registered_identity_is_not_metered answering_env
           (follow_up_request "jazz") "alice" sample_info eq_refl).
Defined.

(** X17: every response echoes the provider tag of the request; on a turn
    that is not initial it carries no extracted preferences and no
    extraction summary. *)
Theorem response_echoes_request (env : collaborators) (request : ChatRequest)
    (user_id : string) (info : RateLimiter.rate_limit_info)
    (log : list call) (r : ChatResponse) :
  public_chat env request (user_id, info) [] = (log, Ok r) ->
  llm_provider_used r = llm_provider request
  /\ (is_initial_response request = false ->
      extracted_preferences r = None /\ extraction_summary r = None).
Proof.
  intros H.
  destruct (public_chat_ok_kind _ _ _ _ _ _ H)
    as [(_ & usage & _ & ->)
       | (usage & cid & _ & _ &
          [(Hi & p & cities & _ & _ & ->)
          | (_ & _ & _ & _ & Hprov & _ & Hsum & Hni)])].
  - by split.
  - split; [reflexivity|]. intros Hn. congruence.
  - split; [exact Hprov|]. intros Hn.
    rewrite Hsum, (Hni Hn). by split.
Qed.

Lemma response_echoes_request_witness :
  exists log r,
    public_chat answering_env (follow_up_request "jazz")
      ("alice"%string, sample_info) [] = (log, Ok r)
    /\ llm_provider_used r = "openai"%string
    /\ (is_initial_response (follow_up_request "jazz") = false ->
        extracted_preferences r = None /\ extraction_summary r = None).
Proof.
  destruct (public_chat answering_env (follow_up_request "jazz")
              ("alice"%string, sample_info) []) as [log [r|e]] eqn:E.
  - exists log, r. split; [reflexivity|].
    exact (response_echoes_request answering_env (follow_up_request "jazz")
             "alice" sample_info log r E).
  - exfalso. vm_compute in E. discriminate E.
Defined.

(** *** The permission check within the turn *)

(** A turn that has passed the check on a reference goes on: the next call
    is the trial gate's or saves the caller's message. *)
Lemma after_ownership_grows (env : collaborators) (request : ChatRequest)
    (user_id cid : string) (log : list call) :
  refers_to request cid ->
  exists c rest,
    fst (after_ownership env request user_id log) = log ++ c :: rest
    /\ (c = CheckTrialLimit user_id
        \/ exists stamp,
             c = SaveMessage user_id cid (user_message request stamp)).
Proof.
  intros [Href Htruthy]. unfold after_ownership.
  destruct (is_anonymous user_id) eqn:Ha.
  - exists (CheckTrialLimit user_id).
    unfold bind at 1. unfold perform at 1.
    destruct (check_trial_limit env user_id) as [exceeded|e].
    + assert (Hk : extends (turn_call request user_id)
                     (if exceeded
                      then bind (perform (GetUsage user_id)
                                   (get_usage env user_id))
                             (fun usage =>
                                ret (trial_exceeded_response env request usage))
                      else admitted_turn env request user_id)).
      { destruct exceeded; [|apply admitted_turn_calls].
        apply extends_bind; [by apply extends_perform | intros u].
        apply extends_ret. }
      destruct (Hk (log ++ [CheckTrialLimit user_id])) as (rest & Hrest & _).
      exists rest. rewrite Hrest, <- app_assoc. split; [reflexivity | by left].
    + exists []. split; [reflexivity | by left].
  - change (bind (ret false) ?k) with (k false). cbn beta iota.
    unfold admitted_turn, open_turn. rewrite Ha, Href.
    cbn [opt_truthy]. rewrite Htruthy. cbn [default from_option id].
    unfold bind at 1. unfold bind at 1. unfold ret at 1.
    unfold bind at 1. unfold ret at 1.
    unfold bind at 1. unfold now_isoformat at 1.
    unfold bind at 1. unfold perform at 1.
    set (stamp := datetime_now_isoformat env (length log)).
    exists (SaveMessage user_id cid (user_message request stamp)).
    destruct (save_message env user_id cid (user_message request stamp))
      as [[]|e].
    + unfold ret at 1.
      destruct (reply_turn_calls env request user_id cid None
                  ltac:(by intros _)
                  (log ++ [SaveMessage user_id cid
                             (user_message request stamp)]))
        as (rest & Hrest & _).
      exists rest. rewrite Hrest, <- app_assoc.
      split; [reflexivity | right; by exists stamp].
    + exists []. split; [reflexivity | right; by exists stamp].
Qed.

(** The three ways a turn meets the check, for a reference the storage
    knows. *)
Lemma checked_turn (env : collaborators) (request : ChatRequest)
    (user_id cid : string) (conv : dict)
    (info : RateLimiter.rate_limit_info) :
  refers_to request cid ->
  get_conversation env user_id cid = Ok (Some conv) ->
  let looked := headers_log info ++ [GetConversation user_id cid] in
  let turn := public_chat env request (user_id, info) [] in
  (conv = ∅ /\ turn = (looked, Raise not_found))
  \/ (exists owner,
        conv !! "user_id"%string = Some owner
        /\ truthy owner = true /\ owner <> PyStr user_id
        /\ turn = (looked, Raise forbidden))
  \/ (conv <> ∅
      /\ (forall owner, conv !! "user_id"%string = Some owner ->
                        truthy owner = false \/ owner = PyStr user_id)
      /\ public_chat_body env request (user_id, info) []
         = after_ownership env request user_id looked
      /\ exists c rest,
           fst turn = looked ++ c :: rest
           /\ (c = CheckTrialLimit user_id
               \/ exists stamp,
                    c = SaveMessage user_id cid (user_message request stamp))).
Proof.
  intros Href Hget looked turn.
  pose proof (verify_ownership_referring env request user_id cid
                (headers_log info) Href) as Hv.
  rewrite Hget in Hv. fold looked in Hv.
  destruct (decide (conv = ∅)) as [Hempty | Hfull].
  - left. split; [exact Hempty|].
    assert (Ht : dict_truthy conv = false).
    { unfold dict_truthy. by rewrite bool_decide_eq_true_2. }
    rewrite Ht in Hv. by apply public_chat_ownership_error.
  - right.
    assert (Ht : dict_truthy conv = true).
    { unfold dict_truthy. by rewrite bool_decide_eq_false_2. }
    rewrite Ht in Hv. cbn [negb] in Hv. unfold dict_get in Hv.
    destruct (conv !! "user_id"%string) as [owner|] eqn:Ho;
      cbn [default from_option id] in Hv.
    + destruct (truthy owner) eqn:Et; cbn [andb] in Hv.
      * destruct (ne_str owner user_id) eqn:En.
        -- left. exists owner. repeat split; [|by apply ne_str_true|].
           ++ exact Et.
           ++ by apply public_chat_ownership_error.
        -- right.
           assert (Howner : owner = PyStr user_id).
           { destruct owner; try discriminate En. cbn in En.
             apply negb_false_iff, String.eqb_eq in En. by subst. }
           assert (Hbody : public_chat_body env request (user_id, info) []
                           = after_ownership env request user_id looked).
           { rewrite public_chat_body_unfold. unfold bind. by rewrite Hv. }
           split; [exact Hfull|]. split; [intros o [= <-]; by right|].
           split; [exact Hbody|].
           subst turn. rewrite public_chat_log, Hbody.
           apply (after_ownership_grows env request user_id cid looked Href).
      * right.
        assert (Hbody : public_chat_body env request (user_id, info) []
                        = after_ownership env request user_id looked).
        { rewrite public_chat_body_unfold. unfold bind. by rewrite Hv. }
        split; [exact Hfull|]. split; [intros o [= <-]; by left|].
        split; [exact Hbody|].
        subst turn. rewrite public_chat_log, Hbody.
        apply (after_ownership_grows env request user_id cid looked Href).
    + right. cbn in Hv.
      assert (Hbody : public_chat_body env request (user_id, info) []
                      = after_ownership env request user_id looked).
      { rewrite public_chat_body_unfold. unfold bind. by rewrite Hv. }
      split; [exact Hfull|]. split; [intros o [=]|].
      split; [exact Hbody|].
      subst turn. rewrite public_chat_log, Hbody.
      apply (after_ownership_grows env request user_id cid looked Href).
Qed.

(** C3 (as amended).  For a request that refers to a conversation the
    storage returns.  When the stored document is not empty and its owner
    field is missing, null or empty, the check lets any caller through:
    the turn goes on to the trial gate or to saving the caller's message.
    An empty stored document ends the turn with 404.  The turn ends with
    403 at the check exactly when the owner field is present, set, and not
    the caller's identity (for a string owner: not empty and not the
    caller). *)
Theorem forbidden_iff_owner_set_and_differs (env : collaborators)
    (request : ChatRequest) (user_id : string)
    (info : RateLimiter.rate_limit_info) :
  unset_owner_rule (fun conv => conv <> ∅) env request user_id info
  /\ forall cid conv,
       refers_to request cid ->
       get_conversation env user_id cid = Ok (Some conv) ->
       let looked := headers_log info ++ [GetConversation user_id cid] in
       let turn := public_chat env request (user_id, info) [] in
       (conv = ∅ -> turn = (looked, Raise not_found))
       /\ (turn = (looked, Raise forbidden) <->
           exists owner, conv !! "user_id"%string = Some owner
                         /\ truthy owner = true /\ owner <> PyStr user_id)
       /\ (forall s, conv !! "user_id"%string = Some (PyStr s) ->
             (turn = (looked, Raise forbidden) <->
              s <> ""%string /\ s <> user_id)).
Proof.
  split.
  - intros cid conv Href Hget Hfull Hunset.
    destruct (checked_turn env request user_id cid conv info Href Hget)
      as [[Hempty _] | [(owner & Ho & Et & Hne & _)
                       | (_ & _ & _ & c & rest & Hlog & Hc)]].
    + contradiction.
    + destruct Hunset as [H | [H | H]]; rewrite H in Ho;
        [discriminate Ho | injection Ho as <- | injection Ho as <-];
        discriminate Et.
    + exists c, rest. rewrite Hlog, <- app_assoc. by split.
  - intros cid conv Href Hget looked turn.
    pose proof (checked_turn env request user_id cid conv info Href Hget)
      as Hcases.
    cbv zeta in Hcases. fold looked in Hcases. fold turn in Hcases.
    assert (Hiff : turn = (looked, Raise forbidden) <->
                   exists owner, conv !! "user_id"%string = Some owner
                                 /\ truthy owner = true
                                 /\ owner <> PyStr user_id).
    { split.
      - intros Hturn.
        destruct Hcases as [[_ H404] | [(owner & Ho & Et & Hne & _)
                                       | (_ & _ & _ & c & rest & Hlog & _)]].
        + rewrite Hturn in H404. discriminate H404.
        + by exists owner.
        + rewrite Hturn in Hlog. cbn [fst] in Hlog.
          apply (f_equal length) in Hlog. rewrite length_app in Hlog.
          cbn [length] in Hlog. lia.
      - intros (owner & Ho & Et & Hne).
        destruct Hcases as [[Hempty _] | [(owner' & _ & _ & _ & H403)
                                         | (_ & Hnot & _)]].
        + rewrite Hempty, lookup_empty in Ho. discriminate Ho.
        + exact H403.
        + destruct (Hnot owner Ho) as [H | H]; congruence. }
    split; [|split].
    + intros Hempty.
      destruct Hcases as [[_ H404] | [(owner & Ho & _)
                                     | (Hfull & _)]].
      * exact H404.
      * rewrite Hempty, lookup_empty in Ho. discriminate Ho.
      * contradiction.
    + exact Hiff.
    + intros s Hs. rewrite Hiff. split.
      * intros (owner & Ho & Et & Hne). rewrite Hs in Ho.
        injection Ho as <-. split.
        -- by apply str_truthy_true.
        -- intros ->. by apply Hne.
      * intros [Hne Hdiff]. exists (PyStr s). split; [exact Hs|]. split.
        -- by apply str_truthy_true.
        -- intros [= ->]. by apply Hdiff.
Qed.

Lemma forbidden_iff_owner_set_and_differs_witness :
  let looked user_id :=
    headers_log sample_info ++ [GetConversation user_id "c1"] in
  let env stored :=
    sample_env (Ok (Some stored)) false no_preferences None [] None in
  let request := follow_up_request "more" in
  proceeds (env ownerless_conversation) request "bob" "c1" sample_info
  /\ public_chat (env alice_conversation) request
       ("bob"%string, sample_info) []
     = (looked "bob"%string, Raise forbidden)
  /\ public_chat (env alice_conversation) request
       ("alice"%string, sample_info) []
     <> (looked "alice"%string, Raise forbidden)
  /\ public_chat (env ∅) request ("bob"%string, sample_info) []
     = (looked "bob"%string, Raise not_found).
Proof.
  intros looked env request.
  assert (Href : refers_to request "c1") by (split; reflexivity).
  split; [|split; [|split]].
  - apply (proj1 (forbidden_iff_owner_set_and_differs
                    (env ownerless_conversation) request "bob" sample_info)
             "c1"%string ownerless_conversation Href eq_refl).
    + intros H. apply (f_equal (fun d : dict => d !! "user_id"%string)) in H.
      vm_compute in H. discriminate H.
    + right. right. reflexivity.
  - destruct (proj2 (forbidden_iff_owner_set_and_differs
                       (env alice_conversation) request "bob" sample_info)
                "c1"%string alice_conversation Href eq_refl)
      as (_ & _ & Hstr).
    apply (Hstr "alice"%string eq_refl). split; discriminate.
  - destruct (proj2 (forbidden_iff_owner_set_and_differs
                       (env alice_conversation) request "alice" sample_info)
                "c1"%string alice_conversation Href eq_refl)
      as (_ & _ & Hstr).
    intros H. apply (Hstr "alice"%string eq_refl) in H.
    by destruct H as [_ H].
  - destruct (proj2 (forbidden_iff_owner_set_and_differs
                       (env ∅) request "bob" sample_info)
                "c1"%string ∅ Href eq_refl) as (H404 & _).
    exact (H404 eq_refl).
Defined.

(** C3 as worded fails for every stored conversation: a stored document
    that is empty has no owner field, yet the turn does not go on; it ends
    with 404 at the check. *)
Lemma empty_document_is_not_found :
  ~ unset_owner_rule (fun _ => True)
      (sample_env (Ok (Some ∅)) false no_preferences None [] None)
      (follow_up_request "more") "bob" sample_info.
Proof.
  intros H.
  destruct (H "c1"%string ∅ (conj eq_refl eq_refl) eq_refl I
              (or_introl (lookup_empty _)))
    as (c & rest & Hlog & _).
  apply (f_equal length) in Hlog. rewrite !length_app in Hlog.
  vm_compute in Hlog. discriminate Hlog.
Qed.

End RouterTurns.
